(** * ProjectRewind: the programme-guide core of frontend/main.js

  A shallow embedding of the guide-feed parser ([parseEpgXml] with its
  helper [parseTimeStr]), the feed loader ([loadEpg]), the slot matcher
  ([findProgrammeForSlot]), the presence test of [updateInfoDisplay] and
  the four time-window navigation handlers, together with the parts of
  the JavaScript run time they rest on: [parseInt], [Date.UTC], property
  lookup on plain objects and the stable [Array.prototype.sort].

  Conventions.
  - A JavaScript string is a [string] of ASCII characters.
  - A finite time value (milliseconds since the epoch) is a [Z]; a [Date]
    that may be invalid is an [option Z], [None] being [NaN].
  - A call that may raise returns a [result]. *)

From Stdlib Require Import ZArith Lia Bool List String Ascii.
From Stdlib Require Import Sorting.Sorted Sorting.Permutation.
From Stdlib Require Import DecimalString.
Import ListNotations.

Local Open Scope string_scope.
Local Open Scope Z_scope.
Local Open Scope list_scope.

(* ===================================================================== *)
(** ** Strings: the run-time functions the parser calls *)
(* ===================================================================== *)

Module JsString.

(** [s.slice(a, b)] for [0 <= a <= b]: both ends are clamped to the
    length of [s], which is what [String.substring] does. *)
Definition slice (a b : nat) (s : string) : string :=
  String.substring a (b - a) s.

(** White space of the ASCII range (TAB, LF, VT, FF, CR, SP), which is
    what [parseInt], [trim] and the class [\s] take of a text of ASCII
    characters. They take the other Unicode spaces as well (U+00A0,
    U+FEFF, U+2028 and the like), which a text read here as white space
    at its ends or between its words is taken not to hold. *)
Definition isWhiteSpace (c : ascii) : bool :=
  let n := nat_of_ascii c in
  ((9 <=? n)%nat && (n <=? 13)%nat) || (n =? 32)%nat.

Fixpoint trimStart (s : string) : string :=
  match s with
  | String c s' => if isWhiteSpace c then trimStart s' else s
  | EmptyString => s
  end.

(** Value of a decimal digit, the class [\d] of a regular expression. *)
Definition digitValue (c : ascii) : option Z :=
  let n := nat_of_ascii c in
  if ((48 <=? n)%nat && (n <=? 57)%nat)%bool
  then Some (Z.of_nat (n - 48)) else None.

Definition isDigit (c : ascii) : bool :=
  match digitValue c with Some _ => true | None => false end.

Definition hexValue (c : ascii) : option Z :=
  let n := nat_of_ascii c in
  if ((48 <=? n)%nat && (n <=? 57)%nat)%bool then Some (Z.of_nat (n - 48))
  else if ((65 <=? n)%nat && (n <=? 70)%nat)%bool then Some (Z.of_nat (n - 55))
  else if ((97 <=? n)%nat && (n <=? 102)%nat)%bool then Some (Z.of_nat (n - 87))
  else None.

(** The longest prefix of radix-[R] digits, read as a number; [acc] is
    [None] until a first digit has been read. *)
Fixpoint readDigits (val : ascii -> option Z) (R : Z) (s : string)
    (acc : option Z) : option Z :=
  match s with
  | String c s' =>
      match val c with
      | Some v =>
          readDigits val R s'
            (Some (R * match acc with Some a => a | None => 0 end + v))
      | None => acc
      end
  | EmptyString => acc
  end.

(** [parseInt(s)] without a radix: leading white space, an optional
    sign, an optional [0x]/[0X] prefix selecting radix 16, then the
    longest run of digits. [None] is [NaN]. *)
Definition parseInt (s : string) : option Z :=
  let s1 := trimStart s in
  let '(sign, s2) :=
    match s1 with
    | String "-"%char r => (-1, r)
    | String "+"%char r => (1, r)
    | _ => (1, s1)
    end in
  let mathInt :=
    match s2 with
    | String "0"%char (String "x"%char r) => readDigits hexValue 16 r None
    | String "0"%char (String "X"%char r) => readDigits hexValue 16 r None
    | _ => readDigits digitValue 10 s2 None
    end in
  option_map (Z.mul sign) mathInt.

(** [s.toLowerCase()] on a text of ASCII characters: the letters A to Z
    are lowered and nothing else is. The guide, which lowers channel
    names of any script and uses the result as a key, takes the function
    of the host as a parameter instead; this one is its value on the
    sample texts. *)
Definition lowerChar (c : ascii) : ascii :=
  let n := nat_of_ascii c in
  if ((65 <=? n)%nat && (n <=? 90)%nat)%bool then ascii_of_nat (n + 32) else c.

Fixpoint toLowerCase (s : string) : string :=
  match s with
  | String c s' => String (lowerChar c) (toLowerCase s')
  | EmptyString => EmptyString
  end.

(** A non-empty string is truthy. *)
Definition truthy (s : string) : bool :=
  match s with EmptyString => false | _ => true end.

(** One attempt of the regular expression [/([+-])(\d{2})(\d{2})/] at the
    head of [s]: the sign and the two captured digit pairs. *)
Definition isSign (c : ascii) : bool :=
  (c =? "+")%char || (c =? "-")%char.

Definition matchOffsetAt (s : string) : option (ascii * string * string) :=
  match s with
  | String c (String d1 (String d2 (String d3 (String d4 _)))) =>
      if isSign c && isDigit d1 && isDigit d2 && isDigit d3 && isDigit d4
      then Some (c, String d1 (String d2 EmptyString),
                    String d3 (String d4 EmptyString))
      else None
  | _ => None
  end.

(** [str.match(/([+-])(\d{2})(\d{2})/)]: the leftmost position at which
    the expression matches; [None] is [null]. *)
Fixpoint matchOffset (s : string) : option (ascii * string * string) :=
  match matchOffsetAt s with
  | Some m => Some m
  | None =>
      match s with
      | String _ s' => matchOffset s'
      | EmptyString => None
      end
  end.

(** The number denoted by a canonical array index: ["0"], or digits
    without a leading zero, below [2^32 - 1]. Such property names are
    enumerated first, in numeric order. *)
Definition arrayIndex (k : string) : option Z :=
  match k with
  | EmptyString => None
  | String "0"%char EmptyString => Some 0
  | String "0"%char _ => None
  | String _ _ =>
      if forallb isDigit (list_ascii_of_string k)
      then match readDigits digitValue 10 k None with
           | Some n => if n <? 4294967295 then Some n else None
           | None => None
           end
      else None
  end.

End JsString.

(* ===================================================================== *)
(** ** Dates: [Date.UTC] and the calendar fields of a time value *)
(* ===================================================================== *)

Module JsDate.

Definition msPerDay : Z := 86400000.
Definition msPerHour : Z := 3600000.
Definition msPerMinute : Z := 60000.
Definition msPerSecond : Z := 1000.

(** Day number of 1 January of year [y]. *)
Definition DayFromYear (y : Z) : Z :=
  365 * (y - 1970) + (y - 1969) / 4 - (y - 1901) / 100 + (y - 1601) / 400.

Definition isLeap (y : Z) : bool :=
  (y mod 4 =? 0) && (negb (y mod 100 =? 0) || (y mod 400 =? 0)).

Definition DaysInYear (y : Z) : Z := if isLeap y then 366 else 365.

(** Day within the year on which month [m] (0 = January) begins;
    [monthStart leap 12] is the length of the year. *)
Definition monthStart (leap : bool) (m : Z) : Z :=
  let L := if leap then 1 else 0 in
  if m <=? 0 then 0 else
  if m =? 1 then 31 else
  if m =? 2 then 59 + L else
  if m =? 3 then 90 + L else
  if m =? 4 then 120 + L else
  if m =? 5 then 151 + L else
  if m =? 6 then 181 + L else
  if m =? 7 then 212 + L else
  if m =? 8 then 243 + L else
  if m =? 9 then 273 + L else
  if m =? 10 then 304 + L else
  if m =? 11 then 334 + L else 365 + L.

Definition DaysInMonth (y m : Z) : Z :=
  monthStart (isLeap y) (m + 1) - monthStart (isLeap y) m.

(** [MakeDay(year, month, date)]: months outside 0..11 carry into the
    year, days outside the month carry linearly. *)
Definition MakeDay (year month date : Z) : Z :=
  let ym := year + month / 12 in
  let mn := month mod 12 in
  DayFromYear ym + monthStart (isLeap ym) mn + date - 1.

Definition MakeTime (hour min sec ms : Z) : Z :=
  hour * msPerHour + min * msPerMinute + sec * msPerSecond + ms.

Definition MakeDate (day time : Z) : Z := day * msPerDay + time.

(** [TimeClip]: a time value beyond 8.64e15 ms is [NaN]. *)
Definition TimeClip (t : Z) : option Z :=
  if Z.abs t <=? 8640000000000000 then Some t else None.

(** [MakeFullYear]: years 0..99 stand for 1900..1999. *)
Definition MakeFullYear (y : Z) : Z :=
  if (0 <=? y) && (y <=? 99) then 1900 + y else y.

(** [Date.UTC(year, month, day, hour, minute, second)] on finite
    arguments. *)
Definition UTC (year month day hour minute second : Z) : option Z :=
  TimeClip (MakeDate (MakeDay (MakeFullYear year) month day)
                     (MakeTime hour minute second 0)).

(** [Date.UTC] on the results of [parseInt]: [NaN] in, [NaN] out. *)
Definition UTC_opt (year month day hour minute second : option Z) : option Z :=
  match year, month, day, hour, minute, second with
  | Some y, Some mo, Some d, Some h, Some mi, Some s => UTC y mo d h mi s
  | _, _, _, _, _, _ => None
  end.

(** *** From a time value back to calendar fields *)

Definition Day (t : Z) : Z := t / msPerDay.
Definition TimeWithinDay (t : Z) : Z := t mod msPerDay.

(** The year [y] with [DayFromYear y <= d < DayFromYear (y + 1)]:
    an estimate from the mean year length, corrected by one. *)
Definition YearFromDay (d : Z) : Z :=
  let y := 1970 + (400 * d) / 146097 in
  if d <? DayFromYear y then y - 1
  else if DayFromYear (y + 1) <=? d then y + 1 else y.

Definition MonthFromDayInYear (leap : bool) (k : Z) : Z :=
  if k <? monthStart leap 1 then 0 else
  if k <? monthStart leap 2 then 1 else
  if k <? monthStart leap 3 then 2 else
  if k <? monthStart leap 4 then 3 else
  if k <? monthStart leap 5 then 4 else
  if k <? monthStart leap 6 then 5 else
  if k <? monthStart leap 7 then 6 else
  if k <? monthStart leap 8 then 7 else
  if k <? monthStart leap 9 then 8 else
  if k <? monthStart leap 10 then 9 else
  if k <? monthStart leap 11 then 10 else 11.

Definition YearFromTime (t : Z) : Z := YearFromDay (Day t).
Definition DayWithinYear (t : Z) : Z := Day t - DayFromYear (YearFromTime t).
Definition MonthFromTime (t : Z) : Z :=
  MonthFromDayInYear (isLeap (YearFromTime t)) (DayWithinYear t).
Definition DateFromTime (t : Z) : Z :=
  DayWithinYear t - monthStart (isLeap (YearFromTime t)) (MonthFromTime t) + 1.
Definition HourFromTime (t : Z) : Z := (t / msPerHour) mod 24.
Definition MinFromTime (t : Z) : Z := (t / msPerMinute) mod 60.
Definition SecFromTime (t : Z) : Z := (t / msPerSecond) mod 60.

(** Wall-clock fields as a record: calendar month 1..12. *)
Record fields : Type := mkFields
  { f_year : Z; f_month : Z; f_day : Z;
    f_hour : Z; f_minute : Z; f_second : Z }.

Definition fieldsOfTime (t : Z) : fields :=
  {| f_year := YearFromTime t; f_month := MonthFromTime t + 1;
     f_day := DateFromTime t; f_hour := HourFromTime t;
     f_minute := MinFromTime t; f_second := SecFromTime t |}.

(** Calendar validity of wall-clock fields. *)
Definition validFields (f : fields) : Prop :=
  1 <= f_month f <= 12 /\
  1 <= f_day f <= DaysInMonth (f_year f) (f_month f - 1) /\
  0 <= f_hour f <= 23 /\ 0 <= f_minute f <= 59 /\ 0 <= f_second f <= 59.

End JsDate.

(* ===================================================================== *)
(** ** Plain objects used as maps *)
(* ===================================================================== *)

(** The maps of the guide are object literals [{}] read and written with
    [o[k]]. Such an object has its own properties, kept here in insertion
    order, and it inherits the properties of [Object.prototype]: a read
    of ["constructor"] or ["toString"] on an object without such an own
    property yields a built-in function, not [undefined]. Writing
    ["__proto__"] goes to the inherited setter, which replaces the
    prototype when it is given an object or [null] and ignores any other
    value. *)

Module JsObject.

(** String-keyed properties of [Object.prototype]. *)
Definition objectProtoKeys : list string :=
  [ "constructor"; "__defineGetter__"; "__defineSetter__"; "hasOwnProperty";
    "__lookupGetter__"; "__lookupSetter__"; "isPrototypeOf";
    "propertyIsEnumerable"; "toString"; "valueOf"; "__proto__";
    "toLocaleString" ].

(** String-keyed properties of [Array.prototype] (ECMAScript 2023). *)
Definition arrayProtoKeys : list string :=
  [ "at"; "concat"; "copyWithin"; "entries"; "every"; "fill"; "filter";
    "find"; "findIndex"; "findLast"; "findLastIndex"; "flat"; "flatMap";
    "forEach"; "includes"; "indexOf"; "join"; "keys"; "lastIndexOf"; "map";
    "pop"; "push"; "reduce"; "reduceRight"; "reverse"; "shift"; "slice";
    "some"; "sort"; "splice"; "toReversed"; "toSorted"; "toSpliced";
    "unshift"; "values"; "with" ].

(** The [length] of the built-in found under a key of
    [Object.prototype]; the accessor ["__proto__"] yields the prototype
    object, which has none. *)
Definition nativeLength (k : string) : Z :=
  if (k =? "constructor")%string then 1
  else if (k =? "__defineGetter__")%string then 2
  else if (k =? "__defineSetter__")%string then 2
  else if (k =? "hasOwnProperty")%string then 1
  else if (k =? "__lookupGetter__")%string then 1
  else if (k =? "__lookupSetter__")%string then 1
  else if (k =? "isPrototypeOf")%string then 1
  else if (k =? "propertyIsEnumerable")%string then 1
  else 0.

(** The text of a built-in used as a property name. *)
Definition nativeSource (k : string) : string :=
  if (k =? "__proto__")%string then "[object Object]"
  else if (k =? "constructor")%string then "function Object() { [native code] }"
  else ("function " ++ k ++ "() { [native code] }")%string.

Definition inb (k : string) (l : list string) : bool :=
  existsb (String.eqb k) l.

(** Own properties, in insertion order. *)
Fixpoint assoc {V : Type} (k : string) (l : list (string * V)) : option V :=
  match l with
  | [] => None
  | (k', v) :: l' => if (k =? k')%string then Some v else assoc k l'
  end.

(** [o[k] = v] on own properties: an existing property keeps its place,
    a new one goes last. *)
Fixpoint assocSet {V : Type} (k : string) (v : V) (l : list (string * V))
    : list (string * V) :=
  match l with
  | [] => [(k, v)]
  | (k', v') :: l' =>
      if (k =? k')%string then (k', v) :: l' else (k', v') :: assocSet k v l'
  end.

(** The result of a read [o[k]]. *)
Inductive lookup (V : Type) : Type :=
| Found (v : V)          (* a value stored by the program *)
| Inherited (k : string) (* a truthy inherited value that is no such value *)
| Undefined.             (* [undefined], or an inherited falsy value *)
Arguments Found {V} v.
Arguments Inherited {V} k.
Arguments Undefined {V}.

(** *** Objects holding strings or [null] *)

Record strObj : Type := mkStrObj
  { s_own : list (string * option string);
    s_protoNull : bool  (* the prototype has been set to [null] *) }.

Definition emptyStrObj : strObj := {| s_own := []; s_protoNull := false |}.

Definition getStr (o : strObj) (k : string) : lookup (option string) :=
  match assoc k (s_own o) with
  | Some v => Found v
  | None =>
      if negb (s_protoNull o) && inb k objectProtoKeys
      then Inherited k else Undefined
  end.

Definition setStr (k : string) (v : option string) (o : strObj) : strObj :=
  if (k =? "__proto__")%string && negb (s_protoNull o) then
    match v with
    | None => {| s_own := s_own o; s_protoNull := true |}
    | Some _ => o
    end
  else {| s_own := assocSet k v (s_own o); s_protoNull := s_protoNull o |}.

(** *** Objects holding arrays *)

Record obj (A : Type) : Type := mkObj
  { own : list (string * list A);
    protoArray : option (list A)
      (* [Some a]: the prototype has been set to the array [a] *) }.
Arguments mkObj {A} own protoArray.
Arguments own {A} o.
Arguments protoArray {A} o.

Definition emptyObj {A : Type} : obj A := {| own := []; protoArray := None |}.

(** String-keyed properties of an array that are truthy: its indices
    (the elements are objects) and a non-zero [length]. *)
Definition arrayHas {A : Type} (a : list A) (k : string) : bool :=
  match JsString.arrayIndex k with
  | Some i => i <? Z.of_nat (List.length a)
  | None => (k =? "length")%string && negb (Nat.eqb (List.length a) 0)
  end.

Definition get {A : Type} (o : obj A) (k : string) : lookup (list A) :=
  match assoc k (own o) with
  | Some l => Found l
  | None =>
      match protoArray o with
      | Some a =>
          if (k =? "__proto__")%string then Found a
          else if arrayHas a k || inb k arrayProtoKeys || inb k objectProtoKeys
          then Inherited k else Undefined
      | None => if inb k objectProtoKeys then Inherited k else Undefined
      end
  end.

Definition set {A : Type} (k : string) (l : list A) (o : obj A) : obj A :=
  if (k =? "__proto__")%string
  then {| own := own o; protoArray := Some l |}
  else {| own := assocSet k l (own o); protoArray := protoArray o |}.

(** Every own array replaced by its image under [f] (an in-place
    operation applied to each of them). *)
Definition mapOwn {A : Type} (f : list A -> list A) (o : obj A) : obj A :=
  {| own := map (fun kv => (fst kv, f (snd kv))) (own o);
     protoArray := protoArray o |}.

(** [Object.keys(o)] with the values: array indices first, in numeric
    order, then the other names in insertion order. *)
Fixpoint insertIndex {V : Type} (i : Z) (kv : string * V)
    (l : list (Z * (string * V))) : list (Z * (string * V)) :=
  match l with
  | [] => [(i, kv)]
  | (j, kv') :: l' =>
      if i <? j then (i, kv) :: (j, kv') :: l'
      else (j, kv') :: insertIndex i kv l'
  end.

Fixpoint indexEntries {V : Type} (l : list (string * V))
    : list (Z * (string * V)) :=
  match l with
  | [] => []
  | kv :: l' =>
      match JsString.arrayIndex (fst kv) with
      | Some i => insertIndex i kv (indexEntries l')
      | None => indexEntries l'
      end
  end.

Definition isName {V : Type} (kv : string * V) : bool :=
  match JsString.arrayIndex (fst kv) with Some _ => false | None => true end.

Definition entries {V : Type} (l : list (string * V)) : list (string * V) :=
  map snd (indexEntries l) ++ filter isName l.

End JsObject.

(* ===================================================================== *)
(** ** The guide: feed parser, loader, slot matcher *)
(* ===================================================================== *)

Module Epg.

Import JsString JsDate JsObject.

(** *** Calls that may raise *)

Inductive error : Type := TypeError.

Inductive result (A : Type) : Type :=
| Ok (a : A)
| Throw (e : error).
Arguments Ok {A} a.
Arguments Throw {A} e.

Definition bind {A B : Type} (r : result A) (k : A -> result B) : result B :=
  match r with
  | Ok a => k a
  | Throw e => Throw e
  end.

Notation "x <- r ;; k" := (bind r (fun x => k))
  (at level 61, r at next level, right associativity).

(** *** Values met where a string is expected *)

(** [getAttribute] yields a string or [null]; a read of one of the
    name maps may also yield a built-in of [Object.prototype]. *)
Inductive value : Type :=
| VNull
| VStr (s : string)
| VNative (k : string).

Definition ofNullable (o : option string) : value :=
  match o with
  | Some s => VStr s
  | None => VNull
  end.

(** The property name a value denotes in [o[v]]. *)
Definition toPropertyKey (v : value) : string :=
  match v with
  | VNull => "null"
  | VStr s => s
  | VNative k => nativeSource k
  end.

Definition propKey (o : option string) : string := toPropertyKey (ofNullable o).

(** [r || dflt] for a read [r] of a name map. *)
Definition orElse (r : lookup (option string)) (dflt : value) : value :=
  match r with
  | Found (Some s) => if truthy s then VStr s else dflt
  | Found None => dflt
  | Inherited k => VNative k
  | Undefined => dflt
  end.

(** *** The document handed over by [DOMParser]

    [parseFromString] never raises: for text that is not well-formed it
    returns a document whose only element is [parsererror]. What the parser
    reads of a document is the sequence of its [channel] elements and the
    sequence of its [programme] elements, in document order, and of each
    element its attributes and the texts of its children; the nodes below
    carry these. *)

Record channelNode : Type := mkChannelNode
  { c_id : option string;           (* getAttribute('id') *)
    c_displayName : option string;  (* trimmed text of the first display-name *)
    c_iconSrc : option string       (* iconSrc of lines 914-923 *) }.

Record programmeNode : Type := mkProgrammeNode
  { p_channel : option string;      (* getAttribute('channel') *)
    p_start : option string;        (* getAttribute('start') *)
    p_stop : option string;         (* getAttribute('stop') *)
    p_title : string;
    p_subtitle : string;
    p_desc : string;
    p_rating : string;
    p_season : option Z;            (* season, episodeNumber of lines 975-994 *)
    p_episodeNumber : option Z }.

Record document : Type := mkDocument
  { channelNodes : list channelNode;
    programmeNodes : list programmeNode }.

(** *** Programme records *)

Record programme : Type := mkProgramme
  { title : string;
    subtitle : string;
    desc : string;
    rating : string;
    season : option Z;
    episodeNumber : option Z;
    start : Z;
    end_ : Z;
    icon : value }.

(** [list.sort((a, b) => a.start - b.start)]: the sort is stable, so the
    result is the one of insertion from the right, an element going
    before those it does not exceed. *)
Fixpoint insertByStart (x : programme) (l : list programme) : list programme :=
  match l with
  | [] => [x]
  | y :: l' =>
      if start x - start y <=? 0 then x :: y :: l'
      else y :: insertByStart x l'
  end.

Definition sortByStart (l : list programme) : list programme :=
  fold_right insertByStart [] l.

Section Host.

(** [new Date().getTimezoneOffset()]: minutes from the local time of the
    host to UTC. *)
Variable localOffset : Z.

(** *** parseTimeStr *)

Definition parseTimeStr (str : string) : option Z :=
  if negb (truthy str) then None else
  let digits := String.substring 0 14 str in
  let year := parseInt (slice 0 4 digits) in
  let month := option_map (fun m => m - 1) (parseInt (slice 4 6 digits)) in
  let day := parseInt (slice 6 8 digits) in
  let hour := parseInt (slice 8 10 digits) in
  let minute := parseInt (slice 10 12 digits) in
  let second := parseInt (slice 12 14 digits) in
  let timezoneOffset :=
    match matchOffset str with
    | Some (sg, hh, mm) =>
        let sign := if (sg =? "+")%char then 1 else -1 in
        match parseInt hh, parseInt mm with
        | Some hours, Some minutes => Some (sign * (hours * 60 + minutes))
        | _, _ => None
        end
    | None => Some 0
    end in
  let utcDate := UTC_opt year month day hour minute second in
  match utcDate, timezoneOffset with
  | Some u, Some tz => TimeClip (u - tz * 60000 + localOffset * 60000)
  | _, _ => None
  end.

(** *** parseEpgXml *)

(** One turn of the loop over the [channel] elements. *)
Definition addChannel (maps : strObj * strObj) (node : channelNode)
    : strObj * strObj :=
  let id := c_id node in
  let displayName :=
    match c_displayName node with
    | Some text => Some text
    | None => id
    end in
  (setStr (propKey id) displayName (fst maps),
   setStr (propKey id) (c_iconSrc node) (snd maps)).

(** [if (!o[k]) o[k] = []; o[k].push(rec)]. *)
Definition pushTo (k : string) (rec : programme) (o : obj programme)
    : result (obj programme) :=
  let o1 :=
    match get o k with
    | Undefined => set k [] o
    | _ => o
    end in
  match get o1 k with
  | Found l => Ok (set k (l ++ [rec]) o1)
  | _ => Throw TypeError
  end.

(** [getAttribute(a) || '']. *)
Definition orEmpty (o : option string) : string :=
  match o with
  | Some s => s
  | None => ""
  end.

(** [channelIdToName[channelId] || channelId]. *)
Definition displayNameOf (channelIdToName : strObj) (channelId : option string)
    : value :=
  orElse (getStr channelIdToName (propKey channelId)) (ofNullable channelId).

(** The record pushed for a [programme] element with valid times. *)
Definition recordOf (channelIdToIcon : strObj) (p : programmeNode)
    (start end_ : Z) : programme :=
  {| title := p_title p; subtitle := p_subtitle p; desc := p_desc p;
     rating := p_rating p; season := p_season p;
     episodeNumber := p_episodeNumber p;
     start := start; end_ := end_;
     icon := orElse (getStr channelIdToIcon (propKey (p_channel p))) VNull |}.

(** One turn of the loop over the [programme] elements. *)
Definition addProgramme (channelIdToName channelIdToIcon : strObj)
    (acc : obj programme * obj programme) (p : programmeNode)
    : result (obj programme * obj programme) :=
  let channelId := p_channel p in
  let startStr := orEmpty (p_start p) in
  let stopStr := orEmpty (p_stop p) in
  match parseTimeStr startStr, parseTimeStr stopStr with
  | Some start, Some end_ =>
      let displayName := displayNameOf channelIdToName channelId in
      let rec := recordOf channelIdToIcon p start end_ in
      schedule <- pushTo (toPropertyKey displayName) rec (fst acc) ;;
      scheduleByTvgId <- pushTo (propKey channelId) rec (snd acc) ;;
      Ok (schedule, scheduleByTvgId)
  | _, _ => Ok acc
  end.

Fixpoint addProgrammes (channelIdToName channelIdToIcon : strObj)
    (ps : list programmeNode) (acc : obj programme * obj programme)
    : result (obj programme * obj programme) :=
  match ps with
  | [] => Ok acc
  | p :: ps' =>
      acc' <- addProgramme channelIdToName channelIdToIcon acc p ;;
      addProgrammes channelIdToName channelIdToIcon ps' acc'
  end.

(** [channelIdToName] and [channelIdToIcon] after the first loop. *)
Definition channelMaps (doc : document) : strObj * strObj :=
  fold_left addChannel (channelNodes doc) (emptyStrObj, emptyStrObj).

(** The parser proper, on the document of its argument: the pair
    [(schedule, scheduleByTvgId)]. *)
Definition parseEpgXml (doc : document)
    : result (obj programme * obj programme) :=
  let maps := channelMaps doc in
  acc <- addProgrammes (fst maps) (snd maps) (programmeNodes doc)
           (emptyObj, emptyObj) ;;
  Ok (mapOwn sortByStart (fst acc), mapOwn sortByStart (snd acc)).

(** *** loadEpg *)

Record EpgState : Type := mkEpgState
  { epgSchedule : obj programme;
    epgScheduleNormalized : obj programme;
    epgScheduleByTvgId : obj programme }.

Definition emptyState : EpgState :=
  {| epgSchedule := emptyObj; epgScheduleNormalized := emptyObj;
     epgScheduleByTvgId := emptyObj |}.

(** [String.prototype.toLowerCase] of the host: it lowers every cased
    letter of a text, whatever its script, and the guide is taken over
    all such functions. On a text of ASCII characters it is
    [JsString.toLowerCase]. *)
Variable toLowerCase : string -> string.

(** [Object.keys(epgSchedule).forEach((name) => {
      epgScheduleNormalized[name.toLowerCase()] = epgSchedule[name]; })]. *)
Definition normalize (schedule : obj programme) : obj programme :=
  fold_left (fun acc kv => set (toLowerCase (fst kv)) (snd kv) acc)
            (entries (own schedule)) emptyObj.

Definition install (parsed : obj programme * obj programme) : EpgState :=
  {| epgSchedule := fst parsed;
     epgScheduleNormalized := normalize (fst parsed);
     epgScheduleByTvgId := snd parsed |}.

(** What [renderGuide(); buildMiniChannels(); updatePlayerInfo()] do
    with the three maps just installed: they return or they raise. *)
Variable rendering : EpgState -> result unit.

(** The state left by [loadEpg]; [None] is a failed fetch. An exception
    of the parser, like one of the rendering that follows it inside the
    [try], is caught and leaves the three maps empty; the rendering
    repeated in the [catch] changes none of them. *)
Definition loadEpg (response : option document) : EpgState :=
  match response with
  | Some doc =>
      match parseEpgXml doc with
      | Ok parsed =>
          match rendering (install parsed) with
          | Ok _ => install parsed
          | Throw _ => emptyState
          end
      | Throw _ => emptyState
      end
  | None => emptyState
  end.

End Host.

(** *** findProgrammeForSlot *)

Record channel : Type := mkChannel
  { name : string;
    tvgId : option string }.

Section Matcher.

(** [String.prototype.toLowerCase] of the host, as for [loadEpg]. *)
Variable toLowerCase : string -> string.

(** The value bound to [list] before the scan. *)
Definition candidates (st : EpgState) (ch : channel) : lookup (list programme) :=
  let byId :=
    match tvgId ch with
    | Some id => if truthy id then get (epgScheduleByTvgId st) id else Undefined
    | None => Undefined
    end in
  match byId with
  | Undefined =>
      let nameKey := toLowerCase (name ch) in
      match get (epgScheduleNormalized st) nameKey with
      | Undefined =>
          match get (epgSchedule st) (name ch) with
          | Undefined => Found []
          | r => r
          end
      | r => r
      end
  | r => r
  end.

Definition overlaps (slotStart slotEnd : Z) (prog : programme) : bool :=
  (start prog <? slotEnd) && (end_ prog >? slotStart).

(** [None] is [null]; iterating a value that is not an array raises. *)
Definition findProgrammeForSlot (st : EpgState) (ch : channel)
    (slotStart slotEnd : Z) : result (option programme) :=
  match candidates st ch with
  | Found list => Ok (find (overlaps slotStart slotEnd) list)
  | _ => Throw TypeError
  end.

End Matcher.

(** *** The presence test of updateInfoDisplay *)

(** [epgSchedule[channel.name] && epgSchedule[channel.name].length > 0]. *)
Definition hasSchedule (st : EpgState) (ch : channel) : bool :=
  match get (epgSchedule st) (name ch) with
  | Found l => 0 <? Z.of_nat (List.length l)
  | Inherited k => 0 <? nativeLength k
  | Undefined => false
  end.

(** The description shown for a channel when no programme is given. *)
Definition noProgrammeText (st : EpgState) (ch : channel) : string :=
  if hasSchedule st ch
  then "No programme information for this slot"
  else "No EPG data available".

End Epg.

(* ===================================================================== *)
(** ** The time window: the four navigation handlers *)
(* ===================================================================== *)

Module TimeWindow.

Import Epg.

(** Each handler takes the outcome of the call [renderGuide()] it makes
    after a commit (which does not assign [timeWindowStart] once that is
    set), the clock [now] read on entry, and [timeWindowStart], [None]
    being [null]. It yields [timeWindowStart] after the handler and the
    text given to [showMiniMessage], or the exception that ends it. *)

Definition scrollBackBtn_click (renderGuide : result unit) (now : Z)
    (timeWindowStart : option Z) : option Z * result string :=
  match timeWindowStart with
  | None => (None, Throw TypeError)
  | Some tws =>
      let oneWeekAgo := now - 7 * 24 * 60 * 60 * 1000 in
      let newTime := tws - 12 * 60 * 60 * 1000 in
      if newTime <? oneWeekAgo
      then (Some tws, Ok "Cannot go back more than 1 week")
      else (Some newTime, _ <- renderGuide ;; Ok "Scrolled -12 hours")
  end.

Definition scrollForwardBtn_click (renderGuide : result unit) (now : Z)
    (timeWindowStart : option Z) : option Z * result string :=
  match timeWindowStart with
  | None => (None, Throw TypeError)
  | Some tws =>
      let oneWeekForward := now + 7 * 24 * 60 * 60 * 1000 in
      let newTime := tws + 12 * 60 * 60 * 1000 in
      if newTime >? oneWeekForward
      then (Some tws, Ok "Cannot go forward more than 1 week")
      else (Some newTime, _ <- renderGuide ;; Ok "Scrolled +12 hours")
  end.

Definition scrollBackHourBtn_click (renderGuide : result unit) (now : Z)
    (timeWindowStart : option Z) : option Z * result string :=
  match timeWindowStart with
  | None => (None, Throw TypeError)
  | Some tws =>
      let oneWeekAgo := now - 7 * 24 * 60 * 60 * 1000 in
      let newTime := tws - 1 * 60 * 60 * 1000 in
      if newTime <? oneWeekAgo
      then (Some tws, Ok "Cannot go back more than 1 week")
      else (Some newTime, _ <- renderGuide ;; Ok "Scrolled -1 hour")
  end.

Definition scrollForwardHourBtn_click (renderGuide : result unit) (now : Z)
    (timeWindowStart : option Z) : option Z * result string :=
  match timeWindowStart with
  | None => (None, Throw TypeError)
  | Some tws =>
      let oneWeekForward := now + 7 * 24 * 60 * 60 * 1000 in
      let newTime := tws + 1 * 60 * 60 * 1000 in
      if newTime >? oneWeekForward
      then (Some tws, Ok "Cannot go forward more than 1 week")
      else (Some newTime, _ <- renderGuide ;; Ok "Scrolled +1 hour")
  end.

(** The navigation actions with the signed number of minutes each one
    moves the window by. *)
Inductive action : Type := Back12 | Forward12 | Back1 | Forward1.

Definition deltaMinutes (a : action) : Z :=
  match a with
  | Back12 => -720
  | Forward12 => 720
  | Back1 => -60
  | Forward1 => 60
  end.

Definition click (a : action) : result unit -> Z -> option Z
    -> option Z * result string :=
  match a with
  | Back12 => scrollBackBtn_click
  | Forward12 => scrollForwardBtn_click
  | Back1 => scrollBackHourBtn_click
  | Forward1 => scrollForwardHourBtn_click
  end.

Definition week : Z := 7 * 24 * 60 * 60 * 1000.

(** The two rejection notices. *)
Definition isRejection (r : result string) : Prop :=
  r = Ok "Cannot go back more than 1 week" \/
  r = Ok "Cannot go forward more than 1 week".

(** The bound an action is held to: a backward action must not pass the
    instant a week before [now], a forward action the instant a week
    after it. *)
Definition beyond (a : action) (now t : Z) : Prop :=
  if deltaMinutes a <? 0 then t < now - week else now + week < t.

End TimeWindow.

(* ===================================================================== *)
(** ** The vocabulary of the specification *)
(* ===================================================================== *)

Module Spec.

Import JsString JsDate JsObject Epg.

(** *** Timestamp texts [YYYYMMDDHHMMSS[ +-HHMM]] *)

Definition digitChar (d : Z) : ascii := ascii_of_nat (48 + Z.to_nat d).

Definition pad2 (n : Z) : string :=
  String (digitChar (n / 10)) (String (digitChar (n mod 10)) EmptyString).

Definition pad4 (n : Z) : string :=
  String (digitChar (n / 1000))
    (String (digitChar ((n / 100) mod 10)) (pad2 (n mod 100))).

(** Fields that fit the fourteen digits. *)
Definition printable (f : fields) : Prop :=
  0 <= f_year f <= 9999 /\ 0 <= f_month f <= 99 /\ 0 <= f_day f <= 99 /\
  0 <= f_hour f <= 99 /\ 0 <= f_minute f <= 99 /\ 0 <= f_second f <= 99.

Record offset : Type := mkOffset
  { o_negative : bool; o_hours : Z; o_minutes : Z }.

Definition printableOffset (o : offset) : Prop :=
  0 <= o_hours o <= 99 /\ 0 <= o_minutes o <= 99.

(** Minutes east of UTC. *)
Definition offsetMinutes (o : offset) : Z :=
  (if o_negative o then -1 else 1) * (o_hours o * 60 + o_minutes o).

Definition stampText (f : fields) : string :=
  (pad4 (f_year f) ++ pad2 (f_month f) ++ pad2 (f_day f) ++
   pad2 (f_hour f) ++ pad2 (f_minute f) ++ pad2 (f_second f))%string.

Definition offsetText (o : offset) : string :=
  String " " (String (if o_negative o then "-" else "+")
                     (pad2 (o_hours o) ++ pad2 (o_minutes o)))%char.

Definition timestamp (f : fields) (o : option offset) : string :=
  match o with
  | Some o => (stampText f ++ offsetText o)%string
  | None => stampText f
  end.

(** The naive calendar fields read as UTC. *)
Definition naiveInstant (f : fields) : Z :=
  MakeDate (MakeDay (f_year f) (f_month f - 1) (f_day f))
           (MakeTime (f_hour f) (f_minute f) (f_second f) 0).

(** The instant the specification asks for: the naive instant less the
    offset, or the naive instant itself when there is no offset. *)
Definition specInstant (f : fields) (o : option offset) : Z :=
  match o with
  | Some o => naiveInstant f - offsetMinutes o * 60000
  | None => naiveInstant f
  end.

(** The fields as [Date.UTC] takes them: a year below 100 is a year of
    the twentieth century. *)
Definition fullYear (f : fields) : fields :=
  {| f_year := MakeFullYear (f_year f); f_month := f_month f;
     f_day := f_day f; f_hour := f_hour f; f_minute := f_minute f;
     f_second := f_second f |}.

(** An instant shown as wall-clock fields at an offset. *)
Definition reexpress (o : offset) (t : Z) : fields :=
  fieldsOfTime (t + offsetMinutes o * 60000).

(** *** The indices as maps *)

(** The array stored under a key, if there is one. *)
Definition stored (o : obj programme) (k : string) : option (list programme) :=
  match get o k with
  | Found l => Some l
  | _ => None
  end.

(** The selection of the candidate list in the words of the
    specification: the first of three tiers to hold a list. *)
Definition specCandidates (toLowerCase : string -> string)
    (st : EpgState) (ch : channel) : list programme :=
  let byFeedId :=
    match tvgId ch with
    | Some id => stored (epgScheduleByTvgId st) id
    | None => None
    end in
  match byFeedId with
  | Some l => l
  | None =>
      match stored (epgScheduleNormalized st) (toLowerCase (name ch)) with
      | Some l => l
      | None =>
          match stored (epgScheduleNormalized st) (name ch) with
          | Some l => l
          | None => []
          end
      end
  end.

(** The selection in the words of the claim as amended: the list of the
    first tier to hold one, the identifier counting only when it is a
    string that is not empty; the third tier is the index by name under
    the name as written. *)
Definition tierById (st : EpgState) (ch : channel) : option (list programme) :=
  match tvgId ch with
  | Some id => if truthy id then stored (epgScheduleByTvgId st) id else None
  | None => None
  end.

Definition selection (toLowerCase : string -> string)
    (st : EpgState) (ch : channel) : list programme :=
  match tierById st ch with
  | Some l => l
  | None =>
      match stored (epgScheduleNormalized st) (toLowerCase (name ch)) with
      | Some l => l
      | None =>
          match stored (epgSchedule st) (name ch) with
          | Some l => l
          | None => []
          end
      end
  end.

(** Ascending by start. *)
Definition sortedByStart (l : list programme) : Prop :=
  StronglySorted (fun a b => start a <= start b) l.

(** Half-open overlap of a programme with a slot. *)
Definition overlapping (slotStart slotEnd : Z) (p : programme) : Prop :=
  start p < slotEnd /\ end_ p > slotStart.

(** *** What a feed contributes *)

(** The own array under a key, empty when there is none. *)
Definition listAt (o : obj programme) (k : string) : list programme :=
  match assoc k (own o) with
  | Some l => l
  | None => []
  end.

(** An object as the parser makes them: the prototype is untouched, no
    own property hides a property of [Object.prototype], and no name is
    listed twice. *)
Definition plain (o : obj programme) : Prop :=
  protoArray o = None /\
  (forall k, In k objectProtoKeys -> assoc k (own o) = None) /\
  NoDup (map fst (own o)).

Section Feed.

Variable localOffset : Z.
Variable doc : document.

(** The two instants of an element, when both timestamps are valid. *)
Definition validTimes (p : programmeNode) : option (Z * Z) :=
  match parseTimeStr localOffset (orEmpty (p_start p)),
        parseTimeStr localOffset (orEmpty (p_stop p)) with
  | Some a, Some b => Some (a, b)
  | _, _ => None
  end.

(** The key of an element in [schedule] and in [scheduleByTvgId]. *)
Definition displayKey (p : programmeNode) : string :=
  toPropertyKey (displayNameOf (fst (channelMaps doc)) (p_channel p)).

Definition idKey (p : programmeNode) : string := propKey (p_channel p).

(** The record of an element. *)
Definition recordFor (p : programmeNode) (times : Z * Z) : programme :=
  recordOf (snd (channelMaps doc)) p (fst times) (snd times).

(** The records of the elements of [ps] with valid times whose key is
    [k], in the order of the elements. *)
Definition recordsFor (key : programmeNode -> string) (k : string)
    (ps : list programmeNode) : list programme :=
  flat_map (fun p =>
              match validTimes p with
              | Some times =>
                  if (key p =? k)%string then [recordFor p times] else []
              | None => []
              end) ps.

(** An element the parser cannot store: its times are valid and one of
    its keys is a property of [Object.prototype]. *)
Definition clashes (p : programmeNode) : Prop :=
  validTimes p <> None /\
  (In (displayKey p) objectProtoKeys \/ In (idKey p) objectProtoKeys).

End Feed.

(** The last entry whose lower-cased key is [k]. *)
Fixpoint lastLowered (toLowerCase : string -> string) (k : string)
    (es : list (string * list programme)) : option (list programme) :=
  match es with
  | [] => None
  | kv :: es' =>
      match lastLowered toLowerCase k es' with
      | Some l => Some l
      | None => if (toLowerCase (fst kv) =? k)%string then Some (snd kv) else None
      end
  end.

End Spec.

(* ===================================================================== *)
(** ** Sample feeds and channels *)
(* ===================================================================== *)

Module Samples.

Import JsString JsDate JsObject Epg Spec.

(** The sample of the specification: 18:00:00 on 1 January 2024, at an
    offset of -0500. *)
Definition sampleFields : fields :=
  {| f_year := 2024; f_month := 1; f_day := 1;
     f_hour := 18; f_minute := 0; f_second := 0 |}.

Definition sampleOffset : offset :=
  {| o_negative := true; o_hours := 5; o_minutes := 0 |}.

Definition programmeElement (channelId start stop title : string)
    : programmeNode :=
  {| p_channel := Some channelId; p_start := Some start; p_stop := Some stop;
     p_title := title; p_subtitle := ""; p_desc := ""; p_rating := "";
     p_season := None; p_episodeNumber := None |}.

Definition channelElement (id displayName : string) : channelNode :=
  {| c_id := Some id; c_displayName := Some displayName; c_iconSrc := None |}.

Definition record (title : string) (start end_ : Z) : programme :=
  {| title := title; subtitle := ""; desc := ""; rating := "";
     season := None; episodeNumber := None;
     start := start; end_ := end_; icon := VNull |}.

(** One hour of news on channel 5, 23:00 to 24:00 UTC on 1 January 2024. *)
Definition newsFeed : document :=
  {| channelNodes := [channelElement "5" "News channel"];
     programmeNodes :=
       [programmeElement "5" "20240101180000 -0500" "20240101190000 -0500" "News"] |}.

Definition news : programme := record "News" 1704150000000 1704153600000.

(** A channel of the playlist known by its identifier only. *)
Definition channelFive : channel := {| name := "Five"; tvgId := Some "5" |}.

(** An element that stops an hour before it starts. *)
Definition backwardsFeed : document :=
  {| channelNodes := [channelElement "5" "News channel"];
     programmeNodes :=
       [programmeElement "5" "20240101190000 +0000" "20240101180000 +0000" "News"] |}.

(** An element of a channel whose identifier is the name of a built-in. *)
Definition clashFeed : document :=
  {| channelNodes := [];
     programmeNodes :=
       [programmeElement "constructor" "20240101000000 +0000" "20240101010000 +0000"
                "Film"] |}.

(** Two channels whose display names differ in case only. *)
Definition caseFeed : document :=
  {| channelNodes := [channelElement "1" "News"; channelElement "2" "NEWS"];
     programmeNodes :=
       [programmeElement "1" "20240101180000 +0000" "20240101190000 +0000" "Morning";
        programmeElement "2" "20240101200000 +0000" "20240101210000 +0000" "Evening"] |}.

Definition morning : programme := record "Morning" 1704132000000 1704135600000.
Definition evening : programme := record "Evening" 1704139200000 1704142800000.

(** An element whose channel attribute is the empty string, and a
    channel of the playlist whose identifier is the empty string. *)
Definition emptyIdFeed : document :=
  {| channelNodes := [];
     programmeNodes :=
       [programmeElement "" "20240101180000 +0000" "20240101190000 +0000" "Morning"] |}.

Definition channelEmptyId : channel := {| name := "Five"; tvgId := Some "" |}.

End Samples.

(* ===================================================================== *)
(** ** The playlist parser of backend/parseM3U.js *)
(* ===================================================================== *)

Module M3U.

Import JsString JsObject.

(** [text.split(/\r?\n/)]: a cut at every line feed, a carriage return
    just before it going with it. The result is never empty. *)
Fixpoint splitLines (s : string) : list string :=
  match s with
  | EmptyString => [EmptyString]
  | String c s' =>
      if (c =? "010")%char then EmptyString :: splitLines s'
      else
        match (c =? "013")%char, s' with
        | true, String "010"%char s'' => EmptyString :: splitLines s''
        | _, _ =>
            match splitLines s' with
            | l :: ls => String c l :: ls
            | [] => [String c EmptyString]
            end
        end
  end.

(** [s.trim()]. *)
Fixpoint trimEnd (s : string) : string :=
  match s with
  | EmptyString => EmptyString
  | String c s' =>
      match trimEnd s' with
      | EmptyString => if isWhiteSpace c then EmptyString else String c EmptyString
      | t => String c t
      end
  end.

Definition trim (s : string) : string := trimEnd (trimStart s).

(** [s.indexOf(c)]; [None] is -1. *)
Fixpoint indexOfChar (c : ascii) (s : string) : option nat :=
  match s with
  | EmptyString => None
  | String c' s' =>
      if (c' =? c)%char then Some O
      else option_map S (indexOfChar c s')
  end.

(** [s.substring(n)]. *)
Fixpoint drop (n : nat) (s : string) : string :=
  match n, s with
  | O, _ => s
  | S n', String _ s' => drop n' s'
  | S _, EmptyString => EmptyString
  end.

(** The class [[a-zA-Z0-9\-]]. *)
Definition isKeyChar (c : ascii) : bool :=
  let n := nat_of_ascii c in
  ((97 <=? n)%nat && (n <=? 122)%nat) || ((65 <=? n)%nat && (n <=? 90)%nat) ||
  ((48 <=? n)%nat && (n <=? 57)%nat) || (n =? 45)%nat.

(** The longest run of key characters at the head of [s], and the rest. *)
Fixpoint takeKey (s : string) : string * string :=
  match s with
  | String c s' =>
      if isKeyChar c
      then let '(k, r) := takeKey s' in (String c k, r)
      else (EmptyString, s)
  | EmptyString => (EmptyString, EmptyString)
  end.

(** The characters up to the first double quote (character 34), and
    what follows that quote; [None] when there is no quote. *)
Fixpoint takeValue (s : string) : option (string * string) :=
  match s with
  | EmptyString => None
  | String c s' =>
      if (c =? "034")%char then Some (EmptyString, s')
      else
        match takeValue s' with
        | Some (v, r) => Some (String c v, r)
        | None => None
        end
  end.

(** One attempt of the attribute expression, a run of key characters,
    an equals sign and a quoted value without quotes inside, at the head
    of [s]: the two captures and the length of the match. *)
Definition matchAttrAt (s : string) : option (string * string * nat) :=
  let '(k, r) := takeKey s in
  match k, r with
  | String _ _, String "="%char (String "034"%char r') =>
      match takeValue r' with
      | Some (v, _) =>
          Some (k, v, (String.length k + 2 + String.length v + 1)%nat)
      | None => None
      end
  | _, _ => None
  end.

(** The successive matches of the global expression, as the loop over
    [attrRegex.exec(meta)] meets them; [skip] counts the characters of
    the last match still to be passed. *)
Fixpoint scanAttrs (s : string) (skip : nat) : list (string * string) :=
  match s with
  | EmptyString => []
  | String _ s' =>
      match skip with
      | S n => scanAttrs s' n
      | O =>
          match matchAttrAt s with
          | Some (k, v, len) => (k, v) :: scanAttrs s' (len - 1)
          | None => scanAttrs s' O
          end
      end
  end.

(** The object [attrs]: a later match of a key replaces an earlier one.
    A key has no underscore, so none is [__proto__]. *)
Definition attrsOf (meta : string) : list (string * string) :=
  fold_left (fun attrs kv => assocSet (fst kv) (snd kv) attrs)
            (scanAttrs meta O) [].

(** [attrs[k] || null]. *)
Definition attrOrNull (attrs : list (string * string)) (k : string)
    : option string :=
  match assoc k attrs with
  | Some v => if truthy v then Some v else None
  | None => None
  end.

(** The name after the first comma of the line, or [null]. *)
Definition commaName (meta : string) : option string :=
  match indexOfChar ","%char meta with
  | Some commaIndex =>
      if (commaIndex <? String.length meta - 1)%nat
      then Some (trim (drop (commaIndex + 1) meta))
      else None
  | None => None
  end.

Record channel : Type := mkChannel
  { name : string;
    group : option string;
    logo : option string;
    url : string }.

(** The channel made of an [#EXTINF] line and the line after it. *)
Definition channelOf (meta : string) (rest : list string) : channel :=
  let urlLine :=
    match rest with
    | next :: _ => if truthy next then trim next else ""
    | [] => ""
    end in
  let attrs := attrsOf meta in
  {| name :=
       match attrOrNull attrs "tvg-name" with
       | Some n => n
       | None =>
           match commaName meta with
           | Some n => if truthy n then n else "Unknown Channel"
           | None => "Unknown Channel"
           end
       end;
     group := attrOrNull attrs "group-title";
     logo := attrOrNull attrs "tvg-logo";
     url := urlLine |}.

Definition isExtinf (line : string) : bool := String.prefix "#EXTINF" line.

(** The loop over the lines. *)
Fixpoint channelsOf (lines : list string) : list channel :=
  match lines with
  | [] => []
  | l :: rest =>
      let line := trim l in
      if isExtinf line
      then channelOf line rest :: channelsOf rest
      else channelsOf rest
  end.

Definition parseM3U (m3uText : string) : list channel :=
  if negb (truthy m3uText) then []
  else channelsOf (splitLines m3uText).

(** *** Writing a playlist *)

Definition LF : ascii := "010"%char.
Definition CR : ascii := "013"%char.
Definition QUOTE : ascii := "034"%char.

(** An attribute [ key="value"], with a space before it. *)
Definition attrText (key value : string) : string :=
  (String " " key ++ String "=" (String QUOTE value) ++ String QUOTE "")%string.

Definition optAttrText (key : string) (value : option string) : string :=
  match value with
  | Some v => attrText key v
  | None => ""
  end.

(** The [#EXTINF] line of a channel: its name as [tvg-name] and after
    the comma, its group and logo where it has them. *)
Definition extinfLine (c : channel) : string :=
  ("#EXTINF:-1" ++ attrText "tvg-name" (name c) ++
   optAttrText "group-title" (group c) ++ optAttrText "tvg-logo" (logo c) ++
   String "," (name c))%string.

(** The playlist of a list of channels: the header, then for each
    channel its [#EXTINF] line and its address, a line each. *)
Fixpoint playlistBody (cs : list channel) : string :=
  match cs with
  | [] => ""
  | c :: cs' =>
      (String LF (extinfLine c) ++ String LF (url c) ++ playlistBody cs')%string
  end.

Definition playlist (cs : list channel) : string :=
  ("#EXTM3U" ++ playlistBody cs)%string.

(** The character [c] does not occur in [s]. *)
Fixpoint lacks (c : ascii) (s : string) : Prop :=
  match s with
  | EmptyString => True
  | String c' s' => c' <> c /\ lacks c s'
  end.

(** The lines of a playlist after its header. *)
Definition linesOf (cs : list channel) : list string :=
  flat_map (fun c => [extinfLine c; url c]) cs.

(** A text that can stand between quotes on one line. *)
Fixpoint quotable (s : string) : Prop :=
  match s with
  | EmptyString => True
  | String c s' => c <> LF /\ c <> CR /\ c <> QUOTE /\ quotable s'
  end.

(** A channel that a playlist can carry. *)
Definition writable (c : channel) : Prop :=
  name c <> ""%string /\ quotable (name c) /\
  match group c with Some g => g <> ""%string /\ quotable g | None => True end /\
  match logo c with Some l => l <> ""%string /\ quotable l | None => True end /\
  quotable (url c) /\ trim (url c) = url c /\ isExtinf (url c) = false.

End M3U.

(* ===================================================================== *)
(** ** Dates in the local time of the host *)
(* ===================================================================== *)

Module LocalDate.

Import JsString JsDate.

(** [n.toString()] for an integer, and [s.padStart(2, '0')]. *)
Definition toString (n : Z) : string :=
  DecimalString.NilZero.string_of_int (Z.to_int n).

Definition padStart2 (s : string) : string :=
  match s with
  | EmptyString => "00"
  | String c EmptyString => String "0" (String c EmptyString)
  | _ => s
  end.

Definition halfHourMinutes : Z := 30.

(** The label [formatTimeLabel] makes of the local hour and minute. *)
Definition timeLabel (h m : Z) : string :=
  let ampm := if h >=? 12 then "p" else "a" in
  let h := Z.rem h 12 in
  let h := if h =? 0 then 12 else h in
  (toString h ++ ":" ++ padStart2 (toString m) ++ ampm)%string.

Section Zone.

(** [LocalTZA(t, isUTC)]: the offset of local time from UTC, in
    milliseconds, at the UTC time value [t] ([isUTC]) or at the local
    time value [t]. *)
Variable LocalTZA : Z -> bool -> Z.

Definition LocalTime (t : Z) : Z := t + LocalTZA t true.
Definition UTCofLocal (t : Z) : Z := t - LocalTZA t false.

Definition msFromTime (t : Z) : Z := t mod msPerSecond.

Definition getHours (t : Z) : Z := HourFromTime (LocalTime t).
Definition getMinutes (t : Z) : Z := MinFromTime (LocalTime t).
Definition getSeconds (t : Z) : Z := SecFromTime (LocalTime t).

(** [d.setSeconds(sec, ms)] and [d.setMinutes(min)] on a valid date: the
    new time value. *)
Definition setSeconds (sec ms : Z) (tv : Z) : option Z :=
  let t := LocalTime tv in
  TimeClip (UTCofLocal
              (MakeDate (Day t)
                        (MakeTime (HourFromTime t) (MinFromTime t) sec ms))).

Definition setMinutes (min : Z) (tv : Z) : option Z :=
  let t := LocalTime tv in
  TimeClip (UTCofLocal
              (MakeDate (Day t)
                        (MakeTime (HourFromTime t) min (SecFromTime t)
                                  (msFromTime t)))).

(** [alignTimeToHalfHour(date)]; [None] is an invalid date. *)
Definition alignTimeToHalfHour (date : option Z) : option Z :=
  match date with
  | None => None
  | Some tv =>
      match setSeconds 0 0 tv with
      | None => None
      | Some d =>
          let mins := getMinutes d in
          let half := mins / halfHourMinutes * halfHourMinutes in
          setMinutes half d
      end
  end.

(** [formatTimeLabel(date)] on a valid date. *)
Definition formatTimeLabel (t : Z) : string :=
  timeLabel (getHours t) (getMinutes t).

End Zone.

(** A host whose zone keeps one offset. *)
Definition fixedZone (offset : Z) : Z -> bool -> Z := fun _ _ => offset.

(** *** Reading a label back *)

(** The hour and minute a label of the form [H:MMa] or [H:MMp] stands
    for. *)
Definition readTimeLabel (label : string) : option (Z * Z) :=
  match M3U.indexOfChar ":"%char label with
  | Some colon =>
      match parseInt label, parseInt (M3U.drop (colon + 1) label) with
      | Some h12, Some m =>
          let h := Z.rem h12 12 in
          match M3U.drop (colon + 3) label with
          | String "a"%char EmptyString => Some (h, m)
          | String "p"%char EmptyString => Some (h + 12, m)
          | _ => None
          end
      | _, _ => None
      end
  | None => None
  end.

(** The minutes of a day, as hour and minute. *)
Definition minutesOfDay : list (Z * Z) :=
  flat_map (fun h => map (fun m => (Z.of_nat h, Z.of_nat m)) (seq 0 60))
           (seq 0 24).

End LocalDate.

(* ===================================================================== *)
(** ** The guide on screen: window, grid, now playing, channel surfing *)
(* ===================================================================== *)

Module Guide.

Import JsString JsDate JsObject Epg LocalDate.

Definition windowHours : Z := 2.
Definition numCols : Z := windowHours * 60 / halfHourMinutes.

(** [timeWindowStart] after the first lines of [renderGuide]: untouched
    while the channel list is empty and once a date is there, else the
    aligned clock. [None] is [null], [Some None] an invalid date. *)
Definition renderGuide_start (LocalTZA : Z -> bool -> Z) {A : Type}
    (channels : list A) (now : Z) (timeWindowStart : option (option Z))
    : option (option Z) :=
  match channels with
  | [] => timeWindowStart
  | _ :: _ =>
      match timeWindowStart with
      | None => Some (alignTimeToHalfHour LocalTZA (Some now))
      | Some d => Some d
      end
  end.

(** The clock of a running host: far inside the range of time values. *)
Definition clockValue (now : Z) : Prop := Z.abs now <= 8000000000000000.

(** The window starts a session can reach: the one the first rendering
    with channels sets, and those the navigation handlers leave. *)
Inductive reachableStart (LocalTZA : Z -> bool -> Z) : Z -> Prop :=
| reach_render (A : Type) (channels : list A) (now a : Z) :
    clockValue now ->
    renderGuide_start LocalTZA channels now None = Some (Some a) ->
    reachableStart LocalTZA a
| reach_click (action : TimeWindow.action) (renderGuide : result unit)
    (now a a' : Z) :
    reachableStart LocalTZA a ->
    fst (TimeWindow.click action renderGuide now (Some a)) = Some a' ->
    reachableStart LocalTZA a'.

(** The slot of column [i] in [renderGrid], which is also the time of
    cell [i] of [renderTimeline]. *)
Definition slotStart (timeWindowStart i : Z) : Z :=
  timeWindowStart + i * halfHourMinutes * 60000.

Definition slotEnd (timeWindowStart i : Z) : Z :=
  slotStart timeWindowStart i + halfHourMinutes * 60000.

(** [endSlot] of [updateInfoDisplay]. *)
Definition endSlot (timeWindowStart : Z) : Z :=
  timeWindowStart + windowHours * 60 * 60000.

Section Lookups.

(** [String.prototype.toLowerCase] of the host, as for [loadEpg]. *)
Variable toLowerCase : string -> string.

(** The cell of column [i] of the row of a channel. *)
Definition cell (st : EpgState) (ch : channel) (timeWindowStart i : Z)
    : result (option programme) :=
  findProgrammeForSlot toLowerCase st ch (slotStart timeWindowStart i)
                       (slotEnd timeWindowStart i).

(** The lookup of [buildMiniChannels], [updatePlayerInfo] and the
    progress updater: the slot of one millisecond at [now]. *)
Definition nowPlaying (st : EpgState) (ch : channel) (now : Z)
    : result (option programme) :=
  findProgrammeForSlot toLowerCase st ch now (now + 1).

(** *** What a rendering can raise

    The calls of [findProgrammeForSlot] that [renderGuide],
    [buildMiniChannels] and [updatePlayerInfo] make, in their order;
    the rest of these functions writes to the page. *)

Fixpoint forEach {A : Type} (f : A -> result unit) (l : list A)
    : result unit :=
  match l with
  | [] => Ok tt
  | x :: l' => _ <- f x ;; forEach f l'
  end.

(** [for (let i = 0; i < numCols; i++)]. *)
Definition columns : list Z := map Z.of_nat (seq 0 (Z.to_nat numCols)).

Definition renderGrid (st : EpgState) (channels : list channel)
    (timeWindowStart : Z) : result unit :=
  forEach (fun ch =>
             forEach (fun i => _ <- cell st ch timeWindowStart i ;; Ok tt)
                     columns)
          channels.

(** [renderGuide()], with the window start it uses. *)
Definition renderGuide (st : EpgState) (channels : list channel)
    (timeWindowStart : Z) : result unit :=
  match channels with
  | [] => Ok tt
  | _ :: _ => renderGrid st channels timeWindowStart
  end.

Definition buildMiniChannels (st : EpgState) (channels : list channel)
    (now : Z) : result unit :=
  forEach (fun ch => _ <- nowPlaying st ch now ;; Ok tt) channels.

(** [if (currentChannelIndex !== null) updatePlayerInfo()]; reading a
    property of [channels[currentChannelIndex]] raises when there is no
    such channel. *)
Definition updatePlayerInfo (st : EpgState) (channels : list channel)
    (currentChannelIndex : option nat) (now : Z) : result unit :=
  match currentChannelIndex with
  | None => Ok tt
  | Some i =>
      match nth_error channels i with
      | Some ch => _ <- nowPlaying st ch now ;; Ok tt
      | None => Throw TypeError
      end
  end.

(** The three calls that follow the installation of the maps in
    [loadEpg]. *)
Definition rendering (channels : list channel)
    (currentChannelIndex : option nat) (now timeWindowStart : Z)
    (st : EpgState) : result unit :=
  _ <- renderGuide st channels timeWindowStart ;;
  _ <- buildMiniChannels st channels now ;;
  updatePlayerInfo st channels currentChannelIndex now.

End Lookups.

(** The dividend and the divisor of the progress updater, in
    milliseconds: [now - prog.start] and [prog.end - prog.start]. *)
Definition elapsedMs (prog : programme) (now : Z) : Z := now - start prog.
Definition totalMs (prog : programme) : Z := end_ prog - start prog.

(** [(currentChannelIndex + 1) % channels.length] and
    [(currentChannelIndex - 1 + channels.length) % channels.length];
    [None] is [NaN], the remainder by zero. *)
Definition nextIndex (currentChannelIndex length : Z) : option Z :=
  if length =? 0 then None
  else Some (Z.rem (currentChannelIndex + 1) length).

Definition prevIndex (currentChannelIndex length : Z) : option Z :=
  if length =? 0 then None
  else Some (Z.rem (currentChannelIndex - 1 + length) length).

End Guide.

(* ===================================================================== *)
(** ** The chat room of a channel *)
(* ===================================================================== *)

Module Chat.

Import JsString Epg.

(** The replacement of [/[^a-z0-9]/g] by a hyphen. *)
Definition isRoomChar (c : ascii) : bool :=
  let n := nat_of_ascii c in
  ((97 <=? n)%nat && (n <=? 122)%nat) || ((48 <=? n)%nat && (n <=? 57)%nat).

Fixpoint sanitize (s : string) : string :=
  match s with
  | EmptyString => EmptyString
  | String c s' => String (if isRoomChar c then c else "-"%char) (sanitize s')
  end.

(** [channel.tvgId || channel.name.toLowerCase().replace(...)]. *)
Definition roomName (ch : channel) : string :=
  match tvgId ch with
  | Some id => if truthy id then id else sanitize (toLowerCase (name ch))
  | None => sanitize (toLowerCase (name ch))
  end.

(** [joinChannelRoom]: from whether the socket is connected, the channel
    at the index if any, the current user if any and [currentChatRoom],
    the new [currentChatRoom] and the [join-room] message sent, if one
    is. *)
Definition joinChannelRoom (connected : bool) (channel : option channel)
    (user : option string) (currentChatRoom : option string)
    : option string * option (string * string) :=
  if negb connected then (currentChatRoom, None)
  else
    match channel with
    | None => (currentChatRoom, None)
    | Some ch =>
        let room := roomName ch in
        let same :=
          match currentChatRoom with
          | Some r => (r =? room)%string
          | None => false
          end in
        if same then (currentChatRoom, None)
        else
          match user with
          | None => (currentChatRoom, None)
          | Some username => (Some room, Some (room, username))
          end
    end.

End Chat.

(* ===================================================================== *)
(** ** More feeds *)
(* ===================================================================== *)

Module Listings.

Import JsString JsObject Epg Spec Samples.

(** The programmes of a list that start at [t]. *)
Definition startsAt (t : Z) (p : programme) : bool := start p =? t.

(** The two indices of a feed; empty when the parser raises. *)
Definition indicesOf (localOffset : Z) (doc : document)
    : obj programme * obj programme :=
  match parseEpgXml localOffset doc with
  | Ok parsed => parsed
  | Throw _ => (emptyObj, emptyObj)
  end.

(** Two programmes of channel 5 that start together, listed after a
    later one. *)
Definition twinFeed : document :=
  {| channelNodes := [channelElement "5" "News channel"];
     programmeNodes :=
       [programmeElement "5" "20240101200000 +0000" "20240101210000 +0000" "Late";
        programmeElement "5" "20240101180000 +0000" "20240101190000 +0000" "First";
        programmeElement "5" "20240101180000 +0000" "20240101183000 +0000" "Second"] |}.

(** Channel 5 defined twice. *)
Definition renamedFeed : document :=
  {| channelNodes := [channelElement "5" "Old name"; channelElement "6" "Six";
                      channelElement "5" "News channel"];
     programmeNodes :=
       [programmeElement "5" "20240101180000 +0000" "20240101190000 +0000" "News"] |}.

(** Two channel definitions with one display name, and a programme of
    each. *)
Definition sharedNameFeed : document :=
  {| channelNodes := [channelElement "1" "News"; channelElement "2" "News"];
     programmeNodes :=
       [programmeElement "1" "20240101180000 +0000" "20240101190000 +0000" "Morning";
        programmeElement "2" "20240101200000 +0000" "20240101210000 +0000" "Evening"] |}.

(** Channels of a playlist: one known by its name in other letter case,
    one that no feed knows, one named as a built-in. *)
Definition newsChannel : channel := {| name := "News Channel"; tvgId := None |}.
Definition otherChannel : channel := {| name := "Other"; tvgId := None |}.
Definition builtinChannel : channel := {| name := "constructor"; tvgId := None |}.

(** The state [loadEpg] leaves of a feed on a host at UTC whose texts
    are of ASCII characters, with the channels of the playlist on the
    page and no channel playing, at noon of 1 January 2024. *)
Definition loaded (doc : document) (channels : list channel) : EpgState :=
  loadEpg 0 toLowerCase
          (Guide.rendering toLowerCase channels None
                           1704110400000 1704110400000)
          (Some doc).

(** A programme of a channel that has no definition. *)
Definition orphanFeed : document :=
  {| channelNodes := [channelElement "6" "Six"];
     programmeNodes :=
       [programmeElement "5" "20240101180000 +0000" "20240101190000 +0000" "News"] |}.

End Listings.

(* ===================================================================== *)
(** ** Sample playlists *)
(* ===================================================================== *)

Module Playlists.

Import M3U.

Definition quoted (v : string) : string :=
  String QUOTE (v ++ String QUOTE "")%string.

(** A playlist with CR LF line ends: a channel with a group and a name
    after the comma, its address indented, and an entry without name or
    address. *)
Definition sampleText : string :=
  String.concat (String CR (String LF ""))
    [ "#EXTM3U";
      ("#EXTINF:-1 tvg-id=" ++ quoted "5" ++ " group-title=" ++ quoted "News"
       ++ ",Channel Five ")%string;
      "  http://host/five.m3u8";
      "#EXTINF:-1,";
      "" ].

Definition five : channel :=
  {| name := "Channel Five"; group := Some "News"; logo := None;
     url := "http://host/five.m3u8" |}.

Definition unknown : channel :=
  {| name := "Unknown Channel"; group := None; logo := None; url := "" |}.

End Playlists.

(* ===================================================================== *)
(** ** Season and episode numbers *)
(* ===================================================================== *)

Module Episode.

Import JsString M3U.

(** The longest run of digits at the head of [s], and the rest. *)
Fixpoint takeDigits (s : string) : string * string :=
  match s with
  | String c s' =>
      if isDigit c
      then let '(d, r) := takeDigits s' in (String c d, r)
      else (EmptyString, s)
  | EmptyString => (EmptyString, EmptyString)
  end.

(** The group [(\d+)] at the head of [s], taken as long as it can be. *)
Definition digitsAt (s : string) : option string :=
  match takeDigits s with
  | (EmptyString, _) => None
  | (d, _) => Some d
  end.

(** The class [[ .:-]]. *)
Definition isSeparator (c : ascii) : bool :=
  (c =? " ")%char || (c =? ".")%char || (c =? ":")%char || (c =? "-")%char.

(** [[Ee]?(\d+)] at the head of [s]: the letter is taken when it is
    there, and given back when no digit follows it. *)
Definition letterAndDigits (s : string) : option string :=
  match s with
  | String c s' =>
      if (c =? "E")%char || (c =? "e")%char
      then match digitsAt s' with
           | Some d => Some d
           | None => digitsAt s
           end
      else digitsAt s
  | EmptyString => None
  end.

(** [[ .:-]?[Ee]?(\d+)] at the head of [s], the separator treated
    likewise. *)
Definition matchTail (s : string) : option string :=
  match s with
  | String c s' =>
      if isSeparator c
      then match letterAndDigits s' with
           | Some d => Some d
           | None => letterAndDigits s
           end
      else letterAndDigits s
  | EmptyString => None
  end.

(** The first group gives back digits one at a time until the rest of
    the expression matches: [m] is the number of digits it keeps of the
    run [run], which is followed by [after]. *)
Fixpoint shorten (m : nat) (run after : string) : option (string * string) :=
  match m with
  | O => None
  | S m' =>
      match matchTail (drop m run ++ after) with
      | Some second => Some (String.substring 0 m run, second)
      | None => shorten m' run after
      end
  end.

(** [(\d+)[ .:-]?[Ee]?(\d+)] at the head of [s]. *)
Definition matchNumbers (s : string) : option (string * string) :=
  let '(run, after) := takeDigits s in
  shorten (String.length run) run after.

(** One attempt of [/S?(\d+)[ .:-]?[Ee]?(\d+)/] at the head of [s]; an
    [S] that is there and is not taken leaves the first group nothing to
    match. *)
Definition matchEpisodeAt (s : string) : option (string * string) :=
  match s with
  | String c s' => if (c =? "S")%char then matchNumbers s' else matchNumbers s
  | EmptyString => None
  end.

(** [epText.match(/S?(\d+)[ .:-]?[Ee]?(\d+)/)]: the two groups of the
    leftmost match. *)
Fixpoint matchEpisode (s : string) : option (string * string) :=
  match matchEpisodeAt s with
  | Some m => Some m
  | None =>
      match s with
      | String _ s' => matchEpisode s'
      | EmptyString => None
      end
  end.

(** [epText.split(/[^0-9]+/).filter(Boolean)]: the runs of digits of the
    text; [run] is the run being read. *)
Fixpoint digitRuns (run s : string) : list string :=
  match s with
  | String c s' =>
      if isDigit c then digitRuns (run ++ String c "") s'
      else (if truthy run then [run] else []) ++ digitRuns "" s'
  | EmptyString => if truthy run then [run] else []
  end.

(** [parseInt(s, 10)]; [None] is [NaN]. *)
Definition parseInt10 (s : string) : option Z :=
  let s1 := trimStart s in
  let '(sign, s2) :=
    match s1 with
    | String "-"%char r => (-1, r)
    | String "+"%char r => (1, r)
    | _ => (1, s1)
    end in
  option_map (Z.mul sign) (readDigits digitValue 10 s2 None).

(** [season] and [episodeNumber] from the trimmed text of the first
    [episode-num] of a programme; [None] is the pair of [null]s. *)
Definition episodeOf (epText : string) : option (option Z * option Z) :=
  match matchEpisode epText with
  | Some (first, second) => Some (parseInt10 first, parseInt10 second)
  | None =>
      match digitRuns "" epText with
      | first :: second :: _ => Some (parseInt10 first, parseInt10 second)
      | _ => None
      end
  end.

(** A text of digits, short enough to denote its number exactly. *)
Definition isNumeral (s : string) : Prop :=
  s <> ""%string /\
  forallb isDigit (list_ascii_of_string s) = true /\
  (String.length s <= 15)%nat.

(** A text without digits. *)
Definition noDigits (s : string) : Prop :=
  forallb (fun c => negb (isDigit c)) (list_ascii_of_string s) = true.

(** A text that does not begin with a digit. *)
Definition noDigitFirst (s : string) : Prop :=
  match s with
  | String c _ => isDigit c = false
  | EmptyString => True
  end.

End Episode.

(* ===================================================================== *)
(** ** Chat input: messages and commands *)
(* ===================================================================== *)

Module Commands.

Import JsString M3U.

(** [s.split(/\s+/)]: a cut at every run of white space; [gap] tells
    that the last character read was white space, [cur] is the part
    being read. The result is never empty. *)
Fixpoint splitSpaces (gap : bool) (cur s : string) : list string :=
  match s with
  | EmptyString => [cur]
  | String c s' =>
      if isWhiteSpace c
      then (if gap then splitSpaces true cur s'
            else cur :: splitSpaces true "" s')
      else splitSpaces false (cur ++ String c "") s'
  end.

(** The user object: [role] and [color] may be missing. *)
Record user : Type := mkUser
  { username : string;
    role : option string;
    color : option string }.

(** What a call does besides logging: it empties the message list or
    sends one event. *)
Inductive effect : Type :=
| ClearMessages
| MuteUser (room target : string) (duration : Z) (moderator : string)
| UnmuteUser (room target moderator : string)
| ChatMessage (room username : string) (role color : option string)
              (text : string).

(** [user.role === 'admin' || user.role === 'moderator']. *)
Definition privileged (u : user) : bool :=
  match role u with
  | Some r => (r =? "admin")%string || (r =? "moderator")%string
  | None => false
  end.

(** [socket && currentChatRoom]: the room when both are there. *)
Definition readyRoom (socket : bool) (currentChatRoom : option string)
    : option string :=
  if socket then
    match currentChatRoom with
    | Some r => if truthy r then Some r else None
    | None => None
    end
  else None.

(** [parseInt(parts[2]) || 5]. *)
Definition durationOf (part : option string) : Z :=
  match part with
  | Some p =>
      match parseInt p with
      | Some n => if n =? 0 then 5 else n
      | None => 5
      end
  | None => 5
  end.

(** [parts[i]] when it is there and not empty. *)
Definition part (parts : list string) (i : nat) : option string :=
  match nth_error parts i with
  | Some p => if truthy p then Some p else None
  | None => None
  end.

Definition handleChatCommand (cmd : string) (u : user) (socket : bool)
    (currentChatRoom : option string) : option effect :=
  let parts := splitSpaces false "" cmd in
  let base := toLowerCase (hd "" parts) in
  if (base =? "/clear")%string then
    if privileged u then Some ClearMessages else None
  else
    match (base =? "/mute")%string, part parts 1 with
    | true, Some target =>
        if privileged u then
          let duration := durationOf (nth_error parts 2) in
          match readyRoom socket currentChatRoom with
          | Some room => Some (MuteUser room target duration (username u))
          | None => None
          end
        else None
    | _, _ =>
        match (base =? "/unmute")%string, part parts 1 with
        | true, Some target =>
            if privileged u then
              match readyRoom socket currentChatRoom with
              | Some room => Some (UnmuteUser room target (username u))
              | None => None
              end
            else None
        | _, _ => None
        end
    end.

(** [handleChatSend], from the value of the input field and the
    current user. *)
Definition handleChatSend (value : string) (current : option user)
    (socket : bool) (currentChatRoom : option string) : option effect :=
  let text := trim value in
  if negb (truthy text) then None
  else
    match current with
    | None => None
    | Some u =>
        if String.prefix "/" text
        then handleChatCommand text u socket currentChatRoom
        else
          match readyRoom socket currentChatRoom with
          | Some room =>
              Some (ChatMessage room (username u) (role u) (color u) text)
          | None => None
          end
    end.

End Commands.

(* ===================================================================== *)
(** ** Facts about the calendar *)
(* ===================================================================== *)

Module JsDateFacts.

Import JsDate.

Lemma DaysInYear_range y : 365 <= DaysInYear y <= 366.
Proof. unfold DaysInYear. destruct (isLeap y); lia. Qed.

Lemma DayFromYear_succ y : DayFromYear (y + 1) = DayFromYear y + DaysInYear y.
Proof.
  unfold DayFromYear, DaysInYear, isLeap.
  destruct (y mod 4 =? 0) eqn:E4; destruct (y mod 100 =? 0) eqn:E100;
    destruct (y mod 400 =? 0) eqn:E400; cbn [andb orb negb];
    rewrite ?Z.eqb_eq, ?Z.eqb_neq in *;
    Z.div_mod_to_equations; lia.
Qed.

(** The year found for a day is the one whose span holds the day. *)
Lemma YearFromDay_spec y d :
  DayFromYear y <= d < DayFromYear (y + 1) -> YearFromDay d = y.
Proof.
  intros H. unfold YearFromDay. cbv zeta.
  assert (Hy : y - 1 <= 1970 + 400 * d / 146097 <= y + 1).
  { unfold DayFromYear in H. Z.div_mod_to_equations. lia. }
  pose proof (DayFromYear_succ (y - 1)) as P1.
  pose proof (DayFromYear_succ y) as P2.
  pose proof (DayFromYear_succ (y + 1)) as P3.
  replace (y - 1 + 1) with y in P1 by lia.
  pose proof (DaysInYear_range (y - 1)) as D1.
  pose proof (DaysInYear_range y) as D2.
  pose proof (DaysInYear_range (y + 1)) as D3.
  assert (E : 1970 + 400 * d / 146097 = y - 1 \/
              1970 + 400 * d / 146097 = y \/
              1970 + 400 * d / 146097 = y + 1) by lia.
  destruct E as [E | [E | E]]; rewrite E.
  - replace (y - 1 + 1) with y by lia.
    destruct (d <? DayFromYear (y - 1)) eqn:A; [apply Z.ltb_lt in A; lia |].
    destruct (DayFromYear y <=? d) eqn:B; [lia |].
    apply Z.leb_gt in B. lia.
  - destruct (d <? DayFromYear y) eqn:A; [apply Z.ltb_lt in A; lia |].
    destruct (DayFromYear (y + 1) <=? d) eqn:B; [apply Z.leb_le in B; lia |].
    reflexivity.
  - destruct (d <? DayFromYear (y + 1)) eqn:A; [lia |].
    apply Z.ltb_ge in A. lia.
Qed.

Lemma monthStart_12 leap : monthStart leap 12 = if leap then 366 else 365.
Proof. destruct leap; reflexivity. Qed.

(** Months 0..11, one case each. *)
Lemma month_cases m :
  0 <= m <= 11 ->
  m = 0 \/ m = 1 \/ m = 2 \/ m = 3 \/ m = 4 \/ m = 5 \/
  m = 6 \/ m = 7 \/ m = 8 \/ m = 9 \/ m = 10 \/ m = 11.
Proof. lia. Qed.

(** Replace [monthStart] at a known month by its value. *)
Ltac eval_monthStart :=
  repeat match goal with
         | |- context [monthStart ?l ?m] =>
             let v := eval vm_compute in (monthStart l m) in
             change (monthStart l m) with v
         | H : context [monthStart ?l ?m] |- _ =>
             let v := eval vm_compute in (monthStart l m) in
             change (monthStart l m) with v in H
         end.

Lemma monthStart_bounds leap m d :
  0 <= m <= 11 ->
  1 <= d <= monthStart leap (m + 1) - monthStart leap m ->
  0 <= monthStart leap m + d - 1 < monthStart leap 12.
Proof.
  intros Hm Hd. apply month_cases in Hm.
  destruct leap;
    repeat (destruct Hm as [-> | Hm]); try subst m;
    eval_monthStart; lia.
Qed.

Lemma MonthFromDayInYear_spec leap m d :
  0 <= m <= 11 ->
  1 <= d <= monthStart leap (m + 1) - monthStart leap m ->
  MonthFromDayInYear leap (monthStart leap m + d - 1) = m.
Proof.
  intros Hm Hd. apply month_cases in Hm. unfold MonthFromDayInYear.
  destruct leap;
    repeat (destruct Hm as [-> | Hm]); try subst m;
    eval_monthStart;
    repeat match goal with
           | |- context [?a <? ?b] =>
               let E := fresh in
               destruct (a <? b) eqn:E;
               [apply Z.ltb_lt in E | apply Z.ltb_ge in E]; try lia
           end; reflexivity.
Qed.

Lemma MakeDay_in_year y m d :
  0 <= m <= 11 ->
  MakeDay y m d = DayFromYear y + monthStart (isLeap y) m + d - 1.
Proof.
  intros Hm. unfold MakeDay. cbv zeta.
  rewrite (Z.div_small m 12), (Z.mod_small m 12) by lia.
  replace (y + 0) with y by lia. reflexivity.
Qed.

Lemma MakeTime_range h mi s :
  0 <= h <= 23 -> 0 <= mi <= 59 -> 0 <= s <= 59 ->
  0 <= MakeTime h mi s 0 < msPerDay.
Proof. unfold MakeTime, msPerHour, msPerMinute, msPerSecond, msPerDay. lia. Qed.

Lemma Day_MakeDate day time :
  0 <= time < msPerDay -> Day (MakeDate day time) = day.
Proof.
  intros H. unfold Day, MakeDate, msPerDay in *.
  Z.div_mod_to_equations. lia.
Qed.

(** A valid date and time of day is read back from its time value. *)
Lemma fieldsOfTime_MakeDate f :
  validFields f ->
  fieldsOfTime
    (MakeDate (MakeDay (f_year f) (f_month f - 1) (f_day f))
              (MakeTime (f_hour f) (f_minute f) (f_second f) 0)) = f.
Proof.
  destruct f as [y mo d h mi s].
  unfold validFields. cbn [f_year f_month f_day f_hour f_minute f_second].
  intros (Hmo & Hd & Hh & Hmi & Hs).
  pose proof (MakeTime_range h mi s Hh Hmi Hs) as Ht.
  set (t := MakeDate _ _).
  assert (Hm : 0 <= mo - 1 <= 11) by lia.
  unfold DaysInMonth in Hd.
  assert (EDay : Day t = DayFromYear y + monthStart (isLeap y) (mo - 1) + d - 1).
  { unfold t. rewrite Day_MakeDate by exact Ht. apply MakeDay_in_year, Hm. }
  pose proof (monthStart_bounds (isLeap y) (mo - 1) d Hm Hd) as Hk.
  assert (EY : YearFromTime t = y).
  { unfold YearFromTime. apply YearFromDay_spec.
    rewrite EDay, DayFromYear_succ. unfold DaysInYear.
    rewrite monthStart_12 in Hk. destruct (isLeap y); lia. }
  assert (EK : DayWithinYear t = monthStart (isLeap y) (mo - 1) + d - 1).
  { unfold DayWithinYear. rewrite EY, EDay. lia. }
  assert (EM : MonthFromTime t = mo - 1).
  { unfold MonthFromTime. rewrite EY, EK.
    apply MonthFromDayInYear_spec; assumption. }
  unfold fieldsOfTime. f_equal.
  - exact EY.
  - rewrite EM. lia.
  - unfold DateFromTime. rewrite EY, EM, EK. lia.
  - unfold HourFromTime, t, MakeDate, MakeTime, msPerDay, msPerHour,
      msPerMinute, msPerSecond. Z.div_mod_to_equations. lia.
  - unfold MinFromTime, t, MakeDate, MakeTime, msPerDay, msPerHour,
      msPerMinute, msPerSecond. Z.div_mod_to_equations. lia.
  - unfold SecFromTime, t, MakeDate, MakeTime, msPerDay, msPerHour,
      msPerMinute, msPerSecond. Z.div_mod_to_equations. lia.
Qed.

End JsDateFacts.

(* ===================================================================== *)
(** ** Facts about timestamp texts *)
(* ===================================================================== *)

Module TimeStrFacts.

Import JsString JsDate Epg Spec.

Lemma digit_cases d :
  0 <= d <= 9 ->
  d = 0 \/ d = 1 \/ d = 2 \/ d = 3 \/ d = 4 \/
  d = 5 \/ d = 6 \/ d = 7 \/ d = 8 \/ d = 9.
Proof. lia. Qed.

Ltac each_digit H :=
  apply digit_cases in H;
  destruct H as [-> | [-> | [-> | [-> | [-> | [-> | [-> | [-> | [-> | ->]]]]]]]]].

Lemma digitValue_digitChar d : 0 <= d <= 9 -> digitValue (digitChar d) = Some d.
Proof. intros H. each_digit H; reflexivity. Qed.

Lemma isDigit_digitChar d : 0 <= d <= 9 -> isDigit (digitChar d) = true.
Proof. intros H. unfold isDigit. rewrite digitValue_digitChar by exact H. reflexivity. Qed.

Lemma isSign_digitChar d : 0 <= d <= 9 -> isSign (digitChar d) = false.
Proof. intros H. each_digit H; reflexivity. Qed.

(** A run of decimal digits is read digit by digit. *)
Lemma readDigits_digitChar d s acc :
  0 <= d <= 9 ->
  readDigits digitValue 10 (String (digitChar d) s) acc =
  readDigits digitValue 10 s
    (Some (10 * match acc with Some a => a | None => 0 end + d)).
Proof.
  intros H. cbn [readDigits]. rewrite digitValue_digitChar by exact H.
  reflexivity.
Qed.

(** Two leading digits rule out white space, a sign and the prefix [0x]. *)
Lemma parseInt_two_digits a b s :
  0 <= a <= 9 -> 0 <= b <= 9 ->
  parseInt (String (digitChar a) (String (digitChar b) s)) =
  option_map (Z.mul 1)
    (readDigits digitValue 10 (String (digitChar a) (String (digitChar b) s)) None).
Proof. intros Ha Hb. each_digit Ha; each_digit Hb; reflexivity. Qed.

Lemma pad_digits n :
  0 <= n <= 99 -> 0 <= n / 10 <= 9 /\ 0 <= n mod 10 <= 9.
Proof. intros H. Z.div_mod_to_equations. lia. Qed.

Lemma parseInt_pad2 n : 0 <= n <= 99 -> parseInt (pad2 n) = Some n.
Proof.
  intros H. destruct (pad_digits n H) as [Ha Hb]. unfold pad2.
  rewrite parseInt_two_digits by assumption.
  rewrite !readDigits_digitChar by assumption. cbn [readDigits option_map].
  f_equal. Z.div_mod_to_equations. lia.
Qed.

Lemma parseInt_pad4 n : 0 <= n <= 9999 -> parseInt (pad4 n) = Some n.
Proof.
  intros H. unfold pad4, pad2.
  assert (H1 : 0 <= n / 1000 <= 9) by (Z.div_mod_to_equations; lia).
  assert (H2 : 0 <= (n / 100) mod 10 <= 9) by (Z.div_mod_to_equations; lia).
  assert (H3 : 0 <= n mod 100 / 10 <= 9) by (Z.div_mod_to_equations; lia).
  assert (H4 : 0 <= (n mod 100) mod 10 <= 9) by (Z.div_mod_to_equations; lia).
  rewrite parseInt_two_digits by assumption.
  rewrite !readDigits_digitChar by assumption. cbn [readDigits option_map].
  f_equal. Z.div_mod_to_equations. lia.
Qed.

(** The offset expression cannot match where there is no sign. *)
Lemma matchOffset_skip c s : isSign c = false -> matchOffset (String c s) = matchOffset s.
Proof.
  intros H.
  assert (E : matchOffsetAt (String c s) = None).
  { destruct s as [| d1 [| d2 [| d3 [| d4 s]]]]; cbn [matchOffsetAt];
      try reflexivity.
    rewrite H. reflexivity. }
  destruct s; cbn [matchOffset]; rewrite E; reflexivity.
Qed.

Lemma matchOffset_here c a b d e s :
  isSign c = true ->
  0 <= a <= 9 -> 0 <= b <= 9 -> 0 <= d <= 9 -> 0 <= e <= 9 ->
  matchOffset
    (String c (String (digitChar a) (String (digitChar b)
       (String (digitChar d) (String (digitChar e) s))))) =
  Some (c, String (digitChar a) (String (digitChar b) EmptyString),
           String (digitChar d) (String (digitChar e) EmptyString)).
Proof.
  intros Hc Ha Hb Hd He. cbn [matchOffset matchOffsetAt].
  rewrite Hc, !isDigit_digitChar by assumption. reflexivity.
Qed.

(** The expression finds nothing in the fourteen digits. *)
Lemma matchOffset_stamp f s :
  printable f -> matchOffset (stampText f ++ s) = matchOffset s.
Proof.
  intros (Hy & Hmo & Hd & Hh & Hmi & Hs).
  unfold stampText, pad4, pad2. cbn [append].
  assert (H1 : 0 <= f_year f / 1000 <= 9) by (Z.div_mod_to_equations; lia).
  assert (H2 : 0 <= (f_year f / 100) mod 10 <= 9) by (Z.div_mod_to_equations; lia).
  assert (H3 : 0 <= f_year f mod 100 / 10 <= 9) by (Z.div_mod_to_equations; lia).
  assert (H4 : 0 <= (f_year f mod 100) mod 10 <= 9) by (Z.div_mod_to_equations; lia).
  destruct (pad_digits _ Hmo), (pad_digits _ Hd), (pad_digits _ Hh),
    (pad_digits _ Hmi), (pad_digits _ Hs).
  rewrite !matchOffset_skip by (apply isSign_digitChar; assumption).
  reflexivity.
Qed.

Lemma append_empty s : (s ++ "")%string = s.
Proof. induction s; cbn; congruence. Qed.

(** The offset the parser reads from a timestamp text, in minutes. *)
Lemma matchOffset_timestamp f o :
  printable f ->
  match o with Some o' => printableOffset o' | None => True end ->
  match matchOffset (timestamp f o) with
  | Some (sg, hh, mm) =>
      match parseInt hh, parseInt mm with
      | Some hours, Some minutes =>
          Some ((if (sg =? "+")%char then 1 else -1) * (hours * 60 + minutes))
      | _, _ => None
      end
  | None => Some 0
  end = Some (match o with Some o' => offsetMinutes o' | None => 0 end).
Proof.
  intros Hf Ho. destruct o as [o |]; unfold timestamp.
  - rewrite matchOffset_stamp by exact Hf.
    destruct Ho as [Hh Hm]. unfold offsetText.
    rewrite matchOffset_skip by reflexivity.
    destruct (pad_digits _ Hh), (pad_digits _ Hm).
    unfold pad2 at 1 2. cbn [append].
    rewrite matchOffset_here by (try assumption; destruct (o_negative o); reflexivity).
    fold (pad2 (o_hours o)). fold (pad2 (o_minutes o)).
    rewrite !parseInt_pad2 by assumption.
    unfold offsetMinutes. destruct (o_negative o); reflexivity.
  - rewrite <- (append_empty (stampText f)).
    rewrite matchOffset_stamp by exact Hf. reflexivity.
Qed.

End TimeStrFacts.

(* ===================================================================== *)
(** ** parseTimeStr on timestamp texts *)
(* ===================================================================== *)

Module ParseTimeStrFacts.

Import JsString JsDate Epg Spec JsDateFacts TimeStrFacts.

Lemma monthStart_range leap m : 0 <= monthStart leap m <= 366.
Proof.
  unfold monthStart.
  repeat match goal with
         | |- context [if ?b then _ else _] => destruct b
         end; lia.
Qed.

Lemma MakeFullYear_range y : 0 <= y <= 9999 -> 100 <= MakeFullYear y <= 9999.
Proof.
  intros H. unfold MakeFullYear.
  destruct (0 <=? y) eqn:A; destruct (y <=? 99) eqn:B; cbn [andb]; lia.
Qed.

Lemma MakeFullYear_id y : 100 <= y -> MakeFullYear y = y.
Proof.
  intros H. unfold MakeFullYear.
  destruct (0 <=? y) eqn:A; destruct (y <=? 99) eqn:B; cbn [andb]; lia.
Qed.

(** The time value of printable fields is far inside the range of
    [TimeClip]. *)
Lemma naiveInstant_range f :
  printable f ->
  Z.abs (naiveInstant (fullYear f)) <= 400000000000000.
Proof.
  intros (Hy & Hmo & Hd & Hh & Hmi & Hs).
  unfold naiveInstant, fullYear.
  cbn [f_year f_month f_day f_hour f_minute f_second].
  pose proof (MakeFullYear_range _ Hy) as HY.
  unfold MakeDate, MakeDay, MakeTime, msPerDay, msPerHour, msPerMinute,
    msPerSecond. cbv zeta.
  pose proof (monthStart_range
                (isLeap (MakeFullYear (f_year f) + (f_month f - 1) / 12))
                ((f_month f - 1) mod 12)) as HM.
  unfold DayFromYear.
  Z.div_mod_to_equations. lia.
Qed.

Lemma offsetMinutes_range o :
  printableOffset o -> Z.abs (offsetMinutes o) <= 6039.
Proof.
  intros [Hh Hm]. unfold offsetMinutes. destruct (o_negative o); lia.
Qed.

Lemma TimeClip_small t : Z.abs t <= 8640000000000000 -> TimeClip t = Some t.
Proof.
  intros H. unfold TimeClip.
  destruct (Z.abs t <=? 8640000000000000) eqn:E; [reflexivity |].
  apply Z.leb_gt in E. lia.
Qed.

(** What the parser computes for a timestamp text: the time value of its
    fields taken as [Date.UTC] takes them, less the offset written in
    the text, plus the offset of the host. *)
Lemma timestamp_parsed localOffset f o :
  printable f ->
  match o with Some o' => printableOffset o' | None => True end ->
  -1440 <= localOffset <= 1440 ->
  parseTimeStr localOffset (timestamp f o) =
  Some (specInstant (fullYear f) o + localOffset * 60000).
Proof.
  intros Hf Ho Hlo.
  assert (Etruthy : truthy (timestamp f o) = true).
  { destruct o; reflexivity. }
  assert (Edigits : String.substring 0 14 (timestamp f o) = stampText f).
  { destruct o; reflexivity. }
  unfold parseTimeStr. cbv zeta.
  rewrite Etruthy, Edigits, (matchOffset_timestamp f o Hf Ho).
  cbn [negb].
  change (slice 0 4 (stampText f)) with (pad4 (f_year f)).
  change (slice 4 6 (stampText f)) with (pad2 (f_month f)).
  change (slice 6 8 (stampText f)) with (pad2 (f_day f)).
  change (slice 8 10 (stampText f)) with (pad2 (f_hour f)).
  change (slice 10 12 (stampText f)) with (pad2 (f_minute f)).
  change (slice 12 14 (stampText f)) with (pad2 (f_second f)).
  pose proof (naiveInstant_range f Hf) as Hrange.
  destruct Hf as (Hy & Hmo & Hd & Hh & Hmi & Hs).
  rewrite parseInt_pad4, !parseInt_pad2 by assumption.
  cbn [option_map UTC_opt]. unfold UTC.
  change (MakeDate _ _) with (naiveInstant (fullYear f)).
  rewrite TimeClip_small by lia.
  assert (Hoff : Z.abs (match o with
                        | Some o' => offsetMinutes o'
                        | None => 0
                        end) <= 6039).
  { destruct o as [o |]; [apply offsetMinutes_range, Ho | cbn; lia]. }
  rewrite TimeClip_small by lia.
  f_equal. unfold specInstant. destruct o; lia.
Qed.

End ParseTimeStrFacts.

(* ===================================================================== *)
(** ** Timestamps: what is stored for a timestamp text *)
(* ===================================================================== *)

Module Timestamps.

Import JsString JsDate Epg Spec Samples JsDateFacts TimeStrFacts ParseTimeStrFacts.

Lemma validFields_printable f :
  validFields f -> 0 <= f_year f <= 9999 -> printable f.
Proof.
  intros (Hmo & Hd & Hh & Hmi & Hs) Hy.
  assert (Hdim : DaysInMonth (f_year f) (f_month f - 1) <= 31).
  { unfold DaysInMonth.
    assert (Hm : 0 <= f_month f - 1 <= 11) by lia.
    apply month_cases in Hm.
    destruct (isLeap (f_year f));
      repeat (destruct Hm as [-> | Hm]); try rewrite Hm;
      eval_monthStart; lia. }
  unfold printable. lia.
Qed.

(** The extent of the defect in [parseTimeStr]: for every timestamp text
    of fourteen digits in a year from 0100, with or without a signed
    [HHMM] offset, the time value it yields is the instant the text
    denotes plus the offset of the host ([getTimezoneOffset()] minutes);
    the two agree on a host at UTC and nowhere else. *)
Lemma parseTimeStr_off_by_host_offset localOffset f o :
  printable f -> 100 <= f_year f ->
  match o with Some o' => printableOffset o' | None => True end ->
  -1440 <= localOffset <= 1440 ->
  parseTimeStr localOffset (timestamp f o) =
    Some (specInstant f o + localOffset * 60000).
Proof.
  intros Hf Hy Ho Hlo.
  rewrite (timestamp_parsed localOffset f o Hf Ho Hlo). f_equal.
  assert (Ef : fullYear f = f).
  { destruct f as [y mo d h mi s]. unfold fullYear. cbn in Hy |- *.
    rewrite MakeFullYear_id by exact Hy. reflexivity. }
  rewrite Ef. reflexivity.
Qed.

(** C2 does not hold of the code: on a host five hours west of UTC the
    text [20240101180000 -0500] is stored as 04:00 UTC of 2 January, not
    as 23:00 UTC of 1 January, and [20240101180000] as 23:00 UTC, not as
    18:00 UTC. *)
Theorem parseTimeStr_adds_local_offset :
  timestamp sampleFields (Some sampleOffset) = "20240101180000 -0500"%string /\
  parseTimeStr 300 "20240101180000 -0500" = Some 1704168000000 /\
  specInstant sampleFields (Some sampleOffset) = 1704150000000 /\
  parseTimeStr 300 (timestamp sampleFields (Some sampleOffset)) <>
    Some (specInstant sampleFields (Some sampleOffset)) /\
  timestamp sampleFields None = "20240101180000"%string /\
  parseTimeStr 300 "20240101180000" = Some 1704150000000 /\
  specInstant sampleFields None = 1704132000000 /\
  parseTimeStr 300 (timestamp sampleFields None) <>
    Some (specInstant sampleFields None).
Proof.
  repeat split; try (vm_compute; reflexivity); vm_compute; discriminate.
Qed.

(** With the offset of the host taken off again, the stored instant of
    a timestamp whose fields are a valid date and time of day in a year
    0100..9999, shown at the offset of the text, has the fields of the
    text: the offset of the host is all that stands between the code
    and the round trip. *)
Lemma reexpress_off_by_host_offset localOffset f o :
  validFields f -> 100 <= f_year f <= 9999 ->
  printableOffset o -> -1440 <= localOffset <= 1440 ->
  exists t,
    parseTimeStr localOffset (timestamp f (Some o)) = Some t /\
    reexpress o (t - localOffset * 60000) = f.
Proof.
  intros Hv Hy Ho Hlo.
  assert (Hp : printable f) by (apply validFields_printable; [exact Hv | lia]).
  exists (specInstant f (Some o) + localOffset * 60000).
  split;
    [apply (parseTimeStr_off_by_host_offset localOffset f (Some o));
     [exact Hp | lia | exact Ho | exact Hlo] |].
  replace (specInstant f (Some o) + localOffset * 60000 - localOffset * 60000)
    with (specInstant f (Some o)) by lia.
  unfold reexpress, specInstant.
  replace (naiveInstant f - offsetMinutes o * 60000 + offsetMinutes o * 60000)
    with (naiveInstant f) by lia.
  apply fieldsOfTime_MakeDate, Hv.
Qed.

(** C5 does not hold of the code: on a host five hours west of UTC the
    instant stored for [20240101180000 -0500], shown again at -0500,
    reads 23:00 where the text has 18:00. *)
Theorem reexpress_shifted_by_local_offset :
  timestamp sampleFields (Some sampleOffset) = "20240101180000 -0500"%string /\
  parseTimeStr 300 (timestamp sampleFields (Some sampleOffset)) =
    Some 1704168000000 /\
  reexpress sampleOffset 1704168000000 =
    {| f_year := 2024; f_month := 1; f_day := 1;
       f_hour := 23; f_minute := 0; f_second := 0 |} /\
  reexpress sampleOffset 1704168000000 <> sampleFields.
Proof.
  repeat split; try (vm_compute; reflexivity). vm_compute. discriminate.
Qed.

End Timestamps.

(* ===================================================================== *)
(** ** Navigation of the time window *)
(* ===================================================================== *)

Module TimeWindowFacts.

Import Epg TimeWindow.

(** C6, as amended. Each of the four actions proposes the window start
    moved by its delta. A backward action (-12 h, -1 h) is rejected when
    the proposed start is earlier than [now] less 7 days, a forward action
    (+12 h, +1 h) when it is later than [now] plus 7 days, [now] being
    read at the call; a rejected action leaves the window start as it was
    and shows a notice; every other action commits the proposed start. *)
Theorem click_bounds a renderGuide now tws :
  let newStart := tws + deltaMinutes a * 60000 in
  (beyond a now newStart ->
   fst (click a renderGuide now (Some tws)) = Some tws /\
   isRejection (snd (click a renderGuide now (Some tws)))) /\
  (~ beyond a now newStart ->
   fst (click a renderGuide now (Some tws)) = Some newStart).
Proof.
  unfold beyond, isRejection, week.
  destruct a; cbn [click deltaMinutes];
    unfold scrollBackBtn_click, scrollForwardBtn_click,
      scrollBackHourBtn_click, scrollForwardHourBtn_click; cbv zeta;
    match goal with
    | |- context [(?x <? 0)] =>
        let v := eval vm_compute in (x <? 0) in change (x <? 0) with v
    end; cbv iota;
    match goal with
    | |- context [if ?c then (Some tws, _) else _] => destruct c eqn:E
    end;
    cbn [fst snd];
    try rewrite Z.gtb_ltb in E;
    first [apply Z.ltb_lt in E | apply Z.ltb_ge in E];
    (split; intros H;
     [ first [lia | split; [reflexivity | tauto]]
     | first [f_equal; lia | exfalso; apply H; lia] ]).
Qed.

Lemma click_bounds_witness :
  fst (click Back12 (Ok tt) 0 (Some (-604800000))) = Some (-604800000) /\
  isRejection (snd (click Back12 (Ok tt) 0 (Some (-604800000)))).
Proof.
  apply (proj1 (click_bounds Back12 (Ok tt) 0 (-604800000))).
  unfold beyond, week. cbn. lia.
Defined.

(** C6 fails as stated: with the window start ten days behind the clock,
    the forward action proposes a start that is still earlier than [now]
    less 7 days, and commits it. *)
Lemma forward_commits_before_lower_bound :
  864000000 - week = 259200000 /\
  0 + deltaMinutes Forward12 * 60000 = 43200000 /\
  43200000 < 864000000 - week /\
  click Forward12 (Ok tt) 864000000 (Some 0) =
    (Some 43200000, Ok "Scrolled +12 hours"%string).
Proof. repeat split. Qed.

End TimeWindowFacts.

(* ===================================================================== *)
(** ** Facts about objects used as maps *)
(* ===================================================================== *)

Module JsObjectFacts.

Import JsString JsObject Epg Spec.

Lemma assoc_assocSet_eq {V : Type} k (v : V) l :
  assoc k (assocSet k v l) = Some v.
Proof.
  induction l as [| [k' v'] l IH]; cbn [assocSet assoc].
  - rewrite String.eqb_refl. reflexivity.
  - destruct (k =? k')%string eqn:E; cbn [assoc]; rewrite E; auto.
Qed.

Lemma assoc_assocSet_ne {V : Type} k k' (v : V) l :
  k <> k' -> assoc k (assocSet k' v l) = assoc k l.
Proof.
  intros Hne. apply String.eqb_neq in Hne.
  induction l as [| [k'' v''] l IH]; cbn [assocSet assoc].
  - rewrite Hne. reflexivity.
  - destruct (k' =? k'')%string eqn:E; cbn [assoc].
    + apply String.eqb_eq in E. subst k''. rewrite Hne. reflexivity.
    + destruct (k =? k'')%string; auto.
Qed.

Lemma assoc_In {V : Type} k (v : V) l : assoc k l = Some v -> In (k, v) l.
Proof.
  induction l as [| [k' v'] l IH]; cbn [assoc]; [discriminate |].
  destruct (k =? k')%string eqn:E.
  - apply String.eqb_eq in E. subst. intros [= ->]. left. reflexivity.
  - intros H. right. auto.
Qed.

Lemma In_assoc_some {V : Type} k (v : V) l :
  In (k, v) l -> exists v', assoc k l = Some v'.
Proof.
  induction l as [| [k' v'] l IH]; cbn [assoc In]; [tauto |].
  intros [[= -> ->] | H].
  - rewrite String.eqb_refl. eauto.
  - destruct (k =? k')%string; eauto.
Qed.

Lemma assoc_map {V : Type} (f : V -> V) k (l : list (string * V)) :
  assoc k (map (fun kv => (fst kv, f (snd kv))) l) = option_map f (assoc k l).
Proof.
  induction l as [| [k' v'] l IH]; cbn [map assoc fst snd option_map];
    [reflexivity |].
  destruct (k =? k')%string; auto.
Qed.

Lemma inb_In k l : inb k l = true <-> In k l.
Proof.
  unfold inb. rewrite existsb_exists. split.
  - intros (x & Hx & E). apply String.eqb_eq in E. subst. exact Hx.
  - intros H. exists k. split; [exact H | apply String.eqb_refl].
Qed.

Lemma inb_false k l : inb k l = false <-> ~ In k l.
Proof.
  rewrite <- inb_In. destruct (inb k l); split; congruence.
Qed.

(** *** Reads and writes of plain objects *)

Lemma plain_empty : plain emptyObj.
Proof.
  split; [reflexivity |]. split; [intros k _; reflexivity | constructor].
Qed.

Lemma assocSet_keys {V : Type} k (v : V) l :
  map fst (assocSet k v l) =
  match assoc k l with
  | Some _ => map fst l
  | None => map fst l ++ [k]
  end.
Proof.
  induction l as [| [k' v'] l IH]; cbn [assocSet assoc map fst app];
    [reflexivity |].
  destruct (k =? k')%string eqn:E; cbn [map fst]; [reflexivity |].
  rewrite IH. destruct (assoc k l); reflexivity.
Qed.

Lemma assoc_None_keys {V : Type} k (l : list (string * V)) :
  assoc k l = None -> ~ In k (map fst l).
Proof.
  induction l as [| [k' v'] l IH]; cbn [assoc map fst In]; [tauto |].
  destruct (k =? k')%string eqn:E; [discriminate |].
  apply String.eqb_neq in E. intros H [H' | H']; [congruence | tauto].
Qed.

Lemma assocSet_NoDup {V : Type} k (v : V) l :
  NoDup (map fst l) -> NoDup (map fst (assocSet k v l)).
Proof.
  intros H. rewrite assocSet_keys.
  destruct (assoc k l) eqn:E; [exact H |].
  apply NoDup_app; [exact H | constructor; [tauto | constructor] |].
  intros x Hx [<- | []]. exact (assoc_None_keys _ _ E Hx).
Qed.

Lemma NoDup_keys_assoc {V : Type} k (v : V) l :
  NoDup (map fst l) -> In (k, v) l -> assoc k l = Some v.
Proof.
  induction l as [| [k' v'] l IH]; cbn [assoc map fst In]; [tauto |].
  intros Hnd [[= -> ->] | H].
  - rewrite String.eqb_refl. reflexivity.
  - inversion Hnd as [| ? ? Hk Hl]; subst.
    destruct (k =? k')%string eqn:E; [| auto].
    apply String.eqb_eq in E. subst k'.
    destruct Hk. apply (in_map fst) in H. exact H.
Qed.

Lemma get_plain (o : obj programme) k :
  plain o ->
  get o k =
  match assoc k (own o) with
  | Some l => Found l
  | None => if inb k objectProtoKeys then Inherited k else Undefined
  end.
Proof. intros (Hp & _). unfold get. rewrite Hp. reflexivity. Qed.

Lemma get_plain_reserved (o : obj programme) k :
  plain o -> In k objectProtoKeys -> get o k = Inherited k.
Proof.
  intros Hpl Hk. rewrite get_plain by exact Hpl.
  destruct Hpl as (_ & Hown & _). rewrite (Hown k Hk).
  apply inb_In in Hk. rewrite Hk. reflexivity.
Qed.

Lemma proto_reserved : In "__proto__"%string objectProtoKeys.
Proof. cbn. tauto. Qed.

Lemma stored_plain (o : obj programme) k :
  plain o -> stored o k = assoc k (own o).
Proof.
  intros Hpl. unfold stored. rewrite get_plain by exact Hpl.
  destruct (assoc k (own o)); [reflexivity |].
  destruct (inb k objectProtoKeys); reflexivity.
Qed.

Lemma set_plain (o : obj programme) k l :
  plain o -> ~ In k objectProtoKeys ->
  plain (set k l o) /\
  assoc k (own (set k l o)) = Some l /\
  forall k', k' <> k -> assoc k' (own (set k l o)) = assoc k' (own o).
Proof.
  intros (Hp & Hown & Hnd) Hk. unfold set.
  destruct (k =? "__proto__")%string eqn:E.
  { apply String.eqb_eq in E. subst k. destruct Hk. apply proto_reserved. }
  unfold plain. cbn [own protoArray].
  split; [split; [exact Hp | split] | split].
  - intros k' Hk'. rewrite assoc_assocSet_ne; [auto | congruence].
  - apply assocSet_NoDup, Hnd.
  - apply assoc_assocSet_eq.
  - intros k' Hne. apply assoc_assocSet_ne, Hne.
Qed.

(** *** pushTo *)

Lemma pushTo_reserved k rec (o : obj programme) :
  plain o -> In k objectProtoKeys -> pushTo k rec o = Throw TypeError.
Proof.
  intros Hpl Hk. unfold pushTo.
  rewrite (get_plain_reserved o k Hpl Hk).
  rewrite (get_plain_reserved o k Hpl Hk). reflexivity.
Qed.

Lemma pushTo_plain k rec (o : obj programme) :
  plain o -> ~ In k objectProtoKeys ->
  exists o',
    pushTo k rec o = Ok o' /\ plain o' /\
    listAt o' k = listAt o k ++ [rec] /\
    forall k', k' <> k -> listAt o' k' = listAt o k'.
Proof.
  intros Hpl Hk. unfold pushTo. rewrite (get_plain o k Hpl).
  pose proof Hk as Hk'. apply inb_false in Hk'. rewrite Hk'.
  destruct (assoc k (own o)) as [l |] eqn:E.
  - rewrite (get_plain o k Hpl), E.
    destruct (set_plain o k (l ++ [rec]) Hpl Hk) as (P1 & P2 & P3).
    eexists. split; [reflexivity |]. split; [exact P1 |].
    unfold listAt. rewrite P2, E. split; [reflexivity |].
    intros k' Hne. rewrite P3 by exact Hne. reflexivity.
  - destruct (set_plain o k [] Hpl Hk) as (P1 & P2 & P3).
    rewrite (get_plain _ k P1), P2.
    destruct (set_plain (set k [] o) k ([] ++ [rec]) P1 Hk) as (Q1 & Q2 & Q3).
    eexists. split; [reflexivity |]. split; [exact Q1 |].
    unfold listAt. rewrite Q2, E. split; [reflexivity |].
    intros k' Hne. rewrite Q3, P3 by exact Hne. reflexivity.
Qed.

(** *** mapOwn *)

Lemma mapOwn_plain f (o : obj programme) : plain o -> plain (mapOwn f o).
Proof.
  intros (Hp & Hown & Hnd). split; [exact Hp |]. split.
  - intros k Hk. unfold mapOwn. cbn [own]. rewrite assoc_map, (Hown k Hk).
    reflexivity.
  - unfold mapOwn. cbn [own]. rewrite map_map. cbn [fst]. exact Hnd.
Qed.

End JsObjectFacts.

(* ===================================================================== *)
(** ** Facts about the parser *)
(* ===================================================================== *)

Module ParserFacts.

Import JsString JsObject Epg Spec JsObjectFacts.

(** *** The sort *)

Lemma insertByStart_perm x l : Permutation (x :: l) (insertByStart x l).
Proof.
  induction l as [| y l IH]; cbn [insertByStart]; [reflexivity |].
  destruct (start x - start y <=? 0); [reflexivity |].
  rewrite perm_swap. apply perm_skip, IH.
Qed.

Lemma sortByStart_perm l : Permutation l (sortByStart l).
Proof.
  induction l as [| x l IH]; cbn [sortByStart fold_right]; [reflexivity |].
  rewrite <- insertByStart_perm. apply perm_skip, IH.
Qed.

Lemma sortByStart_In p l : In p (sortByStart l) <-> In p l.
Proof.
  split; apply Permutation_in;
    [apply Permutation_sym |]; apply sortByStart_perm.
Qed.

Lemma insertByStart_sorted x l :
  sortedByStart l -> sortedByStart (insertByStart x l).
Proof.
  unfold sortedByStart.
  induction l as [| y l IH]; intros Hs; cbn [insertByStart].
  - constructor; constructor.
  - destruct (start x - start y <=? 0) eqn:E.
    + apply Z.leb_le in E. constructor; [exact Hs |].
      inversion Hs as [| ? ? Hl Hy]; subst.
      constructor; [lia |].
      rewrite Forall_forall in *. intros z Hz. specialize (Hy z Hz). lia.
    + apply Z.leb_gt in E.
      inversion Hs as [| ? ? Hl Hy]; subst.
      constructor; [apply IH, Hl |].
      rewrite Forall_forall in *. intros z Hz.
      apply (Permutation_in _ (Permutation_sym (insertByStart_perm x l))) in Hz.
      destruct Hz as [<- | Hz]; [lia | auto].
Qed.

Lemma sortByStart_sorted l : sortedByStart (sortByStart l).
Proof.
  induction l as [| x l IH]; cbn [sortByStart fold_right].
  - constructor.
  - apply insertByStart_sorted, IH.
Qed.

(** *** One programme element *)

Section Feed.

Variable localOffset : Z.
Variable doc : document.

Local Abbreviation names := (fst (channelMaps doc)).
Local Abbreviation icons := (snd (channelMaps doc)).

Lemma addProgramme_skip acc p :
  validTimes localOffset p = None ->
  addProgramme localOffset names icons acc p = Ok acc.
Proof.
  unfold validTimes, addProgramme. cbv zeta.
  destruct (parseTimeStr localOffset (orEmpty (p_start p)));
    [destruct (parseTimeStr localOffset (orEmpty (p_stop p))) |];
    [discriminate | reflexivity | reflexivity].
Qed.

Lemma addProgramme_valid acc p times :
  validTimes localOffset p = Some times ->
  addProgramme localOffset names icons acc p =
  (schedule <- pushTo (displayKey doc p) (recordFor doc p times) (fst acc) ;;
   scheduleByTvgId <- pushTo (idKey p) (recordFor doc p times) (snd acc) ;;
   Ok (schedule, scheduleByTvgId)).
Proof.
  unfold validTimes, addProgramme. cbv zeta.
  destruct (parseTimeStr localOffset (orEmpty (p_start p))) as [a |];
    [destruct (parseTimeStr localOffset (orEmpty (p_stop p))) as [b |] |];
    [| discriminate | discriminate].
  intros [= <-]. reflexivity.
Qed.

Lemma addProgramme_clash s b p :
  plain s -> plain b -> clashes localOffset doc p ->
  addProgramme localOffset names icons (s, b) p = Throw TypeError.
Proof.
  intros Hs Hb [Hv Hk].
  destruct (validTimes localOffset p) as [times |] eqn:E; [| congruence].
  rewrite (addProgramme_valid _ _ _ E). cbn [fst snd].
  assert (Hid : In (idKey p) objectProtoKeys ->
                forall b', plain b' ->
                pushTo (idKey p) (recordFor doc p times) b' = Throw TypeError).
  { intros H b' Hb'. apply pushTo_reserved; assumption. }
  destruct Hk as [Hk | Hk].
  - rewrite pushTo_reserved by assumption. reflexivity.
  - destruct (pushTo (displayKey doc p) (recordFor doc p times) s);
      cbn [bind]; [| destruct e; reflexivity].
    rewrite Hid by assumption. reflexivity.
Qed.

Lemma addProgramme_stored s b p times :
  plain s -> plain b ->
  validTimes localOffset p = Some times ->
  ~ In (displayKey doc p) objectProtoKeys ->
  ~ In (idKey p) objectProtoKeys ->
  exists s' b',
    addProgramme localOffset names icons (s, b) p = Ok (s', b') /\
    plain s' /\ plain b' /\
    (forall k, listAt s' k =
               listAt s k ++
               if (displayKey doc p =? k)%string
               then [recordFor doc p times] else []) /\
    (forall k, listAt b' k =
               listAt b k ++
               if (idKey p =? k)%string
               then [recordFor doc p times] else []).
Proof.
  intros Hs Hb E Hd Hi.
  rewrite (addProgramme_valid _ _ _ E). cbn [fst snd].
  destruct (pushTo_plain (displayKey doc p) (recordFor doc p times) s Hs Hd)
    as (s' & Es & Ps & Ls & Os).
  destruct (pushTo_plain (idKey p) (recordFor doc p times) b Hb Hi)
    as (b' & Eb & Pb & Lb & Ob).
  exists s', b'. rewrite Es. cbn [bind]. rewrite Eb. cbn [bind].
  split; [reflexivity |]. split; [exact Ps |]. split; [exact Pb |].
  split; intros k.
  - destruct (displayKey doc p =? k)%string eqn:Ek.
    + apply String.eqb_eq in Ek. subst k. exact Ls.
    + apply String.eqb_neq in Ek. rewrite app_nil_r. apply Os. congruence.
  - destruct (idKey p =? k)%string eqn:Ek.
    + apply String.eqb_eq in Ek. subst k. exact Lb.
    + apply String.eqb_neq in Ek. rewrite app_nil_r. apply Ob. congruence.
Qed.

(** An element either clashes or does not. *)
Lemma clashes_dec p : clashes localOffset doc p \/ ~ clashes localOffset doc p.
Proof.
  unfold clashes.
  destruct (validTimes localOffset p); [| right; intros [H _]; congruence].
  destruct (inb (displayKey doc p) objectProtoKeys) eqn:A.
  - left. apply inb_In in A. split; [discriminate | tauto].
  - destruct (inb (idKey p) objectProtoKeys) eqn:B.
    + left. apply inb_In in B. split; [discriminate | tauto].
    + right. apply inb_false in A, B. tauto.
Qed.

(** *** The loop over the programme elements *)

(** The loop returns when no element clashes, and then each array holds,
    after what it held before, the records of the elements with its key,
    in the order of the elements. *)
Lemma addProgrammes_stored ps : forall s b,
  plain s -> plain b ->
  (forall p, In p ps -> ~ clashes localOffset doc p) ->
  exists s' b',
    addProgrammes localOffset names icons ps (s, b) = Ok (s', b') /\
    plain s' /\ plain b' /\
    (forall k, listAt s' k =
               listAt s k ++ recordsFor localOffset doc (displayKey doc) k ps) /\
    (forall k, listAt b' k =
               listAt b k ++ recordsFor localOffset doc idKey k ps).
Proof.
  induction ps as [| p ps IH]; intros s b Hs Hb Hno.
  - exists s, b. cbn [addProgrammes recordsFor flat_map].
    split; [reflexivity |]. split; [exact Hs |]. split; [exact Hb |].
    split; intros k; rewrite app_nil_r; reflexivity.
  - cbn [addProgrammes].
    destruct (validTimes localOffset p) as [times |] eqn:E.
    + assert (Hp : ~ clashes localOffset doc p) by (apply Hno; left; reflexivity).
      assert (Hd : ~ In (displayKey doc p) objectProtoKeys).
      { intros H. apply Hp. split; [congruence | tauto]. }
      assert (Hi : ~ In (idKey p) objectProtoKeys).
      { intros H. apply Hp. split; [congruence | tauto]. }
      destruct (addProgramme_stored s b p times Hs Hb E Hd Hi)
        as (s1 & b1 & E1 & Ps1 & Pb1 & Ls1 & Lb1).
      rewrite E1. cbn [bind].
      destruct (IH s1 b1 Ps1 Pb1) as (s' & b' & E' & Ps' & Pb' & Ls' & Lb').
      { intros q Hq. apply Hno. right. exact Hq. }
      exists s', b'. split; [exact E' |]. split; [exact Ps' |].
      split; [exact Pb' |].
      split; intros k; cbn [recordsFor flat_map]; rewrite E.
      * rewrite Ls', Ls1, <- app_assoc. reflexivity.
      * rewrite Lb', Lb1, <- app_assoc. reflexivity.
    + rewrite (addProgramme_skip _ _ E). cbn [bind].
      destruct (IH s b Hs Hb) as (s' & b' & E' & Ps' & Pb' & Ls' & Lb').
      { intros q Hq. apply Hno. right. exact Hq. }
      exists s', b'. split; [exact E' |]. split; [exact Ps' |].
      split; [exact Pb' |].
      split; intros k; cbn [recordsFor flat_map]; rewrite E; cbn [app]; auto.
Qed.

(** The loop raises when an element clashes. *)
Lemma addProgrammes_clash ps : forall s b,
  plain s -> plain b ->
  (exists p, In p ps /\ clashes localOffset doc p) ->
  addProgrammes localOffset names icons ps (s, b) = Throw TypeError.
Proof.
  induction ps as [| p ps IH]; intros s b Hs Hb (q & Hq & Hc).
  - destruct Hq.
  - cbn [addProgrammes].
    destruct (clashes_dec p) as [Hp | Hp].
    + rewrite addProgramme_clash by assumption. reflexivity.
    + assert (Hrest : exists q, In q ps /\ clashes localOffset doc q).
      { destruct Hq as [-> | Hq]; [contradiction | eauto]. }
      destruct (validTimes localOffset p) as [times |] eqn:E.
      * assert (Hd : ~ In (displayKey doc p) objectProtoKeys).
        { intros H. apply Hp. split; [congruence | tauto]. }
        assert (Hi : ~ In (idKey p) objectProtoKeys).
        { intros H. apply Hp. split; [congruence | tauto]. }
        destruct (addProgramme_stored s b p times Hs Hb E Hd Hi)
          as (s1 & b1 & E1 & Ps1 & Pb1 & _).
        rewrite E1. cbn [bind]. apply IH; assumption.
      * rewrite (addProgramme_skip _ _ E). cbn [bind]. apply IH; assumption.
Qed.

End Feed.

End ParserFacts.

(* ===================================================================== *)
(** ** Facts about the loader *)
(* ===================================================================== *)

Module LoaderFacts.

Import JsString JsObject Epg Spec JsObjectFacts.

(** *** Writes to an object whose prototype may have been replaced *)

Lemma stored_set (o : obj programme) k k' l :
  assoc "__proto__"%string (own o) = None ->
  stored (set k' l o) k = if (k =? k')%string then Some l else stored o k.
Proof.
  intros Hno. unfold stored, get, set.
  destruct (k' =? "__proto__")%string eqn:E'; cbn [own protoArray].
  - apply String.eqb_eq in E'. subst k'.
    destruct (k =? "__proto__")%string eqn:E.
    + apply String.eqb_eq in E. subst k. rewrite Hno. reflexivity.
    + destruct (assoc k (own o)); [reflexivity |].
      destruct (arrayHas l k || inb k arrayProtoKeys || inb k objectProtoKeys).
      * destruct (protoArray o) as [a |];
          [destruct (arrayHas a k || inb k arrayProtoKeys ||
                     inb k objectProtoKeys) |
           destruct (inb k objectProtoKeys)]; reflexivity.
      * destruct (protoArray o) as [a |];
          [destruct (arrayHas a k || inb k arrayProtoKeys ||
                     inb k objectProtoKeys) |
           destruct (inb k objectProtoKeys)]; reflexivity.
  - destruct (k =? k')%string eqn:E.
    + apply String.eqb_eq in E. subst k'. rewrite assoc_assocSet_eq.
      reflexivity.
    + apply String.eqb_neq in E. rewrite assoc_assocSet_ne by exact E.
      reflexivity.
Qed.

Lemma set_keeps_no_own_proto (o : obj programme) k l :
  assoc "__proto__"%string (own o) = None ->
  assoc "__proto__"%string (own (set k l o)) = None.
Proof.
  intros Hno. unfold set.
  destruct (k =? "__proto__")%string eqn:E; cbn [own]; [exact Hno |].
  apply String.eqb_neq in E. rewrite assoc_assocSet_ne; [exact Hno | congruence].
Qed.

Lemma stored_emptyObj k : stored emptyObj k = None.
Proof.
  unfold stored, get, emptyObj. cbn [own assoc protoArray].
  destruct (inb k objectProtoKeys); reflexivity.
Qed.

(** *** The order of enumeration does not lose or invent entries *)

Lemma insertIndex_In {V : Type} i (kv : string * V) l x :
  In x (insertIndex i kv l) <-> x = (i, kv) \/ In x l.
Proof.
  induction l as [| [j kv'] l IH]; cbn [insertIndex In].
  - intuition congruence.
  - destruct (i <? j); cbn [In]; [intuition congruence |].
    rewrite IH. intuition congruence.
Qed.

Lemma indexEntries_In {V : Type} (l : list (string * V)) i kv :
  In (i, kv) (indexEntries l) <-> In kv l /\ arrayIndex (fst kv) = Some i.
Proof.
  induction l as [| kv' l IH]; cbn [indexEntries In]; [tauto |].
  destruct (arrayIndex (fst kv')) as [j |] eqn:E.
  - rewrite insertIndex_In, IH. split.
    + intros [[= -> ->] | [H1 H2]]; [tauto | tauto].
    + intros [[-> | H1] H2]; [left; congruence | tauto].
  - rewrite IH. split; [tauto |].
    intros [[-> | H1] H2]; [congruence | tauto].
Qed.

Lemma entries_In {V : Type} (l : list (string * V)) kv :
  In kv (entries l) <-> In kv l.
Proof.
  unfold entries. rewrite in_app_iff, filter_In, in_map_iff. unfold isName.
  split.
  - intros [([i kv'] & E & H) | [H _]]; [| exact H].
    cbn [snd] in E. subst kv'. apply indexEntries_In in H. tauto.
  - intros H. destruct (arrayIndex (fst kv)) as [i |] eqn:E.
    + left. exists (i, kv). split; [reflexivity |].
      apply indexEntries_In. tauto.
    + right. split; [exact H | reflexivity].
Qed.

(** *** The normalised map *)

Lemma stored_fold (toLowerCase : string -> string) es : forall (acc : obj programme) k,
  assoc "__proto__"%string (own acc) = None ->
  stored (fold_left (fun a kv => set (toLowerCase (fst kv)) (snd kv) a) es acc) k =
  match lastLowered toLowerCase k es with
  | Some l => Some l
  | None => stored acc k
  end.
Proof.
  induction es as [| kv es IH]; intros acc k Hno; cbn [fold_left lastLowered].
  - reflexivity.
  - rewrite IH by (apply set_keeps_no_own_proto, Hno).
    destruct (lastLowered toLowerCase k es); [reflexivity |].
    rewrite stored_set by exact Hno.
    rewrite String.eqb_sym.
    destruct (toLowerCase (fst kv) =? k)%string; reflexivity.
Qed.

Lemma stored_normalize (toLowerCase : string -> string) (s : obj programme) k :
  stored (normalize toLowerCase s) k = lastLowered toLowerCase k (entries (own s)).
Proof.
  unfold normalize. rewrite stored_fold by reflexivity.
  rewrite stored_emptyObj. destruct (lastLowered toLowerCase k (entries (own s))); reflexivity.
Qed.

Lemma lastLowered_In (toLowerCase : string -> string) k es l :
  lastLowered toLowerCase k es = Some l ->
  exists k0, In (k0, l) es /\ toLowerCase k0 = k.
Proof.
  induction es as [| [k1 l1] es IH]; cbn [lastLowered fst snd]; [discriminate |].
  destruct (lastLowered toLowerCase k es) as [l' |].
  - intros [= <-]. destruct (IH eq_refl) as (k0 & H & E).
    exists k0. split; [right; exact H | exact E].
  - destruct (toLowerCase k1 =? k)%string eqn:E; [| discriminate].
    apply String.eqb_eq in E. intros [= <-].
    exists k1. split; [left; reflexivity | exact E].
Qed.

Lemma lastLowered_some (toLowerCase : string -> string) k0 l es :
  In (k0, l) es -> exists l', lastLowered toLowerCase (toLowerCase k0) es = Some l'.
Proof.
  induction es as [| [k1 l1] es IH]; cbn [lastLowered fst snd In]; [tauto |].
  intros [[= -> ->] | H].
  - destruct (lastLowered toLowerCase (toLowerCase k0) es); [eauto |].
    rewrite String.eqb_refl. eauto.
  - destruct (IH H) as (l' & ->). eauto.
Qed.

Lemma lastLowered_unique (toLowerCase : string -> string) k0 l es :
  In (k0, l) es ->
  (forall k1 l1, In (k1, l1) es -> toLowerCase k1 = toLowerCase k0 ->
                 l1 = l) ->
  lastLowered toLowerCase (toLowerCase k0) es = Some l.
Proof.
  intros Hin Huniq.
  destruct (lastLowered_some toLowerCase k0 l es Hin) as (l' & E).
  rewrite E. f_equal.
  destruct (lastLowered_In _ _ _ _ E) as (k1 & H1 & E1).
  apply (Huniq k1 l' H1 E1).
Qed.

(** Every array of the normalised map is an array of [schedule], found
    under the lower-cased form of its key. *)
Lemma normalize_from_schedule (toLowerCase : string -> string) (s : obj programme) k l :
  plain s ->
  stored (normalize toLowerCase s) k = Some l ->
  exists k0, stored s k0 = Some l /\ toLowerCase k0 = k.
Proof.
  intros Hpl. rewrite stored_normalize. intros E.
  destruct (lastLowered_In _ _ _ _ E) as (k0 & Hin & Ek).
  exists k0. split; [| exact Ek].
  rewrite stored_plain by exact Hpl.
  apply (proj1 (entries_In _ _)) in Hin.
  apply NoDup_keys_assoc; [apply Hpl | exact Hin].
Qed.

(** Every key of [schedule] is found, lower-cased, in the normalised map. *)
Lemma normalize_covers (toLowerCase : string -> string) (s : obj programme) k0 l :
  plain s ->
  stored s k0 = Some l ->
  exists l', stored (normalize toLowerCase s) (toLowerCase k0) = Some l'.
Proof.
  intros Hpl. rewrite stored_plain by exact Hpl. intros E.
  rewrite stored_normalize. apply (lastLowered_some toLowerCase k0 l).
  apply (proj2 (entries_In _ _)), assoc_In, E.
Qed.

(** A key of [schedule] that shares its lower-cased form with no other
    key is found with its own array. *)
Lemma normalize_unique (toLowerCase : string -> string) (s : obj programme) k0 l :
  plain s ->
  stored s k0 = Some l ->
  (forall k1, stored s k1 <> None -> toLowerCase k1 = toLowerCase k0 -> k1 = k0) ->
  stored (normalize toLowerCase s) (toLowerCase k0) = Some l.
Proof.
  intros Hpl E Huniq. rewrite stored_normalize.
  rewrite stored_plain in E by exact Hpl.
  apply lastLowered_unique.
  - apply (proj2 (entries_In _ _)), assoc_In, E.
  - intros k1 l1 Hin Ek. apply (proj1 (entries_In _ _)) in Hin.
    assert (E1 : assoc k1 (own s) = Some l1).
    { apply NoDup_keys_assoc; [apply Hpl | exact Hin]. }
    assert (k1 = k0).
    { apply Huniq; [| exact Ek]. rewrite stored_plain by exact Hpl. congruence. }
    subst k1. congruence.
Qed.

End LoaderFacts.

(* ===================================================================== *)
(** ** The parser as a whole *)
(* ===================================================================== *)

Module Feeds.

Import JsString JsObject Epg Spec Samples Listings.
Import JsObjectFacts ParserFacts LoaderFacts.

Lemma clash_cases localOffset doc ps :
  (exists p, In p ps /\ clashes localOffset doc p) \/
  (forall p, In p ps -> ~ clashes localOffset doc p).
Proof.
  induction ps as [| p ps [(q & Hq & Hc) | IH]].
  - right. intros p [].
  - left. exists q. split; [right; exact Hq | exact Hc].
  - destruct (clashes_dec localOffset doc p) as [Hp | Hp].
    + left. exists p. split; [left; reflexivity | exact Hp].
    + right. intros q [<- | Hq]; [exact Hp | apply IH, Hq].
Qed.

Lemma listAt_mapOwn_sort (o : obj programme) k :
  listAt (mapOwn sortByStart o) k = sortByStart (listAt o k).
Proof.
  unfold listAt, mapOwn. cbn [own]. rewrite assoc_map.
  destruct (assoc k (own o)); reflexivity.
Qed.

(** The parser raises when an element clashes. *)
Lemma parseEpgXml_raises localOffset doc :
  (exists p, In p (programmeNodes doc) /\ clashes localOffset doc p) ->
  parseEpgXml localOffset doc = Throw TypeError.
Proof.
  intros H. unfold parseEpgXml. cbv zeta.
  rewrite (addProgrammes_clash localOffset doc _ _ _ plain_empty plain_empty H).
  reflexivity.
Qed.

(** The parser returns when no element clashes; each array of either
    index then holds the records of the elements with its key, sorted. *)
Lemma parseEpgXml_returns localOffset doc :
  (forall p, In p (programmeNodes doc) -> ~ clashes localOffset doc p) ->
  exists s b,
    parseEpgXml localOffset doc = Ok (s, b) /\ plain s /\ plain b /\
    (forall k, listAt s k =
               sortByStart (recordsFor localOffset doc (displayKey doc) k
                                       (programmeNodes doc))) /\
    (forall k, listAt b k =
               sortByStart (recordsFor localOffset doc idKey k
                                       (programmeNodes doc))).
Proof.
  intros H. unfold parseEpgXml. cbv zeta.
  destruct (addProgrammes_stored localOffset doc _ _ _ plain_empty plain_empty H)
    as (s & b & E & Ps & Pb & Ls & Lb).
  rewrite E. cbn [bind fst snd].
  exists (mapOwn sortByStart s), (mapOwn sortByStart b).
  split; [reflexivity |].
  split; [apply mapOwn_plain, Ps |]. split; [apply mapOwn_plain, Pb |].
  split; intros k; rewrite listAt_mapOwn_sort.
  - rewrite Ls. reflexivity.
  - rewrite Lb. reflexivity.
Qed.

Lemma parseEpgXml_inv localOffset doc s b :
  parseEpgXml localOffset doc = Ok (s, b) ->
  (forall p, In p (programmeNodes doc) -> ~ clashes localOffset doc p) /\
  plain s /\ plain b /\
  (forall k, listAt s k =
             sortByStart (recordsFor localOffset doc (displayKey doc) k
                                     (programmeNodes doc))) /\
  (forall k, listAt b k =
             sortByStart (recordsFor localOffset doc idKey k
                                     (programmeNodes doc))).
Proof.
  intros E.
  destruct (clash_cases localOffset doc (programmeNodes doc)) as [H | H].
  - rewrite (parseEpgXml_raises _ _ H) in E. discriminate.
  - destruct (parseEpgXml_returns _ _ H) as (s' & b' & E' & R).
    rewrite E' in E. injection E as <- <-. split; [exact H | exact R].
Qed.

Lemma recordsFor_In localOffset doc key k ps p :
  In p (recordsFor localOffset doc key k ps) <->
  exists node times,
    In node ps /\ validTimes localOffset node = Some times /\
    key node = k /\ p = recordFor doc node times.
Proof.
  unfold recordsFor. rewrite in_flat_map. split.
  - intros (node & Hn & Hp).
    destruct (validTimes localOffset node) as [times |] eqn:E; [| destruct Hp].
    destruct (key node =? k)%string eqn:Ek; [| destruct Hp].
    apply String.eqb_eq in Ek. destruct Hp as [<- | []].
    exists node, times. auto.
  - intros (node & times & Hn & E & Ek & ->).
    exists node. split; [exact Hn |].
    rewrite E. apply String.eqb_eq in Ek. rewrite Ek. left. reflexivity.
Qed.

Lemma stored_listAt (o : obj programme) k l :
  plain o -> stored o k = Some l -> listAt o k = l.
Proof.
  intros Hpl. rewrite stored_plain by exact Hpl. unfold listAt.
  intros ->. reflexivity.
Qed.

Lemma listAt_stored (o : obj programme) k p :
  plain o -> In p (listAt o k) -> stored o k = Some (listAt o k).
Proof.
  intros Hpl. rewrite stored_plain by exact Hpl. unfold listAt.
  destruct (assoc k (own o)); [reflexivity | intros []].
Qed.

Lemma get_stored (o : obj programme) k l :
  get o k = Found l <-> stored o k = Some l.
Proof.
  unfold stored. destruct (get o k); split; congruence.
Qed.

(** Every array of the three maps of a loaded feed is sorted. *)
Lemma parsed_sorted (toLowerCase : string -> string) localOffset doc s b k l :
  parseEpgXml localOffset doc = Ok (s, b) ->
  stored s k = Some l \/ stored b k = Some l \/
  stored (normalize toLowerCase s) k = Some l ->
  sortedByStart l.
Proof.
  intros E H.
  destruct (parseEpgXml_inv _ _ _ _ E) as (_ & Ps & Pb & Ls & Lb).
  destruct H as [H | [H | H]].
  - apply stored_listAt in H; [| exact Ps]. rewrite <- H, Ls.
    apply sortByStart_sorted.
  - apply stored_listAt in H; [| exact Pb]. rewrite <- H, Lb.
    apply sortByStart_sorted.
  - destruct (normalize_from_schedule toLowerCase s k l Ps H) as (k0 & H0 & _).
    apply stored_listAt in H0; [| exact Ps]. rewrite <- H0, Ls.
    apply sortByStart_sorted.
Qed.

(** C1, as amended. Every programme record in either index has a start
    and an end that are valid instants: it is the record of an element
    of the feed whose start and stop texts both parse. An element one of
    whose texts does not parse is left out; the two instants are not
    compared. *)
Theorem stored_times_valid localOffset doc s b k l p :
  parseEpgXml localOffset doc = Ok (s, b) ->
  get s k = Found l \/ get b k = Found l ->
  In p l ->
  exists node,
    In node (programmeNodes doc) /\
    parseTimeStr localOffset (orEmpty (p_start node)) = Some (start p) /\
    parseTimeStr localOffset (orEmpty (p_stop node)) = Some (end_ p) /\
    title p = p_title node.
Proof.
  intros E H Hp.
  destruct (parseEpgXml_inv _ _ _ _ E) as (_ & Ps & Pb & Ls & Lb).
  assert (Hrec : exists key,
             In p (recordsFor localOffset doc key k (programmeNodes doc))).
  { destruct H as [H | H]; apply (proj1 (get_stored _ _ _)) in H.
    - exists (displayKey doc). apply stored_listAt in H; [| exact Ps].
      rewrite <- H, Ls in Hp. apply (proj1 (sortByStart_In _ _)) in Hp. exact Hp.
    - exists idKey. apply stored_listAt in H; [| exact Pb].
      rewrite <- H, Lb in Hp. apply (proj1 (sortByStart_In _ _)) in Hp. exact Hp. }
  destruct Hrec as (key & Hrec).
  apply (proj1 (recordsFor_In _ _ _ _ _ _)) in Hrec.
  destruct Hrec as (node & [a c] & Hn & Ev & _ & ->).
  exists node. split; [exact Hn |].
  unfold validTimes in Ev.
  destruct (parseTimeStr localOffset (orEmpty (p_start node))) as [a' |];
    [| discriminate].
  destruct (parseTimeStr localOffset (orEmpty (p_stop node))) as [c' |];
    [| discriminate].
  injection Ev as -> ->. cbn. auto.
Qed.

Lemma stored_times_valid_witness :
  exists node,
    In node (programmeNodes newsFeed) /\
    parseTimeStr 0 (orEmpty (p_start node)) = Some (start news) /\
    parseTimeStr 0 (orEmpty (p_stop node)) = Some (end_ news) /\
    title news = p_title node.
Proof.
  apply (stored_times_valid 0 newsFeed
           (mkObj [("News channel"%string, [news])] None)
           (mkObj [("5"%string, [news])] None) "5"%string [news] news).
  - vm_compute. reflexivity.
  - right. vm_compute. reflexivity.
  - left. reflexivity.
Defined.

(** C1 fails as stated: an element that stops an hour before it starts
    is stored, in both indices. *)
Lemma backwards_programme_stored :
  parseEpgXml 0 backwardsFeed =
    Ok (mkObj [("News channel"%string, [record "News" 1704135600000 1704132000000])] None,
        mkObj [("5"%string, [record "News" 1704135600000 1704132000000])] None) /\
  ~ (start (record "News" 1704135600000 1704132000000) <
     end_ (record "News" 1704135600000 1704132000000)).
Proof. split; [vm_compute; reflexivity | cbn; lia]. Qed.

(** C7. After a feed has been parsed, every array of the index by
    channel name, of the index by channel identifier and of the
    normalised index made from the first is in ascending order of start. *)
Theorem indices_sorted (toLowerCase : string -> string) localOffset doc s b k l :
  parseEpgXml localOffset doc = Ok (s, b) ->
  get s k = Found l \/ get b k = Found l \/
  get (normalize toLowerCase s) k = Found l ->
  sortedByStart l.
Proof.
  intros E H. apply (parsed_sorted toLowerCase localOffset doc s b k l E).
  rewrite <- !get_stored. exact H.
Qed.

(** The three programmes of [twinFeed], listed in the feed with the
    latest first, are in order in the normalised index. *)
Lemma indices_sorted_witness :
  sortedByStart [record "First" 1704132000000 1704135600000;
                 record "Second" 1704132000000 1704133800000;
                 record "Late" 1704139200000 1704142800000].
Proof.
  apply (indices_sorted toLowerCase 0 twinFeed
           (fst (indicesOf 0 twinFeed)) (snd (indicesOf 0 twinFeed))
           "news channel"%string).
  - vm_compute. reflexivity.
  - right. right. vm_compute. reflexivity.
Defined.

(** The parser returns for every feed none of whose elements clashes:
    results are not vacuous. *)
Lemma parseEpgXml_total localOffset doc :
  (forall p, In p (programmeNodes doc) -> ~ clashes localOffset doc p) ->
  exists s b, parseEpgXml localOffset doc = Ok (s, b).
Proof.
  intros H. destruct (parseEpgXml_returns _ _ H) as (s & b & E & _).
  eauto.
Qed.

(** A document without programme elements, such as the one [DOMParser]
    makes of text that is not well-formed, gives two empty indices. *)
Lemma parseEpgXml_no_programmes localOffset doc :
  programmeNodes doc = [] ->
  parseEpgXml localOffset doc = Ok (emptyObj, emptyObj).
Proof. intros H. unfold parseEpgXml. rewrite H. reflexivity. Qed.

(** C8 does not hold of the code: for a feed with a programme of channel
    [constructor] the parser raises a [TypeError]. *)
Theorem parseEpgXml_raises_on_builtin_name :
  parseEpgXml 0 clashFeed = Throw TypeError.
Proof. vm_compute. reflexivity. Qed.

(** C9, as amended. Every programme element with valid times is found,
    after parsing, in the one array of the index by channel name kept
    under the display name of its channel, whichever channel definition
    gave that name; that array is also the array of the normalised index
    under the lower-cased name when no other key of the index has the
    same lower-cased form. *)
Theorem programmes_accumulate (toLowerCase : string -> string) localOffset doc s b node times :
  parseEpgXml localOffset doc = Ok (s, b) ->
  In node (programmeNodes doc) ->
  validTimes localOffset node = Some times ->
  exists l,
    get s (displayKey doc node) = Found l /\
    In (recordFor doc node times) l /\
    ((forall k1, stored s k1 <> None ->
                 toLowerCase k1 = toLowerCase (displayKey doc node) ->
                 k1 = displayKey doc node) ->
     get (normalize toLowerCase s) (toLowerCase (displayKey doc node)) =
       Found l).
Proof.
  intros E Hn Ev.
  destruct (parseEpgXml_inv _ _ _ _ E) as (_ & Ps & _ & Ls & _).
  assert (Hin : In (recordFor doc node times) (listAt s (displayKey doc node))).
  { rewrite Ls. apply (proj2 (sortByStart_In _ _)). apply (proj2 (recordsFor_In _ _ _ _ _ _)).
    exists node, times. auto. }
  pose proof (listAt_stored s _ _ Ps Hin) as Hst.
  exists (listAt s (displayKey doc node)).
  split; [apply (proj2 (get_stored _ _ _)), Hst |]. split; [exact Hin |].
  intros Huniq. apply (proj2 (get_stored _ _ _)).
  apply normalize_unique; assumption.
Qed.

(** In [sharedNameFeed] the channels 1 and 2 are both named News: the
    programme of channel 2 is in the list kept under News, which holds
    the programme of channel 1 before it and is the list of the
    normalised index under news. *)
Lemma programmes_accumulate_witness :
  exists l,
    get (fst (indicesOf 0 sharedNameFeed)) "News" = Found l /\
    In evening l /\
    get (normalize toLowerCase (fst (indicesOf 0 sharedNameFeed))) "news" =
      Found l /\
    l = [morning; evening].
Proof.
  destruct (programmes_accumulate toLowerCase 0 sharedNameFeed
              (fst (indicesOf 0 sharedNameFeed))
              (snd (indicesOf 0 sharedNameFeed))
              (programmeElement "2" "20240101200000 +0000"
                                "20240101210000 +0000" "Evening")
              (1704139200000, 1704142800000))
    as (l & Hget & Hin & Hnorm).
  - vm_compute. reflexivity.
  - right. left. reflexivity.
  - vm_compute. reflexivity.
  - exists l. split; [exact Hget |]. split; [exact Hin |].
    split.
    + apply Hnorm. intros k1 Hk1 _.
      destruct (k1 =? "News")%string eqn:E;
        [apply String.eqb_eq in E; exact E |].
      exfalso. apply Hk1.
      change (fst (indicesOf 0 sharedNameFeed))
        with (mkObj [("News"%string, [morning; evening])] None).
      unfold stored, get. cbn [own assoc protoArray]. rewrite E.
      destruct (inb k1 objectProtoKeys); reflexivity.
    + change (get (fst (indicesOf 0 sharedNameFeed)) "News")
        with (Found [morning; evening]) in Hget.
      injection Hget as <-. reflexivity.
Defined.

(** C9 fails as stated: of two channels named [News] and [NEWS], the
    normalised index keeps under [news] the programmes of the second
    only. *)
Lemma case_variants_overwrite :
  toLowerCase "News" = "news"%string /\
  toLowerCase "NEWS" = "news"%string /\
  get (epgSchedule (loaded caseFeed [])) "News" = Found [morning] /\
  get (epgSchedule (loaded caseFeed [])) "NEWS" = Found [evening] /\
  get (epgScheduleNormalized (loaded caseFeed [])) "news" =
    Found [evening] /\
  ~ In morning [evening].
Proof.
  repeat split; try (vm_compute; reflexivity).
  intros [H | []]. discriminate H.
Qed.

End Feeds.

(* ===================================================================== *)
(** ** The slot matcher *)
(* ===================================================================== *)

Module SlotMatcher.

Import JsString JsObject Epg Spec Samples Listings.
Import JsObjectFacts ParserFacts LoaderFacts Feeds.

(** *** The states the loader leaves *)

(** Whatever the response and whatever the rendering does, the three
    maps are those installed from a pair of plain indices with sorted
    arrays. *)
Lemma loadEpg_installed (toLowerCase : string -> string)
    (rendering : EpgState -> result unit) localOffset response :
  exists s b,
    loadEpg localOffset toLowerCase rendering response =
      install toLowerCase (s, b) /\
    plain s /\ plain b /\
    (forall k l, stored s k = Some l \/ stored b k = Some l \/
                 stored (normalize toLowerCase s) k = Some l ->
                 sortedByStart l).
Proof.
  assert (Hempty : exists s b,
             emptyState = install toLowerCase (s, b) /\ plain s /\ plain b /\
             (forall k l, stored s k = Some l \/ stored b k = Some l \/
                          stored (normalize toLowerCase s) k = Some l ->
                          sortedByStart l)).
  { exists emptyObj, emptyObj. split; [reflexivity |].
    split; [apply plain_empty |]. split; [apply plain_empty |].
    intros k l H.
    change (normalize toLowerCase emptyObj) with (@emptyObj programme) in H.
    rewrite !stored_emptyObj in H. destruct H as [H | [H | H]]; discriminate. }
  unfold loadEpg. destruct response as [doc |]; [| exact Hempty].
  destruct (parseEpgXml localOffset doc) as [[s b] | e] eqn:E; [| exact Hempty].
  destruct (rendering (install toLowerCase (s, b))); [| exact Hempty].
  exists s, b. split; [reflexivity |].
  destruct (parseEpgXml_inv _ _ _ _ E) as (_ & Ps & Pb & _).
  split; [exact Ps |]. split; [exact Pb |].
  intros k l H. apply (parsed_sorted toLowerCase _ _ _ _ k l E H).
Qed.

(** *** The scan *)

Lemma overlaps_overlapping slotStart slotEnd p :
  overlaps slotStart slotEnd p = true <-> overlapping slotStart slotEnd p.
Proof.
  unfold overlaps, overlapping.
  rewrite andb_true_iff, Z.ltb_lt, Z.gtb_ltb, Z.ltb_lt. lia.
Qed.

Lemma overlaps_false slotStart slotEnd p :
  overlaps slotStart slotEnd p = false <-> ~ overlapping slotStart slotEnd p.
Proof.
  rewrite <- overlaps_overlapping.
  destruct (overlaps slotStart slotEnd p); split; congruence.
Qed.

(** [find] stops at the first element that passes. *)
Lemma find_first {A : Type} (f : A -> bool) l p :
  find f l = Some p ->
  exists before after,
    l = before ++ p :: after /\ f p = true /\
    forall q, In q before -> f q = false.
Proof.
  induction l as [| x l IH]; cbn [find]; [discriminate |].
  destruct (f x) eqn:E.
  - intros [= ->]. exists [], l. split; [reflexivity |].
    split; [exact E | intros q []].
  - intros H. destruct (IH H) as (before & after & -> & Hp & Hb).
    exists (x :: before), after. split; [reflexivity |].
    split; [exact Hp |]. intros q [<- | Hq]; auto.
Qed.

Lemma sorted_after before (p : programme) after q :
  sortedByStart (before ++ p :: after) -> In q after -> start p <= start q.
Proof.
  unfold sortedByStart. induction before as [| x before IH]; cbn [app].
  - intros H Hq. inversion H as [| ? ? _ Hall]; subst.
    rewrite Forall_forall in Hall. apply Hall, Hq.
  - intros H Hq. inversion H; subst. auto.
Qed.

(** *** The choice of the candidate list *)

(** A list bound to [list] is empty or one of the arrays of the maps. *)
Lemma candidates_source (toLowerCase : string -> string) st ch l :
  candidates toLowerCase st ch = Found l ->
  l = [] \/
  exists k, stored (epgSchedule st) k = Some l \/
            stored (epgScheduleNormalized st) k = Some l \/
            stored (epgScheduleByTvgId st) k = Some l.
Proof.
  unfold candidates. cbv zeta.
  assert (Hrest :
    match get (epgScheduleNormalized st) (toLowerCase (name ch)) with
    | Undefined =>
        match get (epgSchedule st) (name ch) with
        | Undefined => Found []
        | r => r
        end
    | r => r
    end = Found l ->
    l = [] \/
    exists k, stored (epgSchedule st) k = Some l \/
              stored (epgScheduleNormalized st) k = Some l \/
              stored (epgScheduleByTvgId st) k = Some l).
  { destruct (get (epgScheduleNormalized st) (toLowerCase (name ch))) eqn:E2.
    - intros [= ->]. right. exists (toLowerCase (name ch)).
      right. left. apply get_stored, E2.
    - discriminate.
    - destruct (get (epgSchedule st) (name ch)) eqn:E3.
      + intros [= ->]. right. exists (name ch). left. apply get_stored, E3.
      + discriminate.
      + intros [= <-]. left. reflexivity. }
  destruct (tvgId ch) as [id |]; [| exact Hrest].
  destruct (truthy id); [| exact Hrest].
  destruct (get (epgScheduleByTvgId st) id) eqn:E1; [| discriminate | exact Hrest].
  intros [= ->]. right. exists id. right. right. apply get_stored, E1.
Qed.

Lemma candidates_sorted (toLowerCase : string -> string)
    (rendering : EpgState -> result unit) localOffset response ch l :
  candidates toLowerCase
    (loadEpg localOffset toLowerCase rendering response) ch = Found l ->
  sortedByStart l.
Proof.
  destruct (loadEpg_installed toLowerCase rendering localOffset response)
    as (s & b & -> & Ps & Pb & Hsorted).
  intros H. apply candidates_source in H.
  destruct H as [-> | (k & H)]; [constructor |].
  cbn [install epgSchedule epgScheduleNormalized epgScheduleByTvgId fst snd] in H.
  apply (Hsorted k). tauto.
Qed.

(** The prototype of the normalised map stays as it is unless some key
    of [schedule] lower-cases to [__proto__]. *)
Lemma fold_keeps_prototype (toLowerCase : string -> string) es : forall acc : obj programme,
  protoArray acc = None ->
  (forall k0 l, In (k0, l) es -> toLowerCase k0 <> "__proto__"%string) ->
  protoArray
    (fold_left (fun a kv => set (toLowerCase (fst kv)) (snd kv) a) es acc)
  = None.
Proof.
  induction es as [| [k0 l] es IH]; intros acc Hacc Hes; cbn [fold_left];
    [exact Hacc |].
  apply IH.
  - cbn [fst snd]. unfold set.
    assert (Hk : toLowerCase k0 <> "__proto__"%string)
      by (apply (Hes k0 l); left; reflexivity).
    apply String.eqb_neq in Hk. rewrite Hk. exact Hacc.
  - intros k1 l1 H. apply (Hes k1 l1). right. exact H.
Qed.

Lemma normalize_keeps_prototype (toLowerCase : string -> string) (s : obj programme) :
  (forall k0 l, stored s k0 = Some l -> toLowerCase k0 <> "__proto__"%string) ->
  plain s ->
  protoArray (normalize toLowerCase s) = None.
Proof.
  intros H Ps. unfold normalize. apply fold_keeps_prototype; [reflexivity |].
  intros k0 l Hin. apply (H k0 l).
  rewrite stored_plain by exact Ps.
  apply NoDup_keys_assoc; [apply Ps |].
  apply (proj1 (entries_In _ _)), Hin.
Qed.

(** A read that meets no inherited property gives the array stored
    under the key, or [undefined]. *)
Lemma get_own (o : obj programme) k :
  protoArray o = None -> ~ In k objectProtoKeys ->
  get o k = match stored o k with
            | Some l => Found l
            | None => Undefined
            end.
Proof.
  intros Hp Hk. unfold stored, get. rewrite Hp.
  apply inb_false in Hk. rewrite Hk.
  destruct (assoc k (own o)); reflexivity.
Qed.

(** The selection in an installed state, for a channel whose reads meet
    no inherited property. *)
Lemma candidates_selection (toLowerCase : string -> string) s b ch :
  plain s -> plain b ->
  protoArray (normalize toLowerCase s) = None ->
  (forall id, tvgId ch = Some id -> ~ In id objectProtoKeys) ->
  ~ In (toLowerCase (name ch)) objectProtoKeys ->
  ~ In (name ch) objectProtoKeys ->
  candidates toLowerCase (install toLowerCase (s, b)) ch =
  Found (selection toLowerCase (install toLowerCase (s, b)) ch).
Proof.
  intros Ps Pb Hproto Hid Hlow Hname.
  unfold candidates, selection, tierById.
  cbn [install epgSchedule epgScheduleNormalized epgScheduleByTvgId fst snd].
  assert (Hrest :
    match get (normalize toLowerCase s) (toLowerCase (name ch)) with
    | Undefined =>
        match get s (name ch) with
        | Undefined => Found []
        | r => r
        end
    | r => r
    end =
    Found
      match stored (normalize toLowerCase s) (toLowerCase (name ch)) with
      | Some l => l
      | None =>
          match stored s (name ch) with
          | Some l => l
          | None => []
          end
      end).
  { rewrite (get_own (normalize toLowerCase s) _ Hproto Hlow).
    destruct (stored (normalize toLowerCase s) (toLowerCase (name ch)));
      [reflexivity |].
    rewrite (get_own s _ (proj1 Ps) Hname).
    destruct (stored s (name ch)); reflexivity. }
  destruct (tvgId ch) as [id |]; [| exact Hrest].
  destruct (truthy id); [| exact Hrest].
  rewrite (get_own b id (proj1 Pb) (Hid id eq_refl)).
  destruct (stored b id); [reflexivity | exact Hrest].
Qed.

(** A list is selected for every channel whose identifier, name and
    lower-cased name are no names of built-ins, in a state whose
    normalised map has kept its prototype. *)
Lemma candidates_selected (toLowerCase : string -> string)
    (rendering : EpgState -> result unit) localOffset response ch :
  protoArray (epgScheduleNormalized
                (loadEpg localOffset toLowerCase rendering response)) = None ->
  (forall id, tvgId ch = Some id -> ~ In id objectProtoKeys) ->
  ~ In (toLowerCase (name ch)) objectProtoKeys ->
  ~ In (name ch) objectProtoKeys ->
  exists l,
    candidates toLowerCase
      (loadEpg localOffset toLowerCase rendering response) ch = Found l.
Proof.
  destruct (loadEpg_installed toLowerCase rendering localOffset response)
    as (s & b & -> & Ps & Pb & _).
  cbn [install epgScheduleNormalized fst snd].
  intros Hproto Hid Hlow Hname.
  rewrite (candidates_selection toLowerCase s b ch Ps Pb Hproto Hid Hlow Hname).
  eauto.
Qed.

(** For every channel for which a candidate list is selected, in every
    state the loader leaves and for every slot, the matcher returns the
    first programme of the list, which is in ascending order of start,
    that overlaps the half-open slot: none exactly when no candidate
    overlaps. *)
Lemma first_overlap (toLowerCase : string -> string)
    (rendering : EpgState -> result unit) localOffset response ch
    slotStart slotEnd list :
  candidates toLowerCase
    (loadEpg localOffset toLowerCase rendering response) ch = Found list ->
  sortedByStart list /\
  exists r,
    findProgrammeForSlot toLowerCase
      (loadEpg localOffset toLowerCase rendering response) ch
      slotStart slotEnd = Ok r /\
    (r = None <-> forall q, In q list -> ~ overlapping slotStart slotEnd q) /\
    (forall p, r = Some p ->
       overlapping slotStart slotEnd p /\
       (exists before after,
          list = before ++ p :: after /\
          forall q, In q before -> ~ overlapping slotStart slotEnd q) /\
       (forall q, In q list -> overlapping slotStart slotEnd q ->
                  start p <= start q)).
Proof.
  intros Hc. pose proof (candidates_sorted _ _ _ _ _ _ Hc) as Hsorted.
  split; [exact Hsorted |].
  unfold findProgrammeForSlot. rewrite Hc.
  exists (find (overlaps slotStart slotEnd) list).
  split; [reflexivity |]. split.
  - split.
    + intros Hnone q Hq. apply overlaps_false.
      apply (find_none _ _ Hnone q Hq).
    + intros Hall.
      destruct (find (overlaps slotStart slotEnd) list) as [p |] eqn:E;
        [| reflexivity].
      apply find_some in E. destruct E as [Hp Ho].
      apply overlaps_overlapping in Ho. destruct (Hall p Hp Ho).
  - intros p E.
    destruct (find_first _ _ _ E) as (before & after & El & Hp & Hb).
    apply overlaps_overlapping in Hp.
    split; [exact Hp |]. split.
    + exists before, after. split; [exact El |].
      intros q Hq. apply overlaps_false, Hb, Hq.
    + intros q Hq Ho. rewrite El in Hq, Hsorted.
      apply in_app_or in Hq. destruct Hq as [Hq | [<- | Hq]].
      * apply Hb in Hq. apply overlaps_false in Hq. contradiction.
      * lia.
      * apply (sorted_after before p after q Hsorted Hq).
Qed.

(** What [loadEpg] leaves of [newsFeed], whatever the rendering does. *)
Lemma newsFeed_loaded (rendering : EpgState -> result unit) :
  loadEpg 0 toLowerCase rendering (Some newsFeed) =
    install toLowerCase (mkObj [("News channel"%string, [news])] None,
                         mkObj [("5"%string, [news])] None) \/
  loadEpg 0 toLowerCase rendering (Some newsFeed) = emptyState.
Proof.
  unfold loadEpg.
  replace (parseEpgXml 0 newsFeed)
    with (@Ok (obj programme * obj programme)
            (mkObj [("News channel"%string, [news])] None,
             mkObj [("5"%string, [news])] None))
    by (vm_compute; reflexivity).
  destruct (rendering _); [left | right]; reflexivity.
Qed.

(** C3 does not hold of the code: for a channel of the playlist named
    [constructor] the matcher raises a [TypeError] for every slot, in
    the guide loaded from the sample feed as in the guide that is empty,
    where the claim has it return the first overlapping programme or
    none. *)
Theorem findProgrammeForSlot_raises_on_builtin_name
  (rendering : EpgState -> result unit) slotStart slotEnd :
  findProgrammeForSlot toLowerCase
    (loadEpg 0 toLowerCase rendering (Some newsFeed)) builtinChannel
    slotStart slotEnd = Throw TypeError /\
  findProgrammeForSlot toLowerCase emptyState builtinChannel
    slotStart slotEnd = Throw TypeError.
Proof.
  split; [| reflexivity].
  destruct (newsFeed_loaded rendering) as [-> | ->]; reflexivity.
Qed.

(** One channel named as a built-in is enough to leave the guide empty
    for all: the rendering inside [loadEpg] raises on its row, and the
    maps just installed are emptied. *)
Example builtin_name_empties_guide :
  loaded newsFeed [channelFive] <> emptyState /\
  loaded newsFeed [channelFive; builtinChannel] = emptyState /\
  findProgrammeForSlot toLowerCase (loaded newsFeed [channelFive; builtinChannel])
    channelFive 1704151800000 1704153600000 = Ok None.
Proof.
  repeat split; try (vm_compute; reflexivity). vm_compute. discriminate.
Qed.

(** The two scenarios of the specification: the news is found in the
    slot 18:30 to 19:00 at -0500 and nothing in the slot after it, by
    identifier and, with other letter case, by name. *)
Example news_in_slot :
  findProgrammeForSlot toLowerCase (loaded newsFeed [channelFive; newsChannel])
    channelFive 1704151800000 1704153600000 = Ok (Some news) /\
  findProgrammeForSlot toLowerCase (loaded newsFeed [channelFive; newsChannel])
    channelFive 1704153600000 1704155400000 = Ok None /\
  findProgrammeForSlot toLowerCase (loaded newsFeed [channelFive; newsChannel])
    newsChannel 1704151800000 1704153600000 = Ok (Some news).
Proof. repeat split; vm_compute; reflexivity. Qed.

(** C4, as amended. In every state the loader leaves the candidate list
    is that of the first tier to hold one, no tiers being merged. The
    array of the index by identifier under the identifier of the channel
    is taken whenever the identifier is a string that is not empty and a
    key of that index, whatever the name matches; an identifier that is
    the empty string counts as none; the index by name holds an array
    under the name as written only if the normalised index holds one
    under the lower-cased name. And for a channel whose identifier, name
    and lower-cased name are no names of properties of
    [Object.prototype], in a guide none of whose display names
    lower-cases to [__proto__], the list is that of the index by
    identifier, else that of the normalised index under the lower-cased
    name, else that of the index by name, else the empty list. *)
Theorem candidates_tiers (toLowerCase : string -> string)
    (rendering : EpgState -> result unit) localOffset response ch :
  (forall id l,
     tvgId ch = Some id -> id <> ""%string ->
     stored (epgScheduleByTvgId
               (loadEpg localOffset toLowerCase rendering response)) id =
       Some l ->
     candidates toLowerCase
       (loadEpg localOffset toLowerCase rendering response) ch = Found l) /\
  (tvgId ch = Some ""%string ->
   candidates toLowerCase
     (loadEpg localOffset toLowerCase rendering response) ch =
   candidates toLowerCase
     (loadEpg localOffset toLowerCase rendering response)
     {| name := name ch; tvgId := None |}) /\
  (forall l,
     stored (epgSchedule
               (loadEpg localOffset toLowerCase rendering response))
            (name ch) = Some l ->
     exists l2,
       stored (epgScheduleNormalized
                 (loadEpg localOffset toLowerCase rendering response))
              (toLowerCase (name ch)) = Some l2) /\
  ((forall k0 l,
      stored (epgSchedule
                (loadEpg localOffset toLowerCase rendering response)) k0 =
        Some l ->
      toLowerCase k0 <> "__proto__"%string) ->
   (forall id, tvgId ch = Some id -> ~ In id objectProtoKeys) ->
   ~ In (toLowerCase (name ch)) objectProtoKeys ->
   ~ In (name ch) objectProtoKeys ->
   candidates toLowerCase
     (loadEpg localOffset toLowerCase rendering response) ch =
   Found (selection toLowerCase
            (loadEpg localOffset toLowerCase rendering response) ch)).
Proof.
  destruct (loadEpg_installed toLowerCase rendering localOffset response)
    as (s & b & -> & Ps & Pb & _).
  cbn [install epgSchedule epgScheduleNormalized epgScheduleByTvgId fst snd].
  split; [| split; [| split]].
  - intros id l Eid Hid Hst. unfold candidates. cbv zeta. rewrite Eid.
    assert (Ht : truthy id = true) by (destruct id; [congruence | reflexivity]).
    rewrite Ht.
    cbn [install epgSchedule epgScheduleNormalized epgScheduleByTvgId fst snd].
    apply get_stored in Hst. rewrite Hst. reflexivity.
  - intros Eid. unfold candidates. cbv zeta. rewrite Eid. reflexivity.
  - intros l Hl. apply (normalize_covers toLowerCase s (name ch) l Ps Hl).
  - intros Hkeys Hid Hlow Hname.
    apply (candidates_selection toLowerCase s b ch Ps Pb); try assumption.
    apply normalize_keeps_prototype; assumption.
Qed.

Ltac not_reserved :=
  let H := fresh in
  intros H; vm_compute in H;
  repeat (destruct H as [H | H]; [discriminate H |]); exact H.

(** The only key of an object with one own array. *)
Lemma stored_single k0 (l0 : list programme) k l :
  stored (mkObj [(k0, l0)] None) k = Some l -> k = k0.
Proof.
  unfold stored, get. cbn [own assoc protoArray].
  destruct (k =? k0)%string eqn:E; [intros _; apply String.eqb_eq, E |].
  destruct (inb k objectProtoKeys); discriminate.
Qed.

(** The four ways of the selection, in the guide of the sample feed with
    three channels on the page and in the guide of a feed whose channel
    has the empty identifier: by identifier, by lower-cased name, the
    empty list for a channel no feed knows, and the empty list for the
    channel with the empty identifier though the empty string is a key
    of the index by identifier. *)
Lemma candidates_tiers_witness :
  candidates toLowerCase
    (loaded newsFeed [channelFive; newsChannel; otherChannel]) channelFive =
    Found [news] /\
  candidates toLowerCase
    (loaded newsFeed [channelFive; newsChannel; otherChannel]) newsChannel =
    Found [news] /\
  candidates toLowerCase
    (loaded newsFeed [channelFive; newsChannel; otherChannel]) otherChannel =
    Found [] /\
  stored (epgScheduleByTvgId (loaded emptyIdFeed [channelEmptyId])) "" =
    Some [morning] /\
  candidates toLowerCase (loaded emptyIdFeed [channelEmptyId]) channelEmptyId =
    Found [].
Proof.
  assert (Hnews : forall k0 l,
            stored (epgSchedule
                      (loaded newsFeed [channelFive; newsChannel; otherChannel]))
                   k0 = Some l ->
            toLowerCase k0 <> "__proto__"%string).
  { intros k0 l H.
    change (epgSchedule (loaded newsFeed [channelFive; newsChannel; otherChannel]))
      with (mkObj [("News channel"%string, [news])] None) in H.
    apply stored_single in H. subst k0. vm_compute. discriminate. }
  assert (Hempty : forall k0 l,
            stored (epgSchedule (loaded emptyIdFeed [channelEmptyId])) k0 =
              Some l ->
            toLowerCase k0 <> "__proto__"%string).
  { intros k0 l H.
    change (epgSchedule (loaded emptyIdFeed [channelEmptyId]))
      with (mkObj [(""%string, [morning])] None) in H.
    apply stored_single in H. subst k0. vm_compute. discriminate. }
  split; [| split; [| split; [| split]]].
  - apply (proj1 (candidates_tiers toLowerCase
                    (Guide.rendering toLowerCase
                       [channelFive; newsChannel; otherChannel] None
                       1704110400000 1704110400000)
                    0 (Some newsFeed) channelFive) "5"%string [news]).
    + reflexivity.
    + discriminate.
    + vm_compute. reflexivity.
  - apply (proj2 (proj2 (proj2
             (candidates_tiers toLowerCase
                (Guide.rendering toLowerCase
                   [channelFive; newsChannel; otherChannel] None
                   1704110400000 1704110400000)
                0 (Some newsFeed) newsChannel)))).
    + exact Hnews.
    + intros id H. discriminate H.
    + not_reserved.
    + not_reserved.
  - apply (proj2 (proj2 (proj2
             (candidates_tiers toLowerCase
                (Guide.rendering toLowerCase
                   [channelFive; newsChannel; otherChannel] None
                   1704110400000 1704110400000)
                0 (Some newsFeed) otherChannel)))).
    + exact Hnews.
    + intros id H. discriminate H.
    + not_reserved.
    + not_reserved.
  - vm_compute. reflexivity.
  - apply (proj2 (proj2 (proj2
             (candidates_tiers toLowerCase
                (Guide.rendering toLowerCase [channelEmptyId] None
                   1704110400000 1704110400000)
                0 (Some emptyIdFeed) channelEmptyId)))).
    + exact Hempty.
    + intros id H. injection H as <-. not_reserved.
    + not_reserved.
    + not_reserved.
Defined.

(** C4 fails as stated: an identifier that is the empty string is not
    null and may be a key of the index by identifier, yet the first tier
    is passed over. *)
Lemma empty_identifier_skipped :
  tvgId channelEmptyId = Some ""%string /\
  stored (epgScheduleByTvgId (loaded emptyIdFeed [channelEmptyId])) "" =
    Some [morning] /\
  specCandidates toLowerCase (loaded emptyIdFeed [channelEmptyId])
    channelEmptyId = [morning] /\
  candidates toLowerCase (loaded emptyIdFeed [channelEmptyId]) channelEmptyId =
    Found [].
Proof. repeat split; vm_compute; reflexivity. Qed.

(** C10 does not hold of the code: the programmes of channel 5 are found
    by the matcher through the identifier, and the presence test, which
    reads the index by name under the exact name only, reports that the
    channel has no guide data at all. *)
Theorem presence_test_misses_identifier :
  findProgrammeForSlot toLowerCase (loaded newsFeed [channelFive]) channelFive
    1704151800000 1704153600000 = Ok (Some news) /\
  hasSchedule (loaded newsFeed [channelFive]) channelFive = false /\
  noProgrammeText (loaded newsFeed [channelFive]) channelFive =
    "No EPG data available"%string.
Proof. repeat split; vm_compute; reflexivity. Qed.

End SlotMatcher.

(* ===================================================================== *)
(** ** The window, the grid and the player *)
(* ===================================================================== *)

Module GuideFacts.

Import JsString JsDate JsObject Epg Spec Samples Listings.
Import LocalDate Guide TimeWindow.
Import ParseTimeStrFacts SlotMatcher.

(** *** Alignment to the half hour *)

Ltac unfold_time :=
  unfold HourFromTime, MinFromTime, SecFromTime, msFromTime, Day, MakeDate,
    MakeTime, msPerDay, msPerHour, msPerMinute, msPerSecond in *.

(** On a host whose zone keeps one offset, aligning takes off what the
    local time is past the half hour. *)
Lemma align_fixedZone offset tv :
  Z.abs offset <= 86400000 -> Z.abs tv <= 8500000000000000 ->
  alignTimeToHalfHour (fixedZone offset) (Some tv) =
  Some (tv - (tv + offset) mod 1800000).
Proof.
  intros Hc Ht.
  unfold alignTimeToHalfHour, setSeconds, setMinutes, getMinutes, LocalTime,
    UTCofLocal, fixedZone, halfHourMinutes. cbv zeta.
  set (lt := tv + offset).
  assert (E1 : MakeDate (Day lt) (MakeTime (HourFromTime lt) (MinFromTime lt) 0 0)
               = lt - lt mod 60000).
  { unfold_time. Z.div_mod_to_equations. lia. }
  rewrite E1.
  rewrite TimeClip_small by (subst lt; Z.div_mod_to_equations; lia).
  replace (lt - lt mod 60000 - offset + offset) with (lt - lt mod 60000) by lia.
  set (lt1 := lt - lt mod 60000).
  assert (E2 : MakeDate (Day lt1)
                 (MakeTime (HourFromTime lt1)
                           (MinFromTime lt1 / 30 * 30)
                           (SecFromTime lt1) (msFromTime lt1))
               = lt - lt mod 1800000).
  { subst lt1. unfold_time. Z.div_mod_to_equations. lia. }
  rewrite E2.
  rewrite TimeClip_small by (subst lt; Z.div_mod_to_equations; lia).
  f_equal. subst lt. lia.
Qed.

(** X1. On a host whose zone keeps one offset, [alignTimeToHalfHour]
    of a valid date gives a valid date that is not later than the date
    and less than thirty minutes before it, whose local minute is 0 or 30
    and whose local seconds and milliseconds are zero, and which aligning
    again leaves as it is. *)
Theorem alignTimeToHalfHour_floor offset tv :
  Z.abs offset <= 86400000 -> clockValue tv ->
  exists a,
    alignTimeToHalfHour (fixedZone offset) (Some tv) = Some a /\
    a <= tv < a + 30 * 60000 /\
    (getMinutes (fixedZone offset) a = 0 \/
     getMinutes (fixedZone offset) a = 30) /\
    getSeconds (fixedZone offset) a = 0 /\
    msFromTime (LocalTime (fixedZone offset) a) = 0 /\
    alignTimeToHalfHour (fixedZone offset) (Some a) = Some a.
Proof.
  intros Hc Ht. unfold clockValue in Ht.
  exists (tv - (tv + offset) mod 1800000).
  split; [apply align_fixedZone; lia |].
  split; [Z.div_mod_to_equations; lia |].
  split; [| split; [| split]].
  - unfold getMinutes, LocalTime, fixedZone. unfold_time.
    Z.div_mod_to_equations. lia.
  - unfold getSeconds, LocalTime, fixedZone. unfold_time.
    Z.div_mod_to_equations. lia.
  - unfold LocalTime, fixedZone. unfold_time. Z.div_mod_to_equations. lia.
  - rewrite align_fixedZone by (try assumption; Z.div_mod_to_equations; lia).
    f_equal. Z.div_mod_to_equations. lia.
Qed.

Lemma alignTimeToHalfHour_floor_witness :
  exists a,
    alignTimeToHalfHour (fixedZone 20700000) (Some 1704150012345) = Some a /\
    a <= 1704150012345 < a + 30 * 60000 /\
    (getMinutes (fixedZone 20700000) a = 0 \/
     getMinutes (fixedZone 20700000) a = 30) /\
    getSeconds (fixedZone 20700000) a = 0 /\
    msFromTime (LocalTime (fixedZone 20700000) a) = 0 /\
    alignTimeToHalfHour (fixedZone 20700000) (Some a) = Some a.
Proof.
  apply (alignTimeToHalfHour_floor 20700000 1704150012345).
  - cbn. lia.
  - unfold clockValue. cbn. lia.
Defined.

(** What a navigation handler leaves of a set window start: the start,
    or the start moved by the delta of the action. *)
Lemma click_start a renderGuide now tws a' :
  fst (click a renderGuide now (Some tws)) = Some a' ->
  a' = tws \/ a' = tws + deltaMinutes a * 60000.
Proof.
  destruct a; cbn [click deltaMinutes];
    unfold scrollBackBtn_click, scrollForwardBtn_click,
      scrollBackHourBtn_click, scrollForwardHourBtn_click; cbv zeta;
    match goal with
    | |- context [if ?c then (Some tws, _) else _] => destruct c
    end; cbn [fst]; intros [= <-]; lia.
Qed.

(** X2. On a host whose zone keeps one offset, the window start is on a
    local half hour throughout a session: the first rendering sets it
    so, and the four navigation handlers keep it so, committed or
    rejected. The time of every column of the timeline is then on a
    local half hour too: its label shows minute 00 or 30. *)
Theorem window_start_aligned offset a :
  Z.abs offset <= 86400000 ->
  reachableStart (fixedZone offset) a ->
  (a + offset) mod (30 * 60000) = 0 /\
  forall i,
    (getMinutes (fixedZone offset) (slotStart a i) = 0 \/
     getMinutes (fixedZone offset) (slotStart a i) = 30) /\
    getSeconds (fixedZone offset) (slotStart a i) = 0.
Proof.
  intros Hc H.
  assert (Ha : (a + offset) mod (30 * 60000) = 0).
  { induction H as [A channels now a Hnow Hr | action r now a a' H IH Hclick].
    - unfold renderGuide_start in Hr. destruct channels; [discriminate |].
      assert (Ha : alignTimeToHalfHour (fixedZone offset) (Some now) = Some a)
        by congruence.
      unfold clockValue in Hnow.
      rewrite align_fixedZone in Ha by lia. injection Ha as <-.
      Z.div_mod_to_equations. lia.
    - apply click_start in Hclick. destruct Hclick as [-> | ->]; [exact IH |].
      destruct action; cbn [deltaMinutes]; Z.div_mod_to_equations; lia. }
  split; [exact Ha |]. intros i.
  unfold getMinutes, getSeconds, LocalTime, fixedZone, slotStart,
    halfHourMinutes.
  unfold_time. Z.div_mod_to_equations. lia.
Qed.

Lemma window_start_aligned_witness :
  (1704103200000 + -18000000) mod (30 * 60000) = 0 /\
  forall i,
    (getMinutes (fixedZone (-18000000)) (slotStart 1704103200000 i) = 0 \/
     getMinutes (fixedZone (-18000000)) (slotStart 1704103200000 i) = 30) /\
    getSeconds (fixedZone (-18000000)) (slotStart 1704103200000 i) = 0.
Proof.
  apply (window_start_aligned (-18000000) 1704103200000).
  - cbn. lia.
  - apply (reach_click _ Back12 (Ok tt) 1704150012345 1704146400000).
    + apply (reach_render _ unit [tt] 1704147012345).
      * unfold clockValue. cbn. lia.
      * vm_compute. reflexivity.
    + vm_compute. reflexivity.
Defined.

(** *** The columns of the grid *)

(** X3. The columns of the grid tile the window: every instant from the
    window start up to the end shown in the header lies in the slot of
    exactly one column, the first slot starts at the window start and
    each slot ends where the next one starts. *)
Theorem slots_tile_window timeWindowStart :
  slotStart timeWindowStart 0 = timeWindowStart /\
  slotEnd timeWindowStart (numCols - 1) = endSlot timeWindowStart /\
  (forall i, slotEnd timeWindowStart i = slotStart timeWindowStart (i + 1)) /\
  (forall t, timeWindowStart <= t < endSlot timeWindowStart ->
     exists i,
       0 <= i < numCols /\
       slotStart timeWindowStart i <= t < slotEnd timeWindowStart i /\
       forall j, slotStart timeWindowStart j <= t < slotEnd timeWindowStart j ->
                 j = i).
Proof.
  unfold slotEnd, endSlot, slotStart, halfHourMinutes.
  change numCols with 4. change windowHours with 2.
  split; [lia |]. split; [lia |]. split; [intros i; lia |].
  intros t Ht. exists ((t - timeWindowStart) / 1800000).
  split; [Z.div_mod_to_equations; lia |].
  split; [Z.div_mod_to_equations; lia |].
  intros j Hj. Z.div_mod_to_equations. lia.
Qed.

(** [find] passes over a prefix none of which passes the test. *)
Lemma find_skip {A : Type} (f : A -> bool) before l :
  (forall q, In q before -> f q = false) ->
  find f (before ++ l) = find f l.
Proof.
  induction before as [| x before IH]; intros H; cbn [app find];
    [reflexivity |].
  rewrite (H x (or_introl eq_refl)). apply IH.
  intros q Hq. apply H. right. exact Hq.
Qed.

Lemma sorted_before before (p : programme) after q :
  sortedByStart (before ++ p :: after) -> In q before -> start q <= start p.
Proof.
  unfold sortedByStart. induction before as [| x before IH]; cbn [app];
    [intros _ [] |].
  intros H [<- | Hq].
  - inversion H as [| ? ? _ Hall]; subst.
    rewrite Forall_forall in Hall. apply Hall.
    apply in_or_app. right. left. reflexivity.
  - inversion H; subst. auto.
Qed.

(** A programme found for a slot is found again for every slot that
    starts no earlier and that it overlaps. *)
Lemma found_again (toLowerCase : string -> string)
    (rendering : EpgState -> result unit) localOffset response ch
    s1 e1 s2 e2 p :
  findProgrammeForSlot toLowerCase
    (loadEpg localOffset toLowerCase rendering response) ch s1 e1 =
    Ok (Some p) ->
  s1 <= s2 -> overlapping s2 e2 p ->
  findProgrammeForSlot toLowerCase
    (loadEpg localOffset toLowerCase rendering response) ch s2 e2 =
    Ok (Some p).
Proof.
  unfold findProgrammeForSlot.
  destruct (candidates toLowerCase
              (loadEpg localOffset toLowerCase rendering response) ch)
    as [l | |] eqn:Hc;
    [| discriminate | discriminate].
  pose proof (candidates_sorted _ _ _ _ _ _ Hc) as Hsorted.
  intros [= E] Hs Ho.
  destruct (find_first _ _ _ E) as (before & after & -> & Hp & Hb).
  apply overlaps_overlapping in Hp.
  f_equal. rewrite find_skip.
  - cbn [find]. apply overlaps_overlapping in Ho. rewrite Ho. reflexivity.
  - intros q Hq. apply overlaps_false. intros [Hq1 Hq2].
    pose proof (sorted_before _ _ _ _ Hsorted Hq) as Hle.
    specialize (Hb q Hq). apply overlaps_false in Hb. apply Hb.
    unfold overlapping in *. lia.
Qed.

Lemma found_overlaps (toLowerCase : string -> string) st ch s e p :
  findProgrammeForSlot toLowerCase st ch s e = Ok (Some p) -> overlapping s e p.
Proof.
  unfold findProgrammeForSlot.
  destruct (candidates toLowerCase st ch); [| discriminate | discriminate].
  intros [= E]. apply find_some in E. apply overlaps_overlapping, E.
Qed.

(** X4. In every state the loader leaves, a programme shown in a column
    of a row is repeated in every later column whose slot it overlaps;
    so the columns that show one programme are next to each other. *)
Theorem cells_repeat (toLowerCase : string -> string)
    (rendering : EpgState -> result unit) localOffset response ch
    timeWindowStart i k p :
  cell toLowerCase (loadEpg localOffset toLowerCase rendering response)
       ch timeWindowStart i = Ok (Some p) ->
  i <= k ->
  (overlapping (slotStart timeWindowStart k) (slotEnd timeWindowStart k) p ->
   cell toLowerCase (loadEpg localOffset toLowerCase rendering response)
        ch timeWindowStart k = Ok (Some p)) /\
  (forall j, k <= j ->
     cell toLowerCase (loadEpg localOffset toLowerCase rendering response)
          ch timeWindowStart j = Ok (Some p) ->
     cell toLowerCase (loadEpg localOffset toLowerCase rendering response)
          ch timeWindowStart k = Ok (Some p)).
Proof.
  unfold cell. intros Hi Hk.
  assert (R : overlapping (slotStart timeWindowStart k)
                          (slotEnd timeWindowStart k) p ->
              findProgrammeForSlot toLowerCase (loadEpg localOffset toLowerCase rendering response) ch
                (slotStart timeWindowStart k) (slotEnd timeWindowStart k) =
              Ok (Some p)).
  { intros Ho. apply (found_again _ _ _ _ _ _ _ _ _ _ Hi); [| exact Ho].
    unfold slotStart, halfHourMinutes. lia. }
  split; [exact R |]. intros j Hj Hcell. apply R.
  apply found_overlaps in Hi, Hcell.
  unfold overlapping, slotEnd, slotStart, halfHourMinutes in *. lia.
Qed.

Lemma cells_repeat_witness :
  (overlapping (slotStart 1704150000000 1) (slotEnd 1704150000000 1) news ->
   cell toLowerCase (loaded newsFeed [channelFive]) channelFive 1704150000000 1 = Ok (Some news)) /\
  (forall j, 1 <= j ->
     cell toLowerCase (loaded newsFeed [channelFive]) channelFive 1704150000000 j = Ok (Some news) ->
     cell toLowerCase (loaded newsFeed [channelFive]) channelFive 1704150000000 1 = Ok (Some news)).
Proof.
  apply (cells_repeat toLowerCase
           (Guide.rendering toLowerCase [channelFive] None
                            1704110400000 1704110400000)
           0 (Some newsFeed) channelFive 1704150000000 0 1 news).
  - vm_compute. reflexivity.
  - lia.
Defined.

(** *** Now playing *)

(** X5. A programme found as playing now has begun and has not ended:
    [now] lies in its half-open interval, so the progress updater
    divides by a positive duration and the elapsed time is within it,
    and the clamp of the percentage to 0 and 100 changes nothing. *)
Theorem nowPlaying_contains_now (toLowerCase : string -> string) st ch now p :
  nowPlaying toLowerCase st ch now = Ok (Some p) ->
  start p <= now < end_ p /\
  0 < totalMs p /\ 0 <= elapsedMs p now < totalMs p.
Proof.
  unfold nowPlaying, findProgrammeForSlot, elapsedMs, totalMs.
  destruct (candidates toLowerCase st ch); [| discriminate | discriminate].
  intros [= E]. apply find_some in E. destruct E as [_ E].
  apply overlaps_overlapping in E. unfold overlapping in E. lia.
Qed.

Lemma nowPlaying_contains_now_witness :
  start news <= 1704151800000 < end_ news /\
  0 < totalMs news /\ 0 <= elapsedMs news 1704151800000 < totalMs news.
Proof.
  apply (nowPlaying_contains_now toLowerCase (loaded newsFeed [channelFive])
           channelFive).
  vm_compute. reflexivity.
Defined.

(** *** Channel surfing *)

Lemma nextIndex_value current length :
  0 <= current < length ->
  nextIndex current length =
  Some (if current + 1 =? length then 0 else current + 1).
Proof.
  intros H. unfold nextIndex.
  replace (length =? 0) with false by (symmetry; apply Z.eqb_neq; lia).
  f_equal. rewrite Z.rem_mod_nonneg by lia.
  destruct (current + 1 =? length) eqn:A.
  - apply Z.eqb_eq in A. rewrite A. apply Z.mod_same. lia.
  - apply Z.eqb_neq in A. apply Z.mod_small. lia.
Qed.

Lemma prevIndex_value current length :
  0 <= current < length ->
  prevIndex current length =
  Some (if current =? 0 then length - 1 else current - 1).
Proof.
  intros H. unfold prevIndex.
  replace (length =? 0) with false by (symmetry; apply Z.eqb_neq; lia).
  f_equal. rewrite Z.rem_mod_nonneg by lia.
  destruct (current =? 0) eqn:A.
  - apply Z.eqb_eq in A. subst current.
    replace (0 - 1 + length) with (length - 1) by lia.
    apply Z.mod_small. lia.
  - apply Z.eqb_neq in A.
    replace (current - 1 + length) with (current - 1 + 1 * length) by lia.
    rewrite Z.mod_add by lia. apply Z.mod_small. lia.
Qed.

(** X6. With a channel playing, the next and the previous channel are
    channels of the list, so that [playChannel] does not turn them
    down; each undoes the other, and both wrap around: after the last
    channel comes the first. *)
Theorem surf_wraps current length :
  0 <= current < length ->
  exists next prev,
    nextIndex current length = Some next /\
    prevIndex current length = Some prev /\
    0 <= next < length /\ 0 <= prev < length /\
    prevIndex next length = Some current /\
    nextIndex prev length = Some current /\
    (current = length - 1 -> next = 0) /\
    (current = 0 -> prev = length - 1).
Proof.
  intros H.
  exists (if current + 1 =? length then 0 else current + 1),
         (if current =? 0 then length - 1 else current - 1).
  split; [apply nextIndex_value; exact H |].
  split; [apply prevIndex_value; exact H |].
  destruct (current + 1 =? length) eqn:A; destruct (current =? 0) eqn:B;
    rewrite ?Z.eqb_eq, ?Z.eqb_neq in *;
    (split; [lia |]); (split; [lia |]);
    (split; [rewrite prevIndex_value by lia | split;
             [rewrite nextIndex_value by lia | lia]]);
    f_equal;
    match goal with
    | |- (if ?c then _ else _) = _ => destruct c eqn:C
    end;
    rewrite ?Z.eqb_eq, ?Z.eqb_neq in *; lia.
Qed.

Lemma surf_wraps_witness :
  exists next prev,
    nextIndex 2 3 = Some next /\
    prevIndex 2 3 = Some prev /\
    0 <= next < 3 /\ 0 <= prev < 3 /\
    prevIndex next 3 = Some 2 /\
    nextIndex prev 3 = Some 2 /\
    (2 = 3 - 1 -> next = 0) /\
    (2 = 0 -> prev = 3 - 1).
Proof. apply (surf_wraps 2 3). lia. Defined.

(** *** Time labels *)

Lemma minutesOfDay_In h m :
  0 <= h <= 23 -> 0 <= m <= 59 -> In (h, m) minutesOfDay.
Proof.
  intros Hh Hm. unfold minutesOfDay. apply in_flat_map.
  exists (Z.to_nat h). split; [apply in_seq; lia |].
  apply in_map_iff. exists (Z.to_nat m).
  split; [f_equal; lia | apply in_seq; lia].
Qed.

Lemma labels_read_back :
  forallb (fun hm =>
             match readTimeLabel (timeLabel (fst hm) (snd hm)) with
             | Some (h, m) => (h =? fst hm) && (m =? snd hm)
             | None => false
             end) minutesOfDay = true.
Proof. vm_compute. reflexivity. Qed.

(** X7. A time label tells the local hour and minute of its date: it
    reads back to them, so two dates with the same label have the same
    local hour and minute, and the hour it shows is 1 to 12, never 0. *)
Theorem formatTimeLabel_reads_back LocalTZA t :
  readTimeLabel (formatTimeLabel LocalTZA t) =
    Some (getHours LocalTZA t, getMinutes LocalTZA t) /\
  (forall t', formatTimeLabel LocalTZA t' = formatTimeLabel LocalTZA t ->
     getHours LocalTZA t' = getHours LocalTZA t /\
     getMinutes LocalTZA t' = getMinutes LocalTZA t) /\
  exists h12, parseInt (formatTimeLabel LocalTZA t) = Some h12 /\ 1 <= h12 <= 12.
Proof.
  assert (R : forall t0,
             readTimeLabel (formatTimeLabel LocalTZA t0) =
             Some (getHours LocalTZA t0, getMinutes LocalTZA t0)).
  { intros t0. unfold formatTimeLabel.
    assert (Hh : 0 <= getHours LocalTZA t0 <= 23).
    { unfold getHours, HourFromTime. Z.div_mod_to_equations. lia. }
    assert (Hm : 0 <= getMinutes LocalTZA t0 <= 59).
    { unfold getMinutes, MinFromTime. Z.div_mod_to_equations. lia. }
    pose proof (minutesOfDay_In _ _ Hh Hm) as Hin.
    pose proof (proj1 (forallb_forall _ _) labels_read_back _ Hin) as E.
    cbn [fst snd] in E.
    destruct (readTimeLabel
                (timeLabel (getHours LocalTZA t0) (getMinutes LocalTZA t0)))
      as [[h m] |]; [| discriminate].
    apply andb_prop in E. destruct E as [E1 E2].
    apply Z.eqb_eq in E1, E2. subst. reflexivity. }
  split; [apply R |]. split.
  - intros t' E. pose proof (R t') as R'. rewrite E, R in R'.
    injection R' as -> ->. split; reflexivity.
  - pose proof (R t) as Rt. unfold readTimeLabel in Rt.
    destruct (M3U.indexOfChar ":" (formatTimeLabel LocalTZA t)); [| discriminate].
    destruct (parseInt (formatTimeLabel LocalTZA t)) as [h12 |] eqn:E;
      [| discriminate].
    exists h12. split; [reflexivity |].
    clear Rt. unfold formatTimeLabel in E.
    assert (Hh : 0 <= getHours LocalTZA t <= 23).
    { unfold getHours, HourFromTime. Z.div_mod_to_equations. lia. }
    assert (Hm : 0 <= getMinutes LocalTZA t <= 59).
    { unfold getMinutes, MinFromTime. Z.div_mod_to_equations. lia. }
    pose proof (minutesOfDay_In _ _ Hh Hm) as Hin.
    assert (B : forallb (fun hm =>
                  match parseInt (timeLabel (fst hm) (snd hm)) with
                  | Some h => (1 <=? h) && (h <=? 12)
                  | None => false
                  end) minutesOfDay = true) by (vm_compute; reflexivity).
    pose proof (proj1 (forallb_forall _ _) B _ Hin) as E'.
    cbn [fst snd] in E'. rewrite E in E'.
    apply andb_prop in E'. lia.
Qed.

End GuideFacts.

(* ===================================================================== *)
(** ** More on the feed parser *)
(* ===================================================================== *)

Module FeedFacts.

Import JsString JsDate JsObject Epg Spec Samples Listings.
Import JsObjectFacts ParserFacts LoaderFacts Feeds.

(** *** Timestamps that are too short *)

Lemma substring_past n m s :
  (String.length s <= n)%nat -> String.substring n m s = "".
Proof.
  revert s. induction n as [| n IH]; intros s H.
  - destruct s; [destruct m; reflexivity | cbn in H; lia].
  - destruct s as [| c s]; [reflexivity |].
    cbn [String.substring]. apply IH. cbn in H. lia.
Qed.

Lemma substring_length_le n m s :
  (String.length (String.substring n m s) <= String.length s)%nat.
Proof.
  revert n s. induction m as [| m IHm]; intros n.
  - induction n as [| n IHn]; intros s.
    + destruct s; cbn; lia.
    + destruct s as [| c s]; [cbn; lia |].
      cbn [String.substring String.length]. specialize (IHn s). lia.
  - induction n as [| n IHn]; intros s.
    + destruct s as [| c s]; [cbn; lia |].
      cbn [String.substring String.length]. specialize (IHm 0%nat s). lia.
    + destruct s as [| c s]; [cbn; lia |].
      cbn [String.substring String.length]. specialize (IHn s). lia.
Qed.

(** X8. A timestamp of fewer than thirteen characters is not a valid
    time: a text that stops at the minutes, or earlier, has no seconds
    field to read, and [parseTimeStr] gives an invalid date for it. *)
Theorem parseTimeStr_short localOffset str :
  (String.length str <= 12)%nat -> parseTimeStr localOffset str = None.
Proof.
  intros H. unfold parseTimeStr.
  destruct (negb (truthy str)); [reflexivity |]. cbv zeta.
  assert (E : slice 12 14 (String.substring 0 14 str) = "").
  { unfold slice. apply substring_past.
    pose proof (substring_length_le 0 14 str). lia. }
  rewrite E. change (parseInt "") with (@None Z).
  destruct (parseInt (slice 0 4 (String.substring 0 14 str)));
    destruct (option_map (fun m => m - 1)
                (parseInt (slice 4 6 (String.substring 0 14 str))));
    destruct (parseInt (slice 6 8 (String.substring 0 14 str)));
    destruct (parseInt (slice 8 10 (String.substring 0 14 str)));
    destruct (parseInt (slice 10 12 (String.substring 0 14 str)));
    reflexivity.
Qed.

Lemma parseTimeStr_short_witness : parseTimeStr 0 "202401011800" = None.
Proof. apply (parseTimeStr_short 0 "202401011800"). cbn. lia. Defined.

(** *** Elements without valid times *)

Lemma addProgrammes_app localOffset names icons ps1 ps2 acc :
  addProgrammes localOffset names icons (ps1 ++ ps2) acc =
  (acc' <- addProgrammes localOffset names icons ps1 acc ;;
   addProgrammes localOffset names icons ps2 acc').
Proof.
  revert acc. induction ps1 as [| p ps1 IH]; intros acc; cbn [app addProgrammes];
    [reflexivity |].
  destruct (addProgramme localOffset names icons acc p); cbn [bind];
    [apply IH | reflexivity].
Qed.

(** X9. A programme element one of whose two timestamps is not a valid
    time has no effect at all: the parser gives for the feed what it
    gives for the feed without the element, be it the two indices or an
    exception. *)
Theorem invalid_element_ignored localOffset channels before p after :
  validTimes localOffset p = None ->
  parseEpgXml localOffset (mkDocument channels (before ++ p :: after)) =
  parseEpgXml localOffset (mkDocument channels (before ++ after)).
Proof.
  intros H. unfold parseEpgXml, channelMaps. cbn [channelNodes programmeNodes].
  cbv zeta. rewrite !addProgrammes_app. cbn [addProgrammes].
  set (maps := fold_left (addChannel) channels (emptyStrObj, emptyStrObj)).
  destruct (addProgrammes localOffset (fst maps) (snd maps) before
              (emptyObj, emptyObj)) as [acc |]; cbn [bind]; [| reflexivity].
  assert (E : addProgramme localOffset (fst maps) (snd maps) acc p = Ok acc).
  { unfold validTimes in H. unfold addProgramme. cbv zeta.
    destruct (parseTimeStr localOffset (orEmpty (p_start p)));
      [destruct (parseTimeStr localOffset (orEmpty (p_stop p))) |];
      [discriminate | reflexivity | reflexivity]. }
  rewrite E. reflexivity.
Qed.

Lemma invalid_element_ignored_witness :
  parseEpgXml 0
    (mkDocument [channelElement "5" "News channel"]
       ([programmeElement "5" "20240101180000 -0500" "20240101190000 -0500" "News"]
        ++ programmeElement "5" "202401011900" "20240101200000" "Late" :: [])) =
  parseEpgXml 0
    (mkDocument [channelElement "5" "News channel"]
       ([programmeElement "5" "20240101180000 -0500" "20240101190000 -0500" "News"]
        ++ [])).
Proof.
  apply (invalid_element_ignored 0). vm_compute. reflexivity.
Defined.

(** *** When the parser raises *)

(** X10. The parser raises exactly when the feed has a programme
    element with valid times one of whose two keys, the display name of
    its channel or its channel identifier, is the name of a property of
    [Object.prototype]; the loader then leaves the three maps empty,
    whatever else the feed holds. *)
Theorem parseEpgXml_raises_iff (toLowerCase : string -> string)
    (rendering : EpgState -> result unit) localOffset doc :
  (parseEpgXml localOffset doc = Throw TypeError <->
   exists p, In p (programmeNodes doc) /\ validTimes localOffset p <> None /\
             (In (displayKey doc p) objectProtoKeys \/
              In (idKey p) objectProtoKeys)) /\
  (parseEpgXml localOffset doc = Throw TypeError ->
   loadEpg localOffset toLowerCase rendering (Some doc) = emptyState).
Proof.
  split.
  - split.
    + intros E.
      destruct (clash_cases localOffset doc (programmeNodes doc))
        as [(p & Hp & Hc) | H].
      * exists p. split; [exact Hp | exact Hc].
      * destruct (parseEpgXml_returns _ _ H) as (s & b & E' & _).
        rewrite E' in E. discriminate.
    + intros (p & Hp & Hv & Hk). apply parseEpgXml_raises.
      exists p. split; [exact Hp |]. split; assumption.
  - intros E. unfold loadEpg. rewrite E. reflexivity.
Qed.

(** *** What the indices hold *)

(** X11. Nothing is lost and nothing is added: in either index the array
    under a key is a rearrangement of the records of the elements with
    valid times and that key, each element giving one record, duplicates
    included; and every key that has such an element has an array. *)
Theorem indices_hold_the_feed localOffset doc s b k :
  parseEpgXml localOffset doc = Ok (s, b) ->
  (forall l, get s k = Found l ->
     Permutation (recordsFor localOffset doc (displayKey doc) k
                             (programmeNodes doc)) l) /\
  (forall l, get b k = Found l ->
     Permutation (recordsFor localOffset doc idKey k (programmeNodes doc)) l) /\
  (recordsFor localOffset doc (displayKey doc) k (programmeNodes doc) <> [] ->
   exists l, get s k = Found l) /\
  (recordsFor localOffset doc idKey k (programmeNodes doc) <> [] ->
   exists l, get b k = Found l).
Proof.
  intros E.
  destruct (parseEpgXml_inv _ _ _ _ E) as (_ & Ps & Pb & Ls & Lb).
  assert (P : forall (o : obj programme) l recs,
             plain o -> listAt o k = sortByStart recs ->
             get o k = Found l -> Permutation recs l).
  { intros o l recs Po Lo G. apply (proj1 (get_stored _ _ _)) in G.
    apply stored_listAt in G; [| exact Po]. rewrite <- G, Lo.
    apply sortByStart_perm. }
  assert (Q : forall (o : obj programme) recs,
             plain o -> listAt o k = sortByStart recs ->
             recs <> [] -> exists l, get o k = Found l).
  { intros o recs Po Lo Hne. destruct recs as [| r recs]; [congruence |].
    assert (Hin : In r (listAt o k)).
    { rewrite Lo. apply (proj2 (sortByStart_In _ _)). left. reflexivity. }
    exists (listAt o k). apply (proj2 (get_stored _ _ _)).
    apply (listAt_stored _ _ _ Po Hin). }
  split; [intros l; apply (P s l _ Ps (Ls k)) |].
  split; [intros l; apply (P b l _ Pb (Lb k)) |].
  split; [apply (Q s _ Ps (Ls k)) | apply (Q b _ Pb (Lb k))].
Qed.

Lemma indices_hold_the_feed_witness :
  Permutation (recordsFor 0 twinFeed (displayKey twinFeed) "News channel"
                          (programmeNodes twinFeed))
              [record "First" 1704132000000 1704135600000;
               record "Second" 1704132000000 1704133800000;
               record "Late" 1704139200000 1704142800000] /\
  Permutation (recordsFor 0 twinFeed idKey "5" (programmeNodes twinFeed))
              [record "First" 1704132000000 1704135600000;
               record "Second" 1704132000000 1704133800000;
               record "Late" 1704139200000 1704142800000] /\
  (exists l, get (fst (indicesOf 0 twinFeed)) "News channel" = Found l) /\
  (exists l, get (snd (indicesOf 0 twinFeed)) "5" = Found l).
Proof.
  assert (E : parseEpgXml 0 twinFeed =
              Ok (fst (indicesOf 0 twinFeed), snd (indicesOf 0 twinFeed)))
    by (vm_compute; reflexivity).
  split; [| split; [| split]].
  - apply (proj1 (indices_hold_the_feed 0 twinFeed _ _ "News channel" E)).
    vm_compute. reflexivity.
  - apply (proj1 (proj2 (indices_hold_the_feed 0 twinFeed _ _ "5" E))).
    vm_compute. reflexivity.
  - apply (proj1 (proj2 (proj2
             (indices_hold_the_feed 0 twinFeed _ _ "News channel" E)))).
    vm_compute. discriminate.
  - apply (proj2 (proj2 (proj2
             (indices_hold_the_feed 0 twinFeed _ _ "5" E)))).
    vm_compute. discriminate.
Defined.

(** *** The order of programmes that start together *)

Lemma insertByStart_startsAt t x l :
  filter (startsAt t) (insertByStart x l) = filter (startsAt t) (x :: l).
Proof.
  induction l as [| y l IH]; cbn [insertByStart]; [reflexivity |].
  destruct (start x - start y <=? 0) eqn:E; [reflexivity |].
  apply Z.leb_gt in E.
  cbn [filter] in *. rewrite IH. unfold startsAt.
  destruct (start x =? t) eqn:A; destruct (start y =? t) eqn:B;
    try reflexivity.
  apply Z.eqb_eq in A, B. lia.
Qed.

Lemma sortByStart_startsAt t l :
  filter (startsAt t) (sortByStart l) = filter (startsAt t) l.
Proof.
  induction l as [| x l IH]; cbn [sortByStart fold_right]; [reflexivity |].
  rewrite insertByStart_startsAt. cbn [filter]. fold (sortByStart l).
  rewrite IH. reflexivity.
Qed.

(** X12. Programmes of one array that start at the same instant keep
    the order their elements have in the feed: the sort moves no record
    past another of equal start. *)
Theorem equal_starts_keep_feed_order localOffset doc s b k l t :
  parseEpgXml localOffset doc = Ok (s, b) ->
  (get s k = Found l ->
   filter (startsAt t) l =
   filter (startsAt t)
          (recordsFor localOffset doc (displayKey doc) k (programmeNodes doc))) /\
  (get b k = Found l ->
   filter (startsAt t) l =
   filter (startsAt t)
          (recordsFor localOffset doc idKey k (programmeNodes doc))).
Proof.
  intros E.
  destruct (parseEpgXml_inv _ _ _ _ E) as (_ & Ps & Pb & Ls & Lb).
  split; intros G; apply (proj1 (get_stored _ _ _)) in G.
  - apply stored_listAt in G; [| exact Ps].
    rewrite <- G, Ls. apply sortByStart_startsAt.
  - apply stored_listAt in G; [| exact Pb].
    rewrite <- G, Lb. apply sortByStart_startsAt.
Qed.

Lemma equal_starts_keep_feed_order_witness :
  filter (startsAt 1704132000000)
         [record "First" 1704132000000 1704135600000;
          record "Second" 1704132000000 1704133800000;
          record "Late" 1704139200000 1704142800000] =
  filter (startsAt 1704132000000)
         (recordsFor 0 twinFeed (displayKey twinFeed) "News channel"
                     (programmeNodes twinFeed)) /\
  filter (startsAt 1704132000000)
         [record "First" 1704132000000 1704135600000;
          record "Second" 1704132000000 1704133800000;
          record "Late" 1704139200000 1704142800000] =
  filter (startsAt 1704132000000)
         (recordsFor 0 twinFeed idKey "5" (programmeNodes twinFeed)).
Proof.
  assert (E : parseEpgXml 0 twinFeed =
              Ok (fst (indicesOf 0 twinFeed), snd (indicesOf 0 twinFeed)))
    by (vm_compute; reflexivity).
  split.
  - apply (proj1 (equal_starts_keep_feed_order 0 twinFeed _ _ "News channel"
                    _ 1704132000000 E)).
    vm_compute. reflexivity.
  - apply (proj2 (equal_starts_keep_feed_order 0 twinFeed _ _ "5"
                    _ 1704132000000 E)).
    vm_compute. reflexivity.
Defined.

(** *** The display name of a channel *)

Lemma own_name_addChannel maps node k :
  k <> "__proto__"%string ->
  assoc k (s_own (fst (addChannel maps node))) =
  if (propKey (c_id node) =? k)%string
  then Some (match c_displayName node with
             | Some text => Some text
             | None => c_id node
             end)
  else assoc k (s_own (fst maps)).
Proof.
  intros Hk. unfold addChannel. cbv zeta. cbn [fst]. unfold setStr.
  destruct ((propKey (c_id node) =? "__proto__")%string
            && negb (s_protoNull (fst maps))) eqn:E.
  - apply andb_prop in E. destruct E as [E _]. apply String.eqb_eq in E.
    rewrite E.
    replace ("__proto__" =? k)%string with false
      by (symmetry; apply String.eqb_neq; congruence).
    destruct (match c_displayName node with
              | Some text => Some text
              | None => c_id node
              end); reflexivity.
  - cbn [s_own]. destruct (propKey (c_id node) =? k)%string eqn:A.
    + apply String.eqb_eq in A. subst k. apply assoc_assocSet_eq.
    + apply String.eqb_neq in A. apply assoc_assocSet_ne. congruence.
Qed.

Lemma own_name_later nodes : forall maps k,
  k <> "__proto__"%string ->
  (forall node, In node nodes -> propKey (c_id node) <> k) ->
  assoc k (s_own (fst (fold_left addChannel nodes maps))) =
  assoc k (s_own (fst maps)).
Proof.
  induction nodes as [| n nodes IH]; intros maps k Hk H; cbn [fold_left];
    [reflexivity |].
  rewrite IH; [| exact Hk | intros node Hn; apply H; right; exact Hn].
  rewrite own_name_addChannel by exact Hk.
  replace (propKey (c_id n) =? k)%string with false; [reflexivity |].
  symmetry. apply String.eqb_neq. apply H. left. reflexivity.
Qed.

(** X13. Of several definitions of one channel the last one names it: a
    programme element is filed, in the index by channel name, under the
    display name of the last channel element with its identifier, when
    that name is not empty. *)
Theorem last_definition_names doc earlier node later p text :
  channelNodes doc = earlier ++ node :: later ->
  propKey (c_id node) = idKey p ->
  (forall n, In n later -> propKey (c_id n) <> idKey p) ->
  idKey p <> "__proto__"%string ->
  c_displayName node = Some text -> truthy text = true ->
  displayKey doc p = text.
Proof.
  intros Hdoc Hid Hlater Hk Hname Htext.
  unfold displayKey, displayNameOf, channelMaps. rewrite Hdoc.
  rewrite fold_left_app. cbn [fold_left].
  fold (idKey p). unfold getStr.
  rewrite own_name_later by assumption.
  rewrite own_name_addChannel by exact Hk.
  rewrite Hid, String.eqb_refl, Hname. cbn [orElse]. rewrite Htext.
  reflexivity.
Qed.

Lemma last_definition_names_witness :
  displayKey renamedFeed
    (programmeElement "5" "20240101180000 +0000" "20240101190000 +0000" "News")
  = "News channel"%string.
Proof.
  apply (last_definition_names renamedFeed
           [channelElement "5" "Old name"; channelElement "6" "Six"]
           (channelElement "5" "News channel") []).
  - reflexivity.
  - reflexivity.
  - intros n [].
  - discriminate.
  - reflexivity.
  - reflexivity.
Defined.

(** X14. A programme element whose channel has no definition in the
    feed is filed in the index by channel name under its channel
    identifier, the key it has in the index by identifier, unless the
    identifier is the name of a property of [Object.prototype]. *)
Theorem undefined_channel_keeps_identifier doc p :
  (forall n, In n (channelNodes doc) -> propKey (c_id n) <> idKey p) ->
  ~ In (idKey p) objectProtoKeys ->
  displayKey doc p = idKey p.
Proof.
  intros Hnone Hk.
  assert (Hproto : idKey p <> "__proto__"%string).
  { intros E. apply Hk. rewrite E. apply proto_reserved. }
  unfold displayKey, displayNameOf, channelMaps.
  fold (idKey p). unfold getStr.
  rewrite own_name_later by assumption. cbn [fst s_own emptyStrObj assoc].
  apply inb_false in Hk. rewrite Hk, andb_false_r. reflexivity.
Qed.

Lemma undefined_channel_keeps_identifier_witness :
  displayKey orphanFeed
    (programmeElement "5" "20240101180000 +0000" "20240101190000 +0000" "News")
  = idKey (programmeElement "5" "20240101180000 +0000" "20240101190000 +0000" "News").
Proof.
  apply (undefined_channel_keeps_identifier orphanFeed).
  - intros n [<- | []]. discriminate.
  - intros H. vm_compute in H. repeat (destruct H as [H | H]; [discriminate H |]).
    exact H.
Defined.

End FeedFacts.

(* ===================================================================== *)
(** ** The playlist parser and the chat rooms *)
(* ===================================================================== *)

Module M3UFacts.

Import JsString JsObject M3U.

(** *** Trimming *)

Lemma trimStart_head s :
  trimStart s = ""%string \/
  exists c r, trimStart s = String c r /\ isWhiteSpace c = false.
Proof.
  induction s as [| c s IH]; cbn [trimStart]; [left; reflexivity |].
  destruct (isWhiteSpace c) eqn:E; [exact IH |].
  right. exists c, s. split; [reflexivity | exact E].
Qed.

Lemma trimEnd_idem s : trimEnd (trimEnd s) = trimEnd s.
Proof.
  induction s as [| c s IH]; [reflexivity |]. cbn [trimEnd].
  destruct (trimEnd s) as [| d t] eqn:E.
  - destruct (isWhiteSpace c) eqn:W; [reflexivity |].
    cbn [trimEnd]. rewrite W. reflexivity.
  - change (trimEnd (String c (String d t)))
      with (match trimEnd (String d t) with
            | EmptyString =>
                if isWhiteSpace c then EmptyString else String c EmptyString
            | String x y => String c (String x y)
            end).
    rewrite IH. reflexivity.
Qed.

Lemma trimEnd_head c r :
  isWhiteSpace c = false ->
  exists t, trimEnd (String c r) = String c t.
Proof.
  intros W. cbn [trimEnd]. destruct (trimEnd r) as [| d t].
  - rewrite W. exists ""%string. reflexivity.
  - exists (String d t). reflexivity.
Qed.

Lemma trim_idem s : trim (trim s) = trim s.
Proof.
  unfold trim.
  destruct (trimStart_head s) as [E | (c & r & E & W)]; rewrite E.
  - reflexivity.
  - destruct (trimEnd_head c r W) as (t & Et). rewrite Et.
    cbn [trimStart]. rewrite W. rewrite <- Et. apply trimEnd_idem.
Qed.

(** *** The fields of a channel *)

Lemma attrOrNull_truthy attrs k : attrOrNull attrs k <> Some ""%string.
Proof.
  unfold attrOrNull. destruct (assoc k attrs) as [v |]; [| discriminate].
  destruct v; cbn [truthy]; discriminate.
Qed.

Lemma channelsOf_In c lines :
  In c (channelsOf lines) -> exists meta rest, c = channelOf meta rest.
Proof.
  induction lines as [| l lines IH]; cbn [channelsOf]; [intros [] |].
  destruct (isExtinf (trim l)); [| exact IH].
  intros [<- | H]; [eauto | apply IH, H].
Qed.

(** X15. Every channel the playlist parser returns has a name that is
    not empty; its group and its logo are [null] or a text that is not
    empty; and its address has no white space at either end. *)
Theorem parseM3U_fields m3uText c :
  In c (parseM3U m3uText) ->
  name c <> ""%string /\ group c <> Some ""%string /\
  logo c <> Some ""%string /\ trim (url c) = url c.
Proof.
  unfold parseM3U. destruct (negb (truthy m3uText)); [intros [] |].
  intros H. apply channelsOf_In in H. destruct H as (meta & rest & ->).
  unfold channelOf. cbv zeta. cbn [name group logo url].
  split; [| split; [apply attrOrNull_truthy |
                    split; [apply attrOrNull_truthy |]]].
  - pose proof (attrOrNull_truthy (attrsOf meta) "tvg-name") as Ha.
    destruct (attrOrNull (attrsOf meta) "tvg-name") as [n |];
      [congruence |].
    destruct (commaName meta) as [n |]; [| discriminate].
    destruct n; cbn [truthy]; discriminate.
  - destruct rest as [| next rest]; [reflexivity |].
    destruct (truthy next); [apply trim_idem | reflexivity].
Qed.

Lemma parseM3U_fields_witness :
  name Playlists.unknown <> ""%string /\
  group Playlists.unknown <> Some ""%string /\
  logo Playlists.unknown <> Some ""%string /\
  trim (url Playlists.unknown) = url Playlists.unknown.
Proof.
  apply (parseM3U_fields Playlists.sampleText Playlists.unknown).
  vm_compute. right. left. reflexivity.
Defined.

(** *** Lines *)

Lemma append_assoc (a b c : string) : ((a ++ b) ++ c = a ++ (b ++ c))%string.
Proof. induction a as [| x a IH]; cbn; [reflexivity | rewrite IH; reflexivity]. Qed.

Lemma lacks_app c a b : lacks c (a ++ b)%string <-> lacks c a /\ lacks c b.
Proof.
  induction a as [| x a IH]; cbn [String.append lacks]; [tauto |].
  rewrite IH. tauto.
Qed.

Lemma quotable_lacks s :
  quotable s -> lacks LF s /\ lacks CR s /\ lacks QUOTE s.
Proof.
  induction s as [| c s IH]; cbn [quotable lacks]; [tauto |].
  intros (H1 & H2 & H3 & H). destruct (IH H) as (I1 & I2 & I3). tauto.
Qed.

Lemma splitLines_one s : lacks LF s -> lacks CR s -> splitLines s = [s].
Proof.
  induction s as [| c s IH]; cbn [lacks splitLines]; [reflexivity |].
  intros [H1 H1'] [H2 H2'].
  replace (c =? "010")%char with false
    by (symmetry; apply Ascii.eqb_neq; exact H1).
  replace (c =? "013")%char with false
    by (symmetry; apply Ascii.eqb_neq; exact H2).
  rewrite IH by assumption. reflexivity.
Qed.

Lemma splitLines_cut a b :
  lacks LF a -> lacks CR a ->
  splitLines (a ++ String LF b) = a :: splitLines b.
Proof.
  induction a as [| c a IH]; cbn [lacks String.append].
  - intros _ _. reflexivity.
  - intros [H1 H1'] [H2 H2']. cbn [splitLines].
    replace (c =? "010")%char with false
      by (symmetry; apply Ascii.eqb_neq; exact H1).
    replace (c =? "013")%char with false
      by (symmetry; apply Ascii.eqb_neq; exact H2).
    rewrite IH by assumption. reflexivity.
Qed.

Lemma trimEnd_app a b :
  trimEnd b <> ""%string -> trimEnd (a ++ b) = (a ++ trimEnd b)%string.
Proof.
  intros H. induction a as [| c a IH]; cbn [String.append]; [reflexivity |].
  cbn [trimEnd]. rewrite IH.
  destruct (a ++ trimEnd b)%string as [| d t] eqn:E; [| reflexivity].
  destruct a; cbn [String.append] in E; [contradiction | discriminate].
Qed.

(** *** The attribute scan *)

Lemma takeValue_lacks v rest :
  lacks QUOTE v -> takeValue (v ++ String QUOTE rest) = Some (v, rest).
Proof.
  induction v as [| c v IH]; cbn [lacks String.append takeValue].
  - intros _. reflexivity.
  - intros [H H'].
    replace (c =? "034")%char with false
      by (symmetry; apply Ascii.eqb_neq; exact H).
    rewrite IH by exact H'. reflexivity.
Qed.

Lemma takeKey_key k r :
  forallb isKeyChar (list_ascii_of_string k) = true ->
  takeKey (k ++ String "=" r) = (k, String "="%char r).
Proof.
  induction k as [| c k IH]; cbn [list_ascii_of_string forallb String.append].
  - intros _. reflexivity.
  - intros H. apply andb_prop in H. destruct H as [Hc Hk].
    cbn [takeKey]. rewrite Hc, IH by exact Hk. reflexivity.
Qed.

Lemma takeKey_split s : (fst (takeKey s) ++ snd (takeKey s))%string = s.
Proof.
  induction s as [| c s IH]; cbn [takeKey]; [reflexivity |].
  destruct (isKeyChar c); [| reflexivity].
  destruct (takeKey s) as [k r]. cbn [fst snd String.append] in *.
  rewrite IH. reflexivity.
Qed.

Lemma matchAttrAt_lacks s : lacks QUOTE s -> matchAttrAt s = None.
Proof.
  intros H. unfold matchAttrAt.
  pose proof (takeKey_split s) as E.
  destruct (takeKey s) as [k r]. cbn [fst snd] in E.
  destruct k as [| c k]; [reflexivity |].
  destruct r as [| e r]; [reflexivity |].
  destruct r as [| q r]; [destruct e as [[] [] [] [] [] [] [] []]; reflexivity |].
  rewrite <- E in H. apply lacks_app in H. destruct H as [_ H].
  cbn [lacks] in H. destruct H as (_ & Hq & _).
  destruct e as [[] [] [] [] [] [] [] []]; try reflexivity.
  destruct q as [[] [] [] [] [] [] [] []]; try reflexivity.
  exfalso. apply Hq. reflexivity.
Qed.

Lemma scanAttrs_lacks s : lacks QUOTE s -> scanAttrs s 0 = [].
Proof.
  induction s as [| c s IH]; [reflexivity |].
  intros H. cbn [scanAttrs]. rewrite (matchAttrAt_lacks _ H).
  apply IH. cbn [lacks] in H. tauto.
Qed.

Lemma scanAttrs_skip a rest :
  scanAttrs (a ++ rest) (String.length a) = scanAttrs rest 0.
Proof.
  induction a as [| c a IH]; cbn [String.append String.length].
  - destruct rest; reflexivity.
  - cbn [scanAttrs]. exact IH.
Qed.

Lemma length_app (a b : string) :
  String.length (a ++ b) = (String.length a + String.length b)%nat.
Proof. induction a as [| c a IH]; cbn; [reflexivity | rewrite IH; reflexivity]. Qed.

Lemma attrText_app key v rest :
  (attrText key v ++ rest)%string =
  String " " (key ++ String "=" (String QUOTE (v ++ String QUOTE rest))).
Proof.
  unfold attrText. cbn [String.append]. rewrite append_assoc.
  cbn [String.append]. rewrite append_assoc. reflexivity.
Qed.

Lemma matchAttrAt_attr key v rest :
  key <> ""%string ->
  forallb isKeyChar (list_ascii_of_string key) = true ->
  lacks QUOTE v ->
  matchAttrAt (key ++ String "=" (String QUOTE (v ++ String QUOTE rest))) =
  Some (key, v, (String.length key + 2 + String.length v + 1)%nat).
Proof.
  intros Hne Hk Hv. unfold matchAttrAt. rewrite takeKey_key by exact Hk.
  destruct key as [| c key]; [contradiction |].
  unfold QUOTE in *. rewrite takeValue_lacks by exact Hv. reflexivity.
Qed.

Lemma scanAttrs_attr key v rest :
  key <> ""%string ->
  forallb isKeyChar (list_ascii_of_string key) = true ->
  lacks QUOTE v ->
  scanAttrs (attrText key v ++ rest) 0 = (key, v) :: scanAttrs rest 0.
Proof.
  intros Hne Hk Hv. rewrite attrText_app.
  set (R := String "=" (String QUOTE (v ++ String QUOTE rest))).
  assert (E0 : scanAttrs (String " " (key ++ R)) 0 = scanAttrs (key ++ R) 0)
    by reflexivity.
  rewrite E0.
  pose proof (matchAttrAt_attr key v rest Hne Hk Hv) as M. fold R in M.
  destruct key as [| c key]; [contradiction |].
  cbn [String.append] in *. cbn [scanAttrs]. rewrite M.
  f_equal.
  replace (key ++ R)%string
    with ((key ++ String "=" (String QUOTE (v ++ String QUOTE ""))) ++ rest)%string.
  - replace (String.length (String c key) + 2 + String.length v + 1 - 1)%nat
      with (String.length (key ++ String "=" (String QUOTE (v ++ String QUOTE "")))).
    + apply scanAttrs_skip.
    + rewrite length_app. cbn [String.length]. rewrite length_app.
      cbn [String.length]. lia.
  - subst R. rewrite append_assoc. cbn [String.append].
    rewrite append_assoc. reflexivity.
Qed.

Lemma scanAttrs_optional key value rest :
  key <> ""%string ->
  forallb isKeyChar (list_ascii_of_string key) = true ->
  match value with Some v => lacks QUOTE v | None => True end ->
  scanAttrs (optAttrText key value ++ rest) 0 =
  match value with Some v => [(key, v)] | None => [] end ++ scanAttrs rest 0.
Proof.
  intros Hne Hk Hv. destruct value as [v |]; cbn [optAttrText].
  - rewrite scanAttrs_attr by assumption. reflexivity.
  - reflexivity.
Qed.

Lemma lacks_trimEnd c s : lacks c s -> lacks c (trimEnd s).
Proof.
  induction s as [| x s IH]; cbn [lacks trimEnd]; [tauto |].
  intros [H H']. specialize (IH H').
  destruct (trimEnd s) as [| d t].
  - destruct (isWhiteSpace x); cbn [lacks]; tauto.
  - cbn [lacks] in *. tauto.
Qed.

(** The [#EXTINF] line of a channel, with [tail] after the comma. *)
Local Abbreviation lineOf n g l tail :=
  ("#EXTINF:-1" ++ attrText "tvg-name" n ++
   optAttrText "group-title" g ++ optAttrText "tvg-logo" l ++
   String "," tail)%string.

Lemma trim_lineOf n g l tail :
  trim (lineOf n g l tail) = lineOf n g l (trimEnd tail).
Proof.
  unfold trim.
  assert (E : trimStart (lineOf n g l tail) = lineOf n g l tail) by reflexivity.
  rewrite E.
  rewrite <- !append_assoc.
  rewrite trimEnd_app.
  - f_equal. cbn [trimEnd]. destruct (trimEnd tail); reflexivity.
  - cbn [trimEnd]. destruct (trimEnd tail); discriminate.
Qed.

Lemma scanAttrs_lineOf n g l tail :
  lacks QUOTE n ->
  match g with Some v => lacks QUOTE v | None => True end ->
  match l with Some v => lacks QUOTE v | None => True end ->
  lacks QUOTE tail ->
  scanAttrs (lineOf n g l tail) 0 =
  ("tvg-name"%string, n) ::
  match g with Some v => [("group-title"%string, v)] | None => [] end ++
  match l with Some v => [("tvg-logo"%string, v)] | None => [] end.
Proof.
  intros Hn Hg Hl Ht.
  assert (E : forall rest,
             scanAttrs ("#EXTINF:-1" ++ attrText "tvg-name" n ++ rest) 0 =
             scanAttrs (attrText "tvg-name" n ++ rest) 0).
  { intros rest. rewrite attrText_app. reflexivity. }
  rewrite E.
  rewrite scanAttrs_attr by (try discriminate; try reflexivity; exact Hn).
  rewrite scanAttrs_optional by (try discriminate; try reflexivity; exact Hg).
  rewrite scanAttrs_optional by (try discriminate; try reflexivity; exact Hl).
  rewrite scanAttrs_lacks; [rewrite app_nil_r; reflexivity |].
  cbn [lacks]. split; [discriminate | exact Ht].
Qed.

(** *** Reading back a written playlist *)

Lemma channelOf_extinfLine c rest :
  writable c -> channelOf (trim (extinfLine c)) (url c :: rest) = c.
Proof.
  intros (Hn & Qn & Hg & Hl & Qu & Tu & _).
  unfold extinfLine. rewrite trim_lineOf.
  destruct c as [n g l u]. cbn [name group logo url] in *.
  apply quotable_lacks in Qn. destruct Qn as (_ & _ & Qn).
  assert (Qg : match g with Some v => lacks QUOTE v | None => True end).
  { destruct g as [v |]; [| exact I]. destruct Hg as [_ Hg].
    apply quotable_lacks in Hg. tauto. }
  assert (Ql : match l with Some v => lacks QUOTE v | None => True end).
  { destruct l as [v |]; [| exact I]. destruct Hl as [_ Hl].
    apply quotable_lacks in Hl. tauto. }
  unfold channelOf, attrsOf. cbv zeta.
  rewrite (scanAttrs_lineOf n g l (trimEnd n) Qn Qg Ql (lacks_trimEnd _ _ Qn)).
  assert (Tn : truthy n = true) by (destruct n; [contradiction | reflexivity]).
  assert (U : (if truthy u then trim u else ""%string) = u).
  { destruct u; [reflexivity | exact Tu]. }
  rewrite U.
  destruct g as [g |]; destruct l as [l |]; cbn; rewrite Tn.
  - destruct Hg as [Hg _], Hl as [Hl _].
    destruct g; [contradiction |]. destruct l; [contradiction |]. reflexivity.
  - destruct Hg as [Hg _]. destruct g; [contradiction |]. reflexivity.
  - destruct Hl as [Hl _]. destruct l; [contradiction |]. reflexivity.
  - reflexivity.
Qed.

Lemma channelsOf_linesOf cs :
  Forall writable cs -> channelsOf (linesOf cs) = cs.
Proof.
  induction 1 as [| c cs Hc _ IH]; [reflexivity |].
  unfold linesOf. cbn [flat_map app]. fold (linesOf cs).
  cbn [channelsOf].
  assert (X : isExtinf (trim (extinfLine c)) = true).
  { unfold extinfLine. rewrite trim_lineOf. reflexivity. }
  rewrite X. rewrite (channelOf_extinfLine c _ Hc).
  destruct Hc as (_ & _ & _ & _ & _ & Tu & Eu).
  rewrite Tu, Eu, IH. reflexivity.
Qed.

Lemma lacks_attrText c key v :
  c <> QUOTE -> lacks c v -> lacks c key -> c <> " "%char -> c <> "="%char ->
  lacks c (attrText key v).
Proof.
  intros Hq Hv Hk Hs He. unfold attrText. cbn [String.append lacks].
  split; [congruence |]. apply lacks_app. split; [exact Hk |].
  cbn [String.append lacks]. split; [congruence |]. split; [congruence |].
  apply lacks_app. split; [exact Hv |]. cbn [lacks]. split; [congruence | exact I].
Qed.

Lemma lacks_extinfLine c x :
  (x = LF \/ x = CR) -> writable c -> lacks x (extinfLine c).
Proof.
  intros Hx (_ & Qn & Hg & Hl & _).
  assert (L : forall v, quotable v -> lacks x v).
  { intros v Qv. apply quotable_lacks in Qv.
    destruct Hx as [-> | ->]; tauto. }
  assert (A : forall key v, lacks x key -> quotable v ->
                            lacks x (attrText key v)).
  { intros key v Hk Qv. apply lacks_attrText; auto;
      destruct Hx as [-> | ->]; discriminate. }
  assert (K : forall key, key = "tvg-name"%string \/ key = "group-title"%string \/
                          key = "tvg-logo"%string -> lacks x key).
  { intros key [-> | [-> | ->]]; cbn [lacks];
      destruct Hx as [-> | ->]; repeat split; discriminate. }
  unfold extinfLine.
  apply lacks_app. split.
  { destruct Hx as [-> | ->]; cbn [lacks]; repeat split; discriminate. }
  apply lacks_app. split; [apply A; [apply K; tauto | exact Qn] |].
  apply lacks_app. split.
  { destruct (group c) as [g |]; cbn [optAttrText lacks]; [| exact I].
    apply A; [apply K; tauto | tauto]. }
  apply lacks_app. split.
  { destruct (logo c) as [l |]; cbn [optAttrText lacks]; [| exact I].
    apply A; [apply K; tauto | tauto]. }
  cbn [lacks]. split; [destruct Hx as [-> | ->]; discriminate | apply L, Qn].
Qed.

Lemma splitLines_playlistBody cs : forall first,
  lacks LF first -> lacks CR first -> Forall writable cs ->
  splitLines (first ++ playlistBody cs) = first :: linesOf cs.
Proof.
  induction cs as [| c cs IH]; intros first H1 H2 Hcs.
  - cbn [playlistBody linesOf flat_map].
    replace (first ++ "")%string with first
      by (clear; induction first as [| x f IHf]; cbn;
          [reflexivity | rewrite <- IHf; reflexivity]).
    apply splitLines_one; assumption.
  - inversion Hcs as [| ? ? Hc Hrest]; subst.
    cbn [playlistBody]. unfold linesOf. cbn [flat_map app]. fold (linesOf cs).
    cbn [String.append]. rewrite splitLines_cut by assumption. f_equal.
    rewrite splitLines_cut
      by (apply lacks_extinfLine; [auto | exact Hc]).
    f_equal. apply IH; [| | exact Hrest];
      destruct Hc as (_ & _ & _ & _ & Qu & _);
      apply quotable_lacks in Qu; tauto.
Qed.

(** X16. A playlist written from a list of channels reads back as that
    list: for channels with a name, a group and a logo that are not
    empty and stand between quotes on one line, and an address on one
    line that is trimmed and does not begin with [#EXTINF], parsing the
    text of the header and of one [#EXTINF] line and one address line
    for each channel gives the channels back, in order. *)
Theorem parseM3U_playlist cs :
  Forall writable cs -> parseM3U (playlist cs) = cs.
Proof.
  intros H. unfold parseM3U, playlist.
  assert (T : negb (truthy ("#EXTM3U" ++ playlistBody cs)) = false)
    by reflexivity.
  rewrite T.
  rewrite splitLines_playlistBody;
    [| cbn [lacks]; repeat split; discriminate
     | cbn [lacks]; repeat split; discriminate
     | exact H].
  assert (X : channelsOf ("#EXTM3U"%string :: linesOf cs) =
              channelsOf (linesOf cs)) by reflexivity.
  rewrite X. apply channelsOf_linesOf, H.
Qed.

Lemma parseM3U_playlist_witness :
  parseM3U (playlist [Playlists.five]) = [Playlists.five].
Proof.
  apply (parseM3U_playlist [Playlists.five]).
  constructor; [| constructor].
  unfold writable, Playlists.five; cbn.
  repeat split; discriminate.
Defined.

End M3UFacts.

(* ===================================================================== *)
(** ** The chat rooms *)
(* ===================================================================== *)

Module ChatFacts.

Import JsString Epg Chat.

Lemma sanitize_chars s :
  forallb (fun c => isRoomChar c || (c =? "-")%char)
          (list_ascii_of_string (sanitize s)) = true.
Proof.
  induction s as [| c s IH]; cbn [sanitize list_ascii_of_string forallb];
    [reflexivity |].
  rewrite IH, andb_true_r.
  destruct (isRoomChar c) eqn:E; [rewrite E |]; reflexivity.
Qed.

(** X17. The room of a channel without identifier, or with an empty
    one, is made of lower-case letters, digits and hyphens only,
    whatever the name of the channel holds. *)
Theorem roomName_characters ch :
  tvgId ch = None \/ tvgId ch = Some ""%string ->
  forallb (fun c => isRoomChar c || (c =? "-")%char)
          (list_ascii_of_string (roomName ch)) = true.
Proof.
  intros [H | H]; unfold roomName; rewrite H; cbn [truthy];
    apply sanitize_chars.
Qed.

Lemma roomName_characters_witness :
  forallb (fun c => isRoomChar c || (c =? "-")%char)
          (list_ascii_of_string
             (roomName {| name := "Fox News (HD)"; tvgId := None |})) = true.
Proof.
  apply (roomName_characters {| name := "Fox News (HD)"; tvgId := None |}).
  left. reflexivity.
Defined.

(** X18. Joining is idempotent: whatever a call of [joinChannelRoom]
    does, the same call made again sends no message and leaves the
    current room as it is; and when a message is sent, its room is the
    room recorded as current. *)
Theorem joinChannelRoom_again connected channel user currentChatRoom :
  joinChannelRoom connected channel user
    (fst (joinChannelRoom connected channel user currentChatRoom)) =
  (fst (joinChannelRoom connected channel user currentChatRoom), None) /\
  forall room username,
    snd (joinChannelRoom connected channel user currentChatRoom) =
      Some (room, username) ->
    fst (joinChannelRoom connected channel user currentChatRoom) = Some room /\
    user = Some username.
Proof.
  unfold joinChannelRoom.
  destruct connected; cbn [negb]; [| split; [reflexivity | discriminate]].
  destruct channel as [ch |]; [| split; [reflexivity | discriminate]].
  cbv zeta.
  destruct (match currentChatRoom with
            | Some r => (r =? roomName ch)%string
            | None => false
            end) eqn:E.
  - cbn [fst snd]. rewrite E. split; [reflexivity | discriminate].
  - destruct user as [username |]; cbn [fst snd].
    + rewrite String.eqb_refl. split; [reflexivity |].
      intros room u [= <- <-]. split; reflexivity.
    + rewrite E. split; [reflexivity | discriminate].
Qed.

End ChatFacts.

(* ===================================================================== *)
(** ** Season and episode numbers read from a feed *)
(* ===================================================================== *)

Module EpisodeFacts.

Import JsString M3U Episode M3UFacts.

Lemma digit_plain c :
  isDigit c = true ->
  (c =? "S")%char = false /\ (c =? "E")%char = false /\
  (c =? "e")%char = false /\ isSeparator c = false.
Proof.
  destruct c as [[] [] [] [] [] [] [] []]; intros H;
    try discriminate H; repeat split; reflexivity.
Qed.

Lemma drop_all a rest : drop (String.length a) (a ++ rest) = rest.
Proof.
  induction a as [| c a IH]; cbn [String.length String.append drop];
    [destruct rest; reflexivity | exact IH].
Qed.

Lemma substring_all a rest :
  String.substring 0 (String.length a) (a ++ rest) = a.
Proof.
  induction a as [| c a IH]; cbn [String.length String.append String.substring].
  - destruct rest; reflexivity.
  - rewrite IH. reflexivity.
Qed.

Lemma append_nil (a : string) : (a ++ "")%string = a.
Proof. induction a as [| c a IH]; cbn; [reflexivity | rewrite IH; reflexivity]. Qed.

Lemma takeDigits_run a rest :
  forallb isDigit (list_ascii_of_string a) = true -> noDigitFirst rest ->
  takeDigits (a ++ rest) = (a, rest).
Proof.
  intros Ha Hr. induction a as [| c a IH]; cbn [String.append].
  - destruct rest as [| c r]; [reflexivity |].
    cbn [noDigitFirst] in Hr. cbn [takeDigits]. rewrite Hr. reflexivity.
  - cbn [list_ascii_of_string forallb] in Ha. apply andb_prop in Ha.
    destruct Ha as [Hc Ha]. cbn [takeDigits]. rewrite Hc, (IH Ha). reflexivity.
Qed.

Lemma digitsAt_run a rest :
  a <> ""%string ->
  forallb isDigit (list_ascii_of_string a) = true -> noDigitFirst rest ->
  digitsAt (a ++ rest) = Some a.
Proof.
  intros Hne Ha Hr. unfold digitsAt. rewrite takeDigits_run by assumption.
  destruct a; [contradiction | reflexivity].
Qed.

Lemma digitsAt_none s : noDigitFirst s -> digitsAt s = None.
Proof.
  intros H. unfold digitsAt. destruct s as [| c s]; [reflexivity |].
  cbn [noDigitFirst] in H. cbn [takeDigits]. rewrite H. reflexivity.
Qed.

Lemma noDigits_first s : noDigits s -> noDigitFirst s.
Proof.
  unfold noDigits. destruct s as [| c s]; cbn; [tauto |].
  intros H. apply andb_prop in H. destruct H as [H _].
  destruct (isDigit c); [discriminate | reflexivity].
Qed.

Lemma noDigits_tail c s : noDigits (String c s) -> noDigits s.
Proof.
  unfold noDigits. cbn [list_ascii_of_string forallb].
  intros H. apply andb_prop in H. tauto.
Qed.

Lemma letterAndDigits_none s : noDigits s -> letterAndDigits s = None.
Proof.
  intros H. unfold letterAndDigits. destruct s as [| c s]; [reflexivity |].
  rewrite (digitsAt_none _ (noDigits_first _ H)).
  rewrite (digitsAt_none _ (noDigits_first _ (noDigits_tail _ _ H))).
  destruct ((c =? "E")%char || (c =? "e")%char); reflexivity.
Qed.

Lemma matchTail_none s : noDigits s -> matchTail s = None.
Proof.
  intros H. unfold matchTail. destruct s as [| c s]; [reflexivity |].
  rewrite (letterAndDigits_none _ H).
  rewrite (letterAndDigits_none _ (noDigits_tail _ _ H)).
  destruct (isSeparator c); reflexivity.
Qed.

Lemma matchNumbers_none s : noDigitFirst s -> matchNumbers s = None.
Proof.
  intros H. unfold matchNumbers. destruct s as [| c s]; [reflexivity |].
  cbn [noDigitFirst] in H. cbn [takeDigits]. rewrite H. reflexivity.
Qed.

(** What stands before the first digit of a text plays no part in the
    match. *)
Lemma matchEpisode_before before d rest :
  noDigits before -> isDigit d = true ->
  matchEpisode (before ++ String d rest) = matchEpisode (String d rest).
Proof.
  intros Hb Hd. induction before as [| c before IH]; [reflexivity |].
  pose proof (noDigits_first _ Hb) as Hc. cbn [noDigitFirst] in Hc.
  specialize (IH (noDigits_tail _ _ Hb)).
  cbn [String.append]. cbn [matchEpisode]. fold matchEpisode.
  assert (E : matchEpisodeAt (String c (before ++ String d rest)) = None \/
              (before = ""%string /\
               matchEpisodeAt (String c (before ++ String d rest)) =
               matchNumbers (String d rest))).
  { unfold matchEpisodeAt. destruct (c =? "S")%char.
    - destruct before as [| c' before'].
      + right. split; reflexivity.
      + left. apply matchNumbers_none.
        apply (noDigits_first _ (noDigits_tail _ _ Hb)).
    - left. apply matchNumbers_none. cbn [noDigitFirst]. exact Hc. }
  destruct E as [E | [-> E]].
  - rewrite E. exact IH.
  - rewrite E. cbn [String.append] in *.
    destruct (matchNumbers (String d rest)) as [m |] eqn:M.
    + cbn [matchEpisode]. unfold matchEpisodeAt.
      destruct (digit_plain d Hd) as (S & _). rewrite S, M. reflexivity.
    + exact IH.
Qed.

Lemma drop_length a : drop (String.length a) a = ""%string.
Proof. rewrite <- (append_nil a) at 2. apply drop_all. Qed.

Lemma substring_length a : String.substring 0 (String.length a) a = a.
Proof. rewrite <- (append_nil a) at 2. apply substring_all. Qed.

(** The first attempt of the first group keeps the whole run. *)
Lemma shorten_whole run after :
  run <> ""%string ->
  shorten (String.length run) run after =
  match matchTail after with
  | Some second => Some (run, second)
  | None => shorten (pred (String.length run)) run after
  end.
Proof.
  intros Hne. destruct run as [| c run]; [contradiction |].
  set (r := String c run).
  change (String.length r) with (S (String.length run)) at 1.
  cbn [shorten].
  replace (drop (S (String.length run)) r) with ""%string
    by (symmetry; apply (drop_length r)).
  replace (String.substring 0 (S (String.length run)) r) with r
    by (symmetry; apply (substring_length r)).
  reflexivity.
Qed.

Lemma letterAndDigits_digits letter second rest :
  In letter [""%string; "E"%string; "e"%string] ->
  second <> ""%string ->
  forallb isDigit (list_ascii_of_string second) = true ->
  noDigitFirst rest ->
  letterAndDigits (letter ++ second ++ rest) = Some second.
Proof.
  intros Hl Hne Hd Hr.
  pose proof (digitsAt_run second rest Hne Hd Hr) as D.
  destruct Hl as [<- | [<- | [<- | []]]]; cbn [String.append].
  - destruct second as [| d second']; [contradiction |].
    cbn [list_ascii_of_string forallb] in Hd. apply andb_prop in Hd.
    destruct (digit_plain d (proj1 Hd)) as (_ & E1 & E2 & _).
    cbn [String.append] in *. unfold letterAndDigits.
    rewrite E1, E2. cbn [orb]. exact D.
  - unfold letterAndDigits. cbn [Ascii.eqb Bool.eqb orb andb]. rewrite D.
    reflexivity.
  - unfold letterAndDigits.
    replace (("e" =? "E")%char || ("e" =? "e")%char) with true by reflexivity.
    rewrite D. reflexivity.
Qed.

Lemma matchTail_digits separator letter second rest :
  In separator [""%string; " "%string; "."%string; ":"%string; "-"%string] ->
  In letter [""%string; "E"%string; "e"%string] ->
  (separator ++ letter)%string <> ""%string ->
  second <> ""%string ->
  forallb isDigit (list_ascii_of_string second) = true ->
  noDigitFirst rest ->
  matchTail (separator ++ letter ++ second ++ rest) = Some second /\
  noDigitFirst (separator ++ letter ++ second ++ rest).
Proof.
  intros Hs Hl Hne H2 Hd Hr.
  pose proof (letterAndDigits_digits letter second rest Hl H2 Hd Hr) as L.
  destruct Hs as [<- | Hs].
  - cbn [String.append] in *.
    destruct Hl as [<- | [<- | [<- | []]]]; [contradiction | |];
      cbn [String.append] in *; unfold matchTail;
      (split; [| reflexivity]).
    + replace (isSeparator "E") with false by reflexivity. exact L.
    + replace (isSeparator "e") with false by reflexivity. exact L.
  - assert (X : forall c, isSeparator c = true -> isDigit c = false ->
                  matchTail (String c (letter ++ second ++ rest)) = Some second /\
                  noDigitFirst (String c (letter ++ second ++ rest))).
    { intros c Hc Hn. unfold matchTail. rewrite Hc, L.
      split; [reflexivity | exact Hn]. }
    destruct Hs as [<- | [<- | [<- | [<- | []]]]]; cbn [String.append];
      apply X; reflexivity.
Qed.

Lemma readDigits_started s x :
  exists y, readDigits digitValue 10 s (Some x) = Some y.
Proof.
  revert x. induction s as [| c s IH]; intros x; cbn [readDigits]; [eauto |].
  destruct (digitValue c); [apply IH | eauto].
Qed.

Lemma parseInt10_digits s :
  s <> ""%string -> forallb isDigit (list_ascii_of_string s) = true ->
  exists n, parseInt10 s = Some n.
Proof.
  intros Hne Hd. destruct s as [| c s]; [contradiction |].
  cbn [list_ascii_of_string forallb] in Hd. apply andb_prop in Hd.
  destruct Hd as [Hc _].
  assert (E : parseInt10 (String c s) =
              option_map (Z.mul 1) (readDigits digitValue 10 (String c s) None)).
  { destruct c as [[] [] [] [] [] [] [] []]; try discriminate Hc; reflexivity. }
  rewrite E. cbn [readDigits]. unfold isDigit in Hc.
  destruct (digitValue c) as [v |]; [| discriminate].
  destruct (readDigits_started s (10 * 0 + v)) as (y & ->).
  cbn [option_map]. eauto.
Qed.

(** X19. A text made of a number, then a separator or the letter E or
    both, then a second number gives the first number as the season and
    the second as the episode: so for [S01E05], [S1 E5], [1.2], [3-e4].
    What stands before the first number, an [S] included, and after the
    second plays no part. *)
Theorem episodeOf_pattern before first separator letter second rest :
  noDigits before -> isNumeral first -> isNumeral second ->
  noDigitFirst rest ->
  In separator [""%string; " "%string; "."%string; ":"%string; "-"%string] ->
  In letter [""%string; "E"%string; "e"%string] ->
  (separator ++ letter)%string <> ""%string ->
  exists season episode,
    parseInt10 first = Some season /\ parseInt10 second = Some episode /\
    episodeOf (before ++ first ++ separator ++ letter ++ second ++ rest) =
      Some (Some season, Some episode).
Proof.
  intros Hb (H1 & D1 & _) (H2 & D2 & _) Hr Hs Hl Hne.
  destruct (parseInt10_digits first H1 D1) as (season & E1).
  destruct (parseInt10_digits second H2 D2) as (episode & E2).
  exists season, episode. split; [exact E1 |]. split; [exact E2 |].
  destruct (matchTail_digits separator letter second rest Hs Hl Hne H2 D2 Hr)
    as [T NT].
  set (tail := (separator ++ letter ++ second ++ rest)%string) in *.
  assert (M : matchNumbers (first ++ tail) = Some (first, second)).
  { unfold matchNumbers. rewrite takeDigits_run by assumption.
    rewrite shorten_whole by exact H1. rewrite T. reflexivity. }
  unfold episodeOf.
  destruct first as [| d first']; [contradiction |].
  cbn [list_ascii_of_string forallb] in D1. apply andb_prop in D1.
  destruct D1 as [Hd D1]. cbn [String.append] in *.
  rewrite matchEpisode_before by assumption.
  cbn [matchEpisode]. unfold matchEpisodeAt.
  destruct (digit_plain d Hd) as (S & _). rewrite S, M, E1, E2. reflexivity.
Qed.

Lemma episodeOf_pattern_witness :
  exists season episode,
    parseInt10 "01" = Some season /\ parseInt10 "05" = Some episode /\
    episodeOf ("S" ++ "01" ++ " " ++ "E" ++ "05" ++ "") =
      Some (Some season, Some episode).
Proof.
  apply (episodeOf_pattern "S" "01" " " "E" "05" "").
  - reflexivity.
  - repeat split; [discriminate | cbn; lia].
  - repeat split; [discriminate | cbn; lia].
  - exact I.
  - right. left. reflexivity.
  - right. left. reflexivity.
  - discriminate.
Defined.

Lemma forallb_digits_app a b :
  forallb isDigit (list_ascii_of_string (a ++ b)) =
  forallb isDigit (list_ascii_of_string a) &&
  forallb isDigit (list_ascii_of_string b).
Proof.
  induction a as [| c a IH]; cbn [String.append list_ascii_of_string forallb];
    [reflexivity |].
  rewrite IH, andb_assoc. reflexivity.
Qed.

(** X20. A text with one number only, of two digits or more, is read as
    a season and an episode all the same: the last digit of the number
    is the episode and the digits before it are the season, so that
    [Episode 105] is episode 5 of season 10. *)
Theorem episodeOf_lone_number before digits last rest :
  noDigits before -> isNumeral digits -> isDigit last = true ->
  noDigits rest ->
  exists season episode,
    parseInt10 digits = Some season /\
    parseInt10 (String last "") = Some episode /\
    episodeOf (before ++ (digits ++ String last "") ++ rest) =
      Some (Some season, Some episode).
Proof.
  intros Hb (H1 & D1 & _) Hl Hr.
  destruct (parseInt10_digits digits H1 D1) as (season & E1).
  assert (Dl : forallb isDigit (list_ascii_of_string (String last "")) = true)
    by (cbn; rewrite Hl; reflexivity).
  destruct (parseInt10_digits (String last "") ltac:(discriminate) Dl)
    as (episode & E2).
  exists season, episode. split; [exact E1 |]. split; [exact E2 |].
  pose proof (noDigits_first _ Hr) as Hr1.
  set (run := (digits ++ String last "")%string).
  assert (Drun : forallb isDigit (list_ascii_of_string run) = true).
  { subst run. rewrite forallb_digits_app, D1, Dl. reflexivity. }
  assert (Nrun : run <> ""%string).
  { subst run. destruct digits; [contradiction | discriminate]. }
  assert (M : matchNumbers (run ++ rest) = Some (digits, String last "")).
  { unfold matchNumbers. rewrite takeDigits_run by assumption.
    rewrite shorten_whole by exact Nrun.
    rewrite (matchTail_none _ Hr).
    replace (pred (String.length run)) with (String.length digits)
      by (subst run; rewrite length_app; cbn [String.length]; lia).
    destruct digits as [| c digits']; [contradiction |].
    change (String.length (String c digits'))
      with (S (String.length digits')).
    cbn [shorten].
    change (S (String.length digits'))
      with (String.length (String c digits')).
    subst run. rewrite drop_all, substring_all.
    cbn [String.append].
    assert (T : matchTail (String last rest) = Some (String last "")).
    { unfold matchTail, letterAndDigits.
      destruct (digit_plain last Hl) as (_ & A & B & C).
      rewrite A, B, C. cbn [orb].
      apply (digitsAt_run (String last "") rest); [discriminate | exact Dl |
                                                   exact Hr1]. }
    rewrite T. reflexivity. }
  unfold episodeOf.
  destruct digits as [| d digits']; [contradiction |].
  cbn [list_ascii_of_string forallb] in D1. apply andb_prop in D1.
  destruct D1 as [Hd D1]. subst run. cbn [String.append] in *.
  rewrite matchEpisode_before by assumption.
  cbn [matchEpisode]. unfold matchEpisodeAt.
  destruct (digit_plain d Hd) as (S & _). rewrite S, M, E1, E2. reflexivity.
Qed.

Lemma episodeOf_lone_number_witness :
  exists season episode,
    parseInt10 "10" = Some season /\ parseInt10 "5" = Some episode /\
    episodeOf ("Episode " ++ ("10" ++ "5") ++ "") =
      Some (Some season, Some episode).
Proof.
  apply (episodeOf_lone_number "Episode " "10" "5" "").
  - reflexivity.
  - repeat split; [discriminate | cbn; lia].
  - reflexivity.
  - reflexivity.
Defined.

Lemma matchEpisode_noDigits s : noDigits s -> matchEpisode s = None.
Proof.
  induction s as [| c s IH]; intros H; [reflexivity |].
  cbn [matchEpisode]. fold matchEpisode.
  assert (E : matchEpisodeAt (String c s) = None).
  { unfold matchEpisodeAt. destruct (c =? "S")%char; apply matchNumbers_none.
    - apply noDigits_first, (noDigits_tail _ _ H).
    - apply noDigits_first, H. }
  rewrite E. apply IH, (noDigits_tail _ _ H).
Qed.

Lemma digitRuns_noDigits s run :
  noDigits s -> digitRuns run s = if truthy run then [run] else [].
Proof.
  revert run. induction s as [| c s IH]; intros run H; cbn [digitRuns];
    [reflexivity |].
  pose proof (noDigits_first _ H) as Hc. cbn [noDigitFirst] in Hc.
  rewrite Hc, (IH ""%string (noDigits_tail _ _ H)). cbn [truthy].
  apply app_nil_r.
Qed.

Lemma digitRuns_before before s :
  noDigits before -> digitRuns "" (before ++ s) = digitRuns "" s.
Proof.
  induction before as [| c before IH]; intros H; [reflexivity |].
  pose proof (noDigits_first _ H) as Hc. cbn [noDigitFirst] in Hc.
  cbn [String.append digitRuns]. rewrite Hc. cbn [truthy app].
  apply IH, (noDigits_tail _ _ H).
Qed.

(** X21. A text without digits, and a text whose only digit stands
    alone, give no season and no episode: both stay [null]. *)
Theorem episodeOf_nothing before rest :
  noDigits before -> noDigits rest ->
  episodeOf (before ++ rest) = None /\
  forall d, isDigit d = true ->
            episodeOf (before ++ String d rest) = None.
Proof.
  intros Hb Hr. split.
  - assert (H : noDigits (before ++ rest)).
    { clear - Hb Hr. induction before as [| c before IH]; [exact Hr |].
      pose proof (noDigits_first _ Hb) as Hc. cbn [noDigitFirst] in Hc.
      specialize (IH (noDigits_tail _ _ Hb)).
      unfold noDigits in *. cbn [String.append list_ascii_of_string forallb].
      rewrite Hc, IH. reflexivity. }
    unfold episodeOf. rewrite (matchEpisode_noDigits _ H).
    rewrite (digitRuns_noDigits _ _ H). reflexivity.
  - intros d Hd. unfold episodeOf.
    rewrite matchEpisode_before by assumption.
    cbn [matchEpisode]. fold matchEpisode.
    assert (M : matchEpisodeAt (String d rest) = None).
    { unfold matchEpisodeAt. destruct (digit_plain d Hd) as (S & _).
      rewrite S. unfold matchNumbers.
      change (String d rest) with (String d "" ++ rest)%string.
      rewrite (takeDigits_run (String d "") rest);
        [| cbn; rewrite Hd; reflexivity | apply noDigits_first, Hr].
      cbn [String.length shorten drop String.append].
      rewrite (matchTail_none _ Hr). reflexivity. }
    rewrite M, (matchEpisode_noDigits _ Hr).
    rewrite digitRuns_before by exact Hb.
    cbn [digitRuns]. rewrite Hd. cbn [String.append].
    rewrite (digitRuns_noDigits _ _ Hr). reflexivity.
Qed.

Lemma episodeOf_nothing_witness :
  episodeOf ("Pilot" ++ "") = None /\
  forall d, isDigit d = true -> episodeOf ("Part " ++ String d "") = None.
Proof.
  split.
  - apply (episodeOf_nothing "Pilot" ""); reflexivity.
  - apply (episodeOf_nothing "Part " ""); reflexivity.
Defined.

End EpisodeFacts.

(* ===================================================================== *)
(** ** The matcher before a guide is loaded *)
(* ===================================================================== *)

Module NoGuide.

Import JsString JsObject Epg Spec JsObjectFacts.

Lemma get_emptyObj k :
  get (@emptyObj programme) k =
  if inb k objectProtoKeys then Inherited k else Undefined.
Proof. reflexivity. Qed.

Lemma reserved_truthy k : In k objectProtoKeys -> truthy k = true.
Proof.
  intros H. destruct k; [| reflexivity].
  cbn in H. repeat (destruct H as [H | H]; [discriminate H |]). destruct H.
Qed.

(** X22. Before a guide is loaded, and after a load that failed, the
    matcher finds no programme for any slot; it raises instead exactly
    for a channel whose identifier, name or lower-cased name is the
    name of a property of [Object.prototype]. *)
Theorem no_guide_no_programme (toLowerCase : string -> string)
    ch slotStart slotEnd :
  (findProgrammeForSlot toLowerCase emptyState ch slotStart slotEnd = Throw TypeError <->
   (exists id, tvgId ch = Some id /\ In id objectProtoKeys) \/
   In (toLowerCase (name ch)) objectProtoKeys \/
   In (name ch) objectProtoKeys) /\
  (findProgrammeForSlot toLowerCase emptyState ch slotStart slotEnd = Throw TypeError \/
   findProgrammeForSlot toLowerCase emptyState ch slotStart slotEnd = Ok None).
Proof.
  unfold findProgrammeForSlot, candidates.
  cbn [emptyState epgSchedule epgScheduleNormalized epgScheduleByTvgId].
  rewrite !get_emptyObj.
  assert (Hname :
    match
      (if inb (toLowerCase (name ch)) objectProtoKeys
       then Inherited (toLowerCase (name ch)) else Undefined)
    with
    | Undefined =>
        match
          (if inb (name ch) objectProtoKeys
           then Inherited (name ch) else @Undefined (list programme))
        with
        | Undefined => Found []
        | r => r
        end
    | r => r
    end =
    if inb (toLowerCase (name ch)) objectProtoKeys || inb (name ch) objectProtoKeys
    then (if inb (toLowerCase (name ch)) objectProtoKeys
          then Inherited (toLowerCase (name ch)) else Inherited (name ch))
    else Found []).
  { destruct (inb (toLowerCase (name ch)) objectProtoKeys);
      destruct (inb (name ch) objectProtoKeys); reflexivity. }
  rewrite Hname. clear Hname.
  destruct (inb (toLowerCase (name ch)) objectProtoKeys) eqn:B;
    [apply inb_In in B | apply inb_false in B];
    (destruct (inb (name ch) objectProtoKeys) eqn:C;
     [apply inb_In in C | apply inb_false in C]);
    cbn [orb];
    (destruct (tvgId ch) as [id |] eqn:T;
     [destruct (inb id objectProtoKeys) eqn:A;
      [apply inb_In in A; rewrite (reserved_truthy _ A), get_emptyObj;
       replace (inb id objectProtoKeys) with true
         by (symmetry; apply inb_In, A)
      | rewrite get_emptyObj, A; apply inb_false in A;
        destruct (truthy id)]
     |]);
    cbn [find];
    try (split; [split; [intros _; tauto | reflexivity] | left; reflexivity]);
    try (split; [split; [intros _; left; exists id; auto | reflexivity]
                | left; reflexivity]);
    try (split; [split; [discriminate |] | right; reflexivity];
         intros [(id' & E & H) | [H | H]];
         [injection E as <- || discriminate E | |]; contradiction).
Qed.

End NoGuide.

(* ===================================================================== *)
(** ** What the chat input can do *)
(* ===================================================================== *)

Module CommandFacts.

Import JsString M3U Commands.

Lemma readyRoom_some socket currentChatRoom r :
  readyRoom socket currentChatRoom = Some r ->
  socket = true /\ currentChatRoom = Some r /\ r <> ""%string.
Proof.
  unfold readyRoom. destruct socket; [| discriminate].
  destruct currentChatRoom as [r' |]; [| discriminate].
  destruct r'; cbn [truthy]; [discriminate |].
  intros [= <-]. repeat split. discriminate.
Qed.

Lemma part_some parts i p : part parts i = Some p -> p <> ""%string.
Proof.
  unfold part. destruct (nth_error parts i) as [q |]; [| discriminate].
  destruct q; cbn [truthy]; [discriminate |]. intros [= <-]. discriminate.
Qed.

Lemma durationOf_nonzero p : durationOf p <> 0.
Proof.
  unfold durationOf. destruct p as [p |]; [| discriminate].
  destruct (parseInt p) as [n |]; [| discriminate].
  destruct (n =? 0) eqn:E; [discriminate | apply Z.eqb_neq, E].
Qed.

Lemma handleChatCommand_effect cmd u socket currentChatRoom e :
  handleChatCommand cmd u socket currentChatRoom = Some e ->
  privileged u = true /\
  match e with
  | ClearMessages => True
  | MuteUser room target duration moderator =>
      readyRoom socket currentChatRoom = Some room /\
      target <> ""%string /\ duration <> 0 /\ moderator = username u
  | UnmuteUser room target moderator =>
      readyRoom socket currentChatRoom = Some room /\
      target <> ""%string /\ moderator = username u
  | ChatMessage _ _ _ _ _ => False
  end.
Proof.
  unfold handleChatCommand. cbv zeta.
  set (parts := splitSpaces false "" cmd).
  set (base := toLowerCase (hd ""%string parts)).
  destruct (base =? "/clear")%string.
  - destruct (privileged u); [| discriminate]. intros [= <-]. auto.
  - assert (Hun :
      match (base =? "/unmute")%string, part parts 1 with
      | true, Some target =>
          if privileged u then
            match readyRoom socket currentChatRoom with
            | Some room => Some (UnmuteUser room target (username u))
            | None => None
            end
          else None
      | _, _ => None
      end = Some e ->
      privileged u = true /\
      match e with
      | ClearMessages => True
      | MuteUser room target duration moderator =>
          readyRoom socket currentChatRoom = Some room /\
          target <> ""%string /\ duration <> 0 /\ moderator = username u
      | UnmuteUser room target moderator =>
          readyRoom socket currentChatRoom = Some room /\
          target <> ""%string /\ moderator = username u
      | ChatMessage _ _ _ _ _ => False
      end).
    { destruct (base =? "/unmute")%string; [| discriminate].
      destruct (part parts 1) as [target |] eqn:P; [| discriminate].
      destruct (privileged u); [| discriminate].
      destruct (readyRoom socket currentChatRoom) as [room |];
        [| discriminate].
      intros [= <-]. split; [reflexivity |].
      split; [reflexivity |]. split; [apply (part_some _ _ _ P) | reflexivity]. }
    destruct (base =? "/mute")%string; [| exact Hun].
    destruct (part parts 1) as [target |] eqn:P; [| exact Hun].
    destruct (privileged u); [| discriminate].
    destruct (readyRoom socket currentChatRoom) as [room |]; [| discriminate].
    intros [= <-]. split; [reflexivity |]. split; [reflexivity |].
    split; [apply (part_some _ _ _ P) |].
    split; [apply durationOf_nonzero | reflexivity].
Qed.

(** X23. Whatever is typed, the chat input does one of four things at
    most, and only for a signed-in user. A text is sent as a message
    only if, trimmed, it is not empty and does not begin with a slash,
    and then to the current room with the name, role and colour of the
    user; the message list is emptied and a mute or unmute is sent only
    for a user whose role is admin or moderator, a mute always with a
    target that is not empty and a duration that is not zero. *)
Theorem handleChatSend_effect value current socket currentChatRoom e :
  handleChatSend value current socket currentChatRoom = Some e ->
  exists u,
    current = Some u /\ trim value <> ""%string /\
    match e with
    | ChatMessage room name ro co text =>
        text = trim value /\ String.prefix "/" text = false /\
        socket = true /\ currentChatRoom = Some room /\ room <> ""%string /\
        name = username u /\ ro = role u /\ co = color u
    | ClearMessages =>
        String.prefix "/" (trim value) = true /\ privileged u = true
    | MuteUser room target duration moderator =>
        String.prefix "/" (trim value) = true /\ privileged u = true /\
        socket = true /\ currentChatRoom = Some room /\ room <> ""%string /\
        target <> ""%string /\ duration <> 0 /\ moderator = username u
    | UnmuteUser room target moderator =>
        String.prefix "/" (trim value) = true /\ privileged u = true /\
        socket = true /\ currentChatRoom = Some room /\ room <> ""%string /\
        target <> ""%string /\ moderator = username u
    end.
Proof.
  unfold handleChatSend. cbv zeta.
  destruct (trim value) as [| c text] eqn:T; cbn [truthy negb];
    [discriminate |].
  destruct current as [u |]; [| discriminate].
  intros H. exists u. split; [reflexivity |]. split; [discriminate |].
  destruct (String.prefix "/" (String c text)) eqn:P.
  - apply handleChatCommand_effect in H. destruct H as [Hp He].
    destruct e as [| room target duration moderator | room target moderator
                   | room name ro co txt].
    + auto.
    + destruct He as (Hr & Ht & Hd & Hm).
      apply readyRoom_some in Hr. tauto.
    + destruct He as (Hr & Ht & Hm).
      apply readyRoom_some in Hr. tauto.
    + destruct He.
  - destruct (readyRoom socket currentChatRoom) as [room |] eqn:R;
      [| discriminate].
    injection H as <-. apply readyRoom_some in R.
    destruct R as (R1 & R2 & R3).
    split; [reflexivity |]. split; [exact P |]. split; [exact R1 |].
    split; [exact R2 |]. split; [exact R3 |]. repeat split.
Qed.

Lemma handleChatSend_effect_witness :
  exists u,
    Some (mkUser "ann" (Some "moderator") None) = Some u /\
    trim " /Mute  bob " <> ""%string /\
    String.prefix "/" (trim " /Mute  bob ") = true /\ privileged u = true /\
    true = true /\ Some "five"%string = Some "five"%string /\
    "five"%string <> ""%string /\
    "bob"%string <> ""%string /\ 5 <> 0 /\ "ann"%string = username u.
Proof.
  apply (handleChatSend_effect " /Mute  bob "
           (Some (mkUser "ann" (Some "moderator") None)) true (Some "five")
           (MuteUser "five" "bob" 5 "ann")).
  vm_compute. reflexivity.
Defined.

End CommandFacts.
